(** * Vector-search result reconciliation: a shallow embedding of
      [python/hsfs/core/vector_db_client.py]

    The class [VectorDbClient] is embedded method by method; of
    [python/hsfs/core/feature_view_engine.py], whose methods pass their
    arguments on to other services, [get_attached_transformation_fn] is
    embedded.  Python
    dictionaries whose iteration order is observable (request bodies, result
    rows, the column maps whose keys become the [_source] projection) are
    insertion-ordered association lists with the update-in-place behaviour of
    [dict.__setitem__]; dictionaries that are only looked up by key (the
    per-feature-group tables, the ceiling cache, the serving-key grouping) are
    [gmap]s.  A method that mutates [self] takes the client and returns the
    client it leaves behind, also when it raises. *)

From Stdlib Require Import ZArith Ascii String List Lia.
From Stdlib Require Import PrimFloat.
From stdpp Require Import base gmap strings list pretty.

(** ** Python values, exceptions and results *)

Module Py.

(** The values that travel through request bodies, rows, filters and
  serving-key entries.  JSON numbers are kept as integers; [VDict] is an
  insertion-ordered dictionary with string keys; [VDate] and [VDateTime] are
  the [datetime.date] and [datetime.datetime] objects that coercion
  produces. *)
#[warnings="-register-all"]
Inductive Val :=
| VNone
| VBool (b : bool)
| VInt (z : Z)
| VStr (s : string)
| VBytes (bs : list Z)
| VList (l : list Val)
| VDict (d : list (string * Val))
| VDate (year month day : Z)
| VDateTime (year month day hour minute second : Z).

(** [bool(v)]: the truth value Python gives to [v]. *)
Definition truthy (v : Val) : bool :=
match v with
| VNone => false
| VBool b => b
| VInt z => negb (z =? 0)%Z
| VStr s => negb (String.eqb s "")
| VBytes bs => match bs with [] => false | _ => true end
| VList l => match l with [] => false | _ => true end
| VDict d => match d with [] => false | _ => true end
| VDate _ _ _ => true
| VDateTime _ _ _ _ _ _ => true
end.

(** [a or b] on values. *)
Definition or_else (a b : Val) : Val := if truthy a then a else b.

Inductive Exn :=
| FeatureStoreException (msg : string)
| ValueError (msg : string)
| KeyError (key : string)
| IndexError
| AttributeError (msg : string)
| TypeError (msg : string)
| BinasciiError (msg : string)
| ZeroDivisionError
| VectorDatabaseException (reason : string) (info : list (string * Z))
| TransportError (msg : string)
| OverflowError (msg : string)
| OSError (msg : string).

Inductive result (A : Type) :=
| Ok (a : A)
| Raise (e : Exn).
Arguments Ok {A} a.
Arguments Raise {A} e.

Definition bind {A B} (r : result A) (k : A -> result B) : result B :=
match r with
| Ok a => k a
| Raise e => Raise e
end.

(** The way a method that returns nothing ends. *)
Inductive Completion :=
| Normal
| Raises (e : Exn).

End Py.
Export Py.

Notation "'let*' x ':=' r 'in' k" := (bind r (fun x => k))
  (at level 10, x name, r at level 100, k at level 200, only parsing).

(** ** Insertion-ordered dictionaries *)

Module Dict.
Section Dict.
Context {K V : Type} `{EqDecision K}.

Definition t := list (K * V).

(** [d.get(k)] *)
Fixpoint get (k : K) (d : list (K * V)) : option V :=
  match d with
  | [] => None
  | (k', v) :: d' => if decide (k = k') then Some v else get k d'
  end.

(** [d[k] = v]: an existing key keeps its position. *)
Fixpoint set (k : K) (v : V) (d : list (K * V)) : list (K * V) :=
  match d with
  | [] => [(k, v)]
  | (k', v') :: d' =>
      if decide (k = k') then (k', v) :: d' else (k', v') :: set k v d'
  end.

(** [list(d.keys())] *)
Definition keys (d : list (K * V)) : list K := fst <$> d.

(** [k in d] *)
Definition mem (k : K) (d : list (K * V)) : bool :=
  match get k d with Some _ => true | None => false end.
End Dict.
Arguments t : clear implicits.
End Dict.

(** ** The data model the client reads

    The classes below live in other modules of the package
    ([hsfs/feature.py], [hsfs/feature_group.py], [hsfs/embedding.py],
    [hsfs/constructor/query.py], [hsfs/constructor/join.py],
    [hsfs/serving_key.py]); each record keeps the attributes that
    [vector_db_client.py] reads. *)

Module Feature.
(** [complex] is what [is_complex()] answers for the feature. *)
Record t := {
  name : string;
  type : string;
  feature_group_id : Z;
  complex : bool
}.

(** Modelled from the spec: the identity of a feature as a dictionary key
    ([Feature.__hash__] is not part of this file).  A feature is a name and
    the id of the feature group that owns it (data model), and that pair is
    the key under which [_embedding_features] holds it. *)
Definition key (f : t) : Z * string := (feature_group_id f, name f).
End Feature.

Module EmbeddingIndex.
(** [embeddings] lists the names of the index's embedding features. *)
Record t := {
  index_name : string;
  col_prefix : string;
  embeddings : list string
}.
End EmbeddingIndex.

Module FeatureGroup.
Record t := {
  id : Z;
  name : string;
  version : Z;
  features : list Feature.t;
  primary_key : list string;
  embedding_index : option EmbeddingIndex.t
}.

(** Modelled from the spec: [FeatureGroup.__getitem__], which is not part
    of this file.  A feature group has an ordered set of features and a
    primary key that is a list of column names (data model); [fg[name]] is
    the first feature of the group with that name, and a name that names
    none of them raises [KeyError]. *)
Definition getitem (fg : t) (nm : string) : result Feature.t :=
  match List.find (fun f => String.eqb (Feature.name f) nm) (features fg) with
  | Some f => Ok f
  | None => Raise (KeyError nm)
  end.
End FeatureGroup.

Module EmbeddingFeature.
(** An embedding feature as [get_embeddings()] hands it out: it carries
    references to the feature group and the index that own it. *)
Record t := {
  name : string;
  feature_group : FeatureGroup.t;
  embedding_index : EmbeddingIndex.t
}.
End EmbeddingFeature.

(** [fg.embedding_index.get_embeddings()] *)
Definition get_embeddings (fg : FeatureGroup.t) (ei : EmbeddingIndex.t)
  : list EmbeddingFeature.t :=
  (fun n => {| EmbeddingFeature.name := n;
               EmbeddingFeature.feature_group := fg;
               EmbeddingFeature.embedding_index := ei |})
    <$> EmbeddingIndex.embeddings ei.

(** A query and its joins; a join's prefix can be [None]. *)
#[warnings="-register-all"]
Inductive Query :=
| Build_Query (_left_feature_group : FeatureGroup.t)
              (_left_features : list Feature.t)
              (joins : list Join)
with Join :=
| Build_Join (query : Query) (prefix : option string).

Definition _left_feature_group (q : Query) : FeatureGroup.t :=
  match q with Build_Query fg _ _ => fg end.
Definition _left_features (q : Query) : list Feature.t :=
  match q with Build_Query _ fs _ => fs end.
Definition joins (q : Query) : list Join :=
  match q with Build_Query _ _ js => js end.
Definition query (j : Join) : Query :=
  match j with Build_Join q _ => q end.
Definition prefix (j : Join) : option string :=
  match j with Build_Join _ p => p end.

(** Modelled from the spec: the [featuregroups] property of a query, which is
    not part of this file: the primary feature group followed by the feature
    group of each join. *)
Definition featuregroups (q : Query) : list FeatureGroup.t :=
  _left_feature_group q :: ((fun j => _left_feature_group (query j)) <$> joins q).

Module ServingKey.
Record t := {
  feature_name : string;
  required_serving_key : string;
  join_index : Z
}.
End ServingKey.

(** ** The client *)

Record VectorDbClient := {
  _query : Query;
  _embedding_features : list ((Z * string) * EmbeddingFeature.t);
  _fg_vdb_col_fg_col_map : gmap Z (list (string * Feature.t));
  _fg_vdb_col_td_col_map : gmap Z (list (string * string));
  _fg_col_vdb_col_map : gmap Z (list (string * string));
  _fg_embedding_map : gmap Z EmbeddingIndex.t;
  _td_embedding_feature_names : gset string;
  _embedding_fg_by_join_index : gmap nat FeatureGroup.t;
  _fg_id_to_vdb_pks : gmap Z (list string);
  _index_result_limit_k : gmap string Z;
  _serving_keys : option (list ServingKey.t);
  _serving_key_by_serving_index : gmap Z (list ServingKey.t)
}.

(** The client as [__init__] sets it up before it calls [init]. *)
Definition blank (q : Query) (serving_keys : option (list ServingKey.t))
  : VectorDbClient :=
  {| _query := q;
     _embedding_features := [];
     _fg_vdb_col_fg_col_map := ∅;
     _fg_vdb_col_td_col_map := ∅;
     _fg_col_vdb_col_map := ∅;
     _fg_embedding_map := ∅;
     _td_embedding_feature_names := ∅;
     _embedding_fg_by_join_index := ∅;
     _fg_id_to_vdb_pks := ∅;
     _index_result_limit_k := ∅;
     _serving_keys := serving_keys;
     _serving_key_by_serving_index := ∅ |}.

(** Assignments to the attributes of [self]. *)
Section Setters.
Variable self : VectorDbClient.

Definition set_embedding_features v :=
  {| _query := _query self; _embedding_features := v;
     _fg_vdb_col_fg_col_map := _fg_vdb_col_fg_col_map self;
     _fg_vdb_col_td_col_map := _fg_vdb_col_td_col_map self;
     _fg_col_vdb_col_map := _fg_col_vdb_col_map self;
     _fg_embedding_map := _fg_embedding_map self;
     _td_embedding_feature_names := _td_embedding_feature_names self;
     _embedding_fg_by_join_index := _embedding_fg_by_join_index self;
     _fg_id_to_vdb_pks := _fg_id_to_vdb_pks self;
     _index_result_limit_k := _index_result_limit_k self;
     _serving_keys := _serving_keys self;
     _serving_key_by_serving_index := _serving_key_by_serving_index self |}.

Definition set_fg_vdb_col_fg_col_map v :=
  {| _query := _query self; _embedding_features := _embedding_features self;
     _fg_vdb_col_fg_col_map := v;
     _fg_vdb_col_td_col_map := _fg_vdb_col_td_col_map self;
     _fg_col_vdb_col_map := _fg_col_vdb_col_map self;
     _fg_embedding_map := _fg_embedding_map self;
     _td_embedding_feature_names := _td_embedding_feature_names self;
     _embedding_fg_by_join_index := _embedding_fg_by_join_index self;
     _fg_id_to_vdb_pks := _fg_id_to_vdb_pks self;
     _index_result_limit_k := _index_result_limit_k self;
     _serving_keys := _serving_keys self;
     _serving_key_by_serving_index := _serving_key_by_serving_index self |}.

Definition set_fg_vdb_col_td_col_map v :=
  {| _query := _query self; _embedding_features := _embedding_features self;
     _fg_vdb_col_fg_col_map := _fg_vdb_col_fg_col_map self;
     _fg_vdb_col_td_col_map := v;
     _fg_col_vdb_col_map := _fg_col_vdb_col_map self;
     _fg_embedding_map := _fg_embedding_map self;
     _td_embedding_feature_names := _td_embedding_feature_names self;
     _embedding_fg_by_join_index := _embedding_fg_by_join_index self;
     _fg_id_to_vdb_pks := _fg_id_to_vdb_pks self;
     _index_result_limit_k := _index_result_limit_k self;
     _serving_keys := _serving_keys self;
     _serving_key_by_serving_index := _serving_key_by_serving_index self |}.

Definition set_fg_col_vdb_col_map v :=
  {| _query := _query self; _embedding_features := _embedding_features self;
     _fg_vdb_col_fg_col_map := _fg_vdb_col_fg_col_map self;
     _fg_vdb_col_td_col_map := _fg_vdb_col_td_col_map self;
     _fg_col_vdb_col_map := v;
     _fg_embedding_map := _fg_embedding_map self;
     _td_embedding_feature_names := _td_embedding_feature_names self;
     _embedding_fg_by_join_index := _embedding_fg_by_join_index self;
     _fg_id_to_vdb_pks := _fg_id_to_vdb_pks self;
     _index_result_limit_k := _index_result_limit_k self;
     _serving_keys := _serving_keys self;
     _serving_key_by_serving_index := _serving_key_by_serving_index self |}.

Definition set_fg_embedding_map v :=
  {| _query := _query self; _embedding_features := _embedding_features self;
     _fg_vdb_col_fg_col_map := _fg_vdb_col_fg_col_map self;
     _fg_vdb_col_td_col_map := _fg_vdb_col_td_col_map self;
     _fg_col_vdb_col_map := _fg_col_vdb_col_map self;
     _fg_embedding_map := v;
     _td_embedding_feature_names := _td_embedding_feature_names self;
     _embedding_fg_by_join_index := _embedding_fg_by_join_index self;
     _fg_id_to_vdb_pks := _fg_id_to_vdb_pks self;
     _index_result_limit_k := _index_result_limit_k self;
     _serving_keys := _serving_keys self;
     _serving_key_by_serving_index := _serving_key_by_serving_index self |}.

Definition set_td_embedding_feature_names v :=
  {| _query := _query self; _embedding_features := _embedding_features self;
     _fg_vdb_col_fg_col_map := _fg_vdb_col_fg_col_map self;
     _fg_vdb_col_td_col_map := _fg_vdb_col_td_col_map self;
     _fg_col_vdb_col_map := _fg_col_vdb_col_map self;
     _fg_embedding_map := _fg_embedding_map self;
     _td_embedding_feature_names := v;
     _embedding_fg_by_join_index := _embedding_fg_by_join_index self;
     _fg_id_to_vdb_pks := _fg_id_to_vdb_pks self;
     _index_result_limit_k := _index_result_limit_k self;
     _serving_keys := _serving_keys self;
     _serving_key_by_serving_index := _serving_key_by_serving_index self |}.

Definition set_embedding_fg_by_join_index v :=
  {| _query := _query self; _embedding_features := _embedding_features self;
     _fg_vdb_col_fg_col_map := _fg_vdb_col_fg_col_map self;
     _fg_vdb_col_td_col_map := _fg_vdb_col_td_col_map self;
     _fg_col_vdb_col_map := _fg_col_vdb_col_map self;
     _fg_embedding_map := _fg_embedding_map self;
     _td_embedding_feature_names := _td_embedding_feature_names self;
     _embedding_fg_by_join_index := v;
     _fg_id_to_vdb_pks := _fg_id_to_vdb_pks self;
     _index_result_limit_k := _index_result_limit_k self;
     _serving_keys := _serving_keys self;
     _serving_key_by_serving_index := _serving_key_by_serving_index self |}.

Definition set_fg_id_to_vdb_pks v :=
  {| _query := _query self; _embedding_features := _embedding_features self;
     _fg_vdb_col_fg_col_map := _fg_vdb_col_fg_col_map self;
     _fg_vdb_col_td_col_map := _fg_vdb_col_td_col_map self;
     _fg_col_vdb_col_map := _fg_col_vdb_col_map self;
     _fg_embedding_map := _fg_embedding_map self;
     _td_embedding_feature_names := _td_embedding_feature_names self;
     _embedding_fg_by_join_index := _embedding_fg_by_join_index self;
     _fg_id_to_vdb_pks := v;
     _index_result_limit_k := _index_result_limit_k self;
     _serving_keys := _serving_keys self;
     _serving_key_by_serving_index := _serving_key_by_serving_index self |}.

Definition set_index_result_limit_k v :=
  {| _query := _query self; _embedding_features := _embedding_features self;
     _fg_vdb_col_fg_col_map := _fg_vdb_col_fg_col_map self;
     _fg_vdb_col_td_col_map := _fg_vdb_col_td_col_map self;
     _fg_col_vdb_col_map := _fg_col_vdb_col_map self;
     _fg_embedding_map := _fg_embedding_map self;
     _td_embedding_feature_names := _td_embedding_feature_names self;
     _embedding_fg_by_join_index := _embedding_fg_by_join_index self;
     _fg_id_to_vdb_pks := _fg_id_to_vdb_pks self;
     _index_result_limit_k := v;
     _serving_keys := _serving_keys self;
     _serving_key_by_serving_index := _serving_key_by_serving_index self |}.

Definition set_serving_key_by_serving_index v :=
  {| _query := _query self; _embedding_features := _embedding_features self;
     _fg_vdb_col_fg_col_map := _fg_vdb_col_fg_col_map self;
     _fg_vdb_col_td_col_map := _fg_vdb_col_td_col_map self;
     _fg_col_vdb_col_map := _fg_col_vdb_col_map self;
     _fg_embedding_map := _fg_embedding_map self;
     _td_embedding_feature_names := _td_embedding_feature_names self;
     _embedding_fg_by_join_index := _embedding_fg_by_join_index self;
     _fg_id_to_vdb_pks := _fg_id_to_vdb_pks self;
     _index_result_limit_k := _index_result_limit_k self;
     _serving_keys := _serving_keys self;
     _serving_key_by_serving_index := v |}.
End Setters.

(** ** [init]: the column namespace maps *)

(** Lines 57-62: every feature of an embedding-bearing group that carries the
    name of one of the group's embedding features is bound to it. *)
Definition bind_embedding_features (fg : FeatureGroup.t) (ei : EmbeddingIndex.t)
    (acc : list ((Z * string) * EmbeddingFeature.t))
  : list ((Z * string) * EmbeddingFeature.t) :=
  foldl (fun acc feat =>
    foldl (fun acc fgf =>
      if decide (Feature.name fgf = EmbeddingFeature.name feat
                 ∧ Feature.feature_group_id fgf = FeatureGroup.id fg)
      then Dict.set (Feature.key fgf) feat acc
      else acc) acc (FeatureGroup.features fg))
    acc (get_embeddings fg ei).

Definition init_embedding_features (fgs : list FeatureGroup.t)
    (acc : list ((Z * string) * EmbeddingFeature.t)) :=
  foldl (fun acc fg =>
    match FeatureGroup.embedding_index fg with
    | Some ei => bind_embedding_features fg ei acc
    | None => acc
    end) acc fgs.

(** Lines 68-70: the selected features of the sub-query. *)
Definition add_feature_cols (cp : string) (fs : list Feature.t)
    (m : list (string * Feature.t) * list (string * string)) :=
  foldl (fun m f =>
    (Dict.set (cp +:+ Feature.name f) f m.1,
     Dict.set (Feature.name f) (cp +:+ Feature.name f) m.2)) m fs.

(** Lines 71-76: the primary key is added in case it is not selected as a
    feature; [fg[pk]] is evaluated before either dictionary is touched. *)
Fixpoint add_primary_key_cols (fg : FeatureGroup.t) (cp : string)
    (pks : list string)
    (m : list (string * Feature.t) * list (string * string))
  : result (list (string * Feature.t) * list (string * string)) :=
  match pks with
  | [] => Ok m
  | pk :: rest =>
      let* f := FeatureGroup.getitem fg pk in
      add_primary_key_cols fg cp rest
        (Dict.set (cp +:+ pk) f m.1, Dict.set pk (cp +:+ pk) m.2)
  end.

(** Lines 78-80: [[fg_col_vdb_col_map[pk] for pk in fg.primary_key]] *)
Fixpoint vdb_pks (m : list (string * string)) (pks : list string)
  : result (list string) :=
  match pks with
  | [] => Ok []
  | pk :: rest =>
      match Dict.get pk m with
      | Some c => let* cs := vdb_pks m rest in Ok (c :: cs)
      | None => Raise (KeyError pk)
      end
  end.

(** Lines 63-82, one iteration per sub-query. *)
Fixpoint init_fg_maps (qs : list Query) (self : VectorDbClient)
  : Completion * VectorDbClient :=
  match qs with
  | [] => (Normal, self)
  | q :: rest =>
      let fg := _left_feature_group q in
      match FeatureGroup.embedding_index fg with
      | None => init_fg_maps rest self
      | Some ei =>
          let cp := EmbeddingIndex.col_prefix ei in
          match add_primary_key_cols fg cp (FeatureGroup.primary_key fg)
                  (add_feature_cols cp (_left_features q) ([], [])) with
          | Raise e => (Raises e, self)
          | Ok (vdb_col_fg_col_map, fg_col_vdb_col_map) =>
              let self1 := set_fg_vdb_col_fg_col_map self
                (<[FeatureGroup.id fg := vdb_col_fg_col_map]>
                   (_fg_vdb_col_fg_col_map self)) in
              match vdb_pks fg_col_vdb_col_map (FeatureGroup.primary_key fg) with
              | Raise e => (Raises e, self1)
              | Ok pks =>
                  let self2 := set_fg_id_to_vdb_pks self1
                    (<[FeatureGroup.id fg := pks]> (_fg_id_to_vdb_pks self1)) in
                  let self3 := set_fg_col_vdb_col_map self2
                    (<[FeatureGroup.id fg := fg_col_vdb_col_map]>
                       (_fg_col_vdb_col_map self2)) in
                  let self4 := set_fg_embedding_map self3
                    (<[FeatureGroup.id fg := ei]> (_fg_embedding_map self3)) in
                  init_fg_maps rest self4
              end
          end
      end
  end.

(** [join.prefix or ""] *)
Definition prefix_or_empty (j : Join) : string :=
  match prefix j with
  | Some p => p
  | None => ""
  end.

(** Lines 98-102: the physical-to-final map of one joined feature group. *)
Definition vdb_col_td_col_map_of (ei : EmbeddingIndex.t) (alias : string)
    (fs : list Feature.t) : list (string * string) :=
  foldl (fun m feat =>
    Dict.set (EmbeddingIndex.col_prefix ei +:+ Feature.name feat)
             (alias +:+ Feature.name feat) m) [] fs.

(** Lines 87-103, one iteration per entry of [enumerate(fg_joins)]. *)
Fixpoint init_joins (i : nat) (fg_joins : list Join) (self : VectorDbClient)
  : Completion * VectorDbClient :=
  match fg_joins with
  | [] => (Normal, self)
  | join :: rest =>
      let join_fg := _left_feature_group (query join) in
      match FeatureGroup.embedding_index join_fg with
      | None => init_joins (S i) rest self
      | Some ei =>
          match _fg_vdb_col_td_col_map self !! FeatureGroup.id join_fg with
          | Some _ =>
              (Raises (FeatureStoreException
                         "Do not support join of same fg multiple times."),
               self)
          | None =>
              let self1 := set_embedding_fg_by_join_index self
                (<[i := join_fg]> (_embedding_fg_by_join_index self)) in
              let self2 := set_td_embedding_feature_names self1
                (foldl (fun s ef =>
                          {[prefix_or_empty join +:+ EmbeddingFeature.name ef]} ∪ s)
                       (_td_embedding_feature_names self1)
                       (get_embeddings join_fg ei)) in
              let self3 := set_fg_vdb_col_td_col_map self2
                (<[FeatureGroup.id join_fg :=
                     vdb_col_td_col_map_of ei (prefix_or_empty join)
                       (FeatureGroup.features join_fg)]>
                   (_fg_vdb_col_td_col_map self2)) in
              init_joins (S i) rest self3
          end
      end
  end.

(** The join that stands for the left feature group (line 85). *)
Definition fg_joins (q : Query) : list Join :=
  Build_Join q (Some "") :: joins q.

Definition init (self : VectorDbClient) : Completion * VectorDbClient :=
  let self1 := set_embedding_features self
    (init_embedding_features (featuregroups (_query self))
       (_embedding_features self)) in
  match init_fg_maps (_query self1 :: (query <$> joins (_query self1))) self1 with
  | (Normal, self2) => init_joins 0 (fg_joins (_query self2)) self2
  | raised => raised
  end.

(** [VectorDbClient(query, serving_keys)] *)
Definition new (q : Query) (serving_keys : option (list ServingKey.t))
  : Completion * VectorDbClient :=
  init (blank q serving_keys).

(** ** Filters and their translation *)

Module Filter.
(** The conditions that [_convert_filter] knows, and any other one. *)
Inductive Condition :=
| GT | GE | LT | LE | EQ | NE | IN | LK
| Unknown (c : string).

Record t := {
  feature : Feature.t;
  condition : Condition;
  value : Val
}.
End Filter.

Module Logic.
Inductive LogicType :=
| AND | OR | SINGLE
| Unknown (ty : string).
End Logic.

(** What the [filter] argument holds when it is not [None]: a [Filter] or a
    [Logic] with its two children, each of which can be missing.

    Modelled from the spec: [Logic.get_left_filter_or_logic] and
    [get_right_filter_or_logic], which are not part of this file, answer the
    left and the right child of the composite, or [None]. *)
#[warnings="-register-all"]
Inductive FilterOrLogic :=
| AFilter (f : Filter.t)
| ALogic (type : Logic.LogicType)
         (get_left_filter_or_logic get_right_filter_or_logic : option FilterOrLogic).

(** [_check_filter].  The branch for a [filter] that is neither a [Filter]
    nor a [Logic] has no counterpart: [FilterOrLogic] holds nothing else. *)
Fixpoint _check_filter (filter : FilterOrLogic) (fg : FeatureGroup.t)
  : result unit :=
  match filter with
  | AFilter f =>
      if decide (Feature.feature_group_id (Filter.feature f) = FeatureGroup.id fg)
      then Ok tt
      else Raise (FeatureStoreException
                    ("filter feature should be from feature group '"
                     +:+ FeatureGroup.name fg +:+ "' version '"
                     +:+ pretty (FeatureGroup.version fg) +:+ "'"))
  | ALogic _ l r =>
      let* _ := match r with
                | Some x => _check_filter x fg
                | None => Ok tt
                end in
      match l with
      | Some x => _check_filter x fg
      | None => Ok tt
      end
  end.

(** [_filter_map] *)
Definition _filter_map (c : Filter.Condition) : option string :=
  match c with
  | Filter.GT => Some "gt"
  | Filter.GE => Some "gte"
  | Filter.LT => Some "lt"
  | Filter.LE => Some "lte"
  | _ => None
  end.

(** [col_prefix + name] when [col_prefix] is truthy, else [name]. *)
Definition prefixed (col_prefix : option string) (nm : string) : string :=
  match col_prefix with
  | Some p => if String.eqb p "" then nm else p +:+ nm
  | None => nm
  end.

(** [_convert_filter] *)
Definition _convert_filter (filter : Filter.t) (col_prefix : option string)
  : result Val :=
  let feature_name := prefixed col_prefix (Feature.name (Filter.feature filter)) in
  let value := Filter.value filter in
  match Filter.condition filter with
  | Filter.EQ => Ok (VDict [("term", VDict [(feature_name, value)])])
  | Filter.NE =>
      Ok (VDict [("bool", VDict [("must_not",
            VList [VDict [("term", VDict [(feature_name, value)])]])])])
  | Filter.IN => Ok (VDict [("terms", VDict [(feature_name, value)])])
  | Filter.LK =>
      match value with
      | VStr s =>
          Ok (VDict [("wildcard",
                VDict [(feature_name, VDict [("value", VStr ("*" +:+ s +:+ "*"))])])])
      | _ => Raise (TypeError "can only concatenate str to str")
      end
  | c =>
      match _filter_map c with
      | Some op =>
          Ok (VDict [("range", VDict [(feature_name, VDict [(op, value)])])])
      | None => Raise (FeatureStoreException "Filter condition not defined.")
      end
  end.

(** [_get_query_filter]; [None] stands for the default of [col_prefix], which
    is what the call on the left child of a [SINGLE] composite gets. *)
Fixpoint _get_query_filter (filter : FilterOrLogic) (col_prefix : option string)
  : result (list Val) :=
  match filter with
  | AFilter f => let* c := _convert_filter f col_prefix in Ok [c]
  | ALogic ty l r =>
      let left p := match l with
                    | Some x => _get_query_filter x p
                    | None => Ok []
                    end in
      let right p := match r with
                     | Some x => _get_query_filter x p
                     | None => Ok []
                     end in
      match ty with
      | Logic.SINGLE =>
          let* a := left None in
          match a with
          | [] => right col_prefix
          | _ => Ok a
          end
      | Logic.AND =>
          let* a := left col_prefix in
          let* b := right col_prefix in
          Ok [VDict [("bool", VDict [("must", VList (a ++ b))])]]
      | Logic.OR =>
          let* a := left col_prefix in
          let* b := right col_prefix in
          Ok [VDict [("bool", VDict [("should", VList (a ++ b));
                                     ("minimum_should_match", VInt 1)])]]
      | Logic.Unknown ty =>
          Raise (FeatureStoreException ("filter type " +:+ ty +:+ " not defined."))
      end
  end.

(** The [filter] argument itself can be [None]. *)
Definition check_filter_arg (filter : option FilterOrLogic) (fg : FeatureGroup.t)
  : result unit :=
  match filter with
  | Some f => _check_filter f fg
  | None => Ok tt
  end.

Definition get_query_filter_arg (filter : option FilterOrLogic)
    (col_prefix : option string) : result (list Val) :=
  match filter with
  | Some f => _get_query_filter f col_prefix
  | None => Ok []
  end.

(** ** Result rewriting *)

(** [_rewrite_result_key]: the loop over [result_map.items()], with the
    dictionary built so far. *)
Fixpoint rewrite_items (items : list (string * Val))
    (key_map : list (string * string)) (new_map : list (string * Val))
  : result (list (string * Val)) :=
  match items with
  | [] => Ok new_map
  | (key, value) :: rest =>
      match Dict.get key key_map with
      | None =>
          Raise (FeatureStoreException
                   ("Feature '" +:+ key
                    +:+ "' from embedding feature group is not found in the query"))
      | Some new_key => rewrite_items rest key_map (Dict.set new_key value new_map)
      end
  end.

Definition _rewrite_result_key (result_map : list (string * Val))
    (key_map : list (string * string)) : result (list (string * Val)) :=
  rewrite_items result_map key_map [].

(** ** Type coercion *)

Module Str.
(** [str.lower()] on the ASCII letters. *)
Definition lower_ascii (c : ascii) : ascii :=
  let n := nat_of_ascii c in
  if (65 <=? n)%nat && (n <=? 90)%nat then ascii_of_nat (n + 32) else c.

Fixpoint lower (s : string) : string :=
  match s with
  | EmptyString => EmptyString
  | String c s' => String (lower_ascii c) (lower s')
  end.
End Str.

Module Datetime.
(** The proleptic Gregorian date of a day count relative to 1970-01-01. *)
Definition civil_from_days (days : Z) : Z * Z * Z :=
  let z := (days + 719468)%Z in
  let era := (z / 146097)%Z in
  let doe := (z - era * 146097)%Z in
  let yoe := ((doe - doe / 1460 + doe / 36524 - doe / 146096) / 365)%Z in
  let doy := (doe - (365 * yoe + yoe / 4 - yoe / 100))%Z in
  let mp := ((5 * doy + 2) / 153)%Z in
  let d := (doy - (153 * mp + 2) / 5 + 1)%Z in
  let m := (if (mp <? 10)%Z then mp + 3 else mp - 9)%Z in
  let y := (yoe + era * 400 + (if (m <=? 2)%Z then 1 else 0))%Z in
  (y, m, d).

(** [datetime.utcfromtimestamp(secs)] for an integer, as CPython computes it
    on a 64-bit Linux platform: the number has to fit the [time_t] of the
    platform ([OverflowError]), [gmtime] has to hold the year, counted from
    1900, in a C [int] ([OSError]), and the year has to be one of 1 to 9999
    ([ValueError]). *)
Definition utcfromtimestamp (secs : Z) : result Val :=
  if negb ((- 2 ^ 63 <=? secs) && (secs <? 2 ^ 63))%Z then
    Raise (OverflowError "timestamp out of range for platform time_t")
  else
    let '(y, m, d) := civil_from_days (secs / 86400) in
    let sod := (secs mod 86400)%Z in
    if negb ((- 2 ^ 31 <=? y - 1900) && (y - 1900 <? 2 ^ 31))%Z then
      Raise (OSError "[Errno 75] Value too large for defined data type")
    else if negb ((1 <=? y) && (y <=? 9999))%Z then
      Raise (ValueError ("year " +:+ pretty y +:+ " is out of range"))
    else Ok (VDateTime y m d (sod / 3600) ((sod mod 3600) / 60) (sod mod 60)).

(** [.date()] *)
Definition date (v : Val) : result Val :=
  match v with
  | VDateTime y m d _ _ _ => Ok (VDate y m d)
  | _ => Raise (AttributeError "date")
  end.
End Datetime.

(** [feature_value // 10**3] *)
Definition floordiv_1000 (v : Val) : result Z :=
  match v with
  | VInt z => Ok (z / 1000)%Z
  | VBool b => Ok ((if b then 1 else 0) / 1000)%Z
  | _ => Raise (TypeError "unsupported operand type(s) for //")
  end.

Module Base64.
(** The value of a character of the standard alphabet. *)
Definition table_a2b (c : ascii) : option Z :=
  let n := Z.of_nat (nat_of_ascii c) in
  if ((65 <=? n) && (n <=? 90))%Z then Some (n - 65)%Z
  else if ((97 <=? n) && (n <=? 122))%Z then Some (n - 71)%Z
  else if ((48 <=? n) && (n <=? 57))%Z then Some (n + 4)%Z
  else if (n =? 43)%Z then Some 62%Z
  else if (n =? 47)%Z then Some 63%Z
  else None.

(** The decoding loop of [binascii.a2b_base64] as [b64decode] runs it
    (not strict): characters outside the alphabet are skipped, a complete
    pad sequence ends the input, and a quad that is left open is an error.
    [out] holds the bytes decoded so far, last first. *)
Fixpoint a2b (s : string) (quad_pos leftchar pads : Z) (out : list Z)
  : result (list Z) :=
  match s with
  | EmptyString =>
      if (quad_pos =? 0)%Z then Ok (rev out)
      else if (quad_pos =? 1)%Z then
        Raise (BinasciiError "Invalid base64-encoded string")
      else Raise (BinasciiError "Incorrect padding")
  | String c rest =>
      if Ascii.eqb c "="%char then
        if (2 <=? quad_pos)%Z then
          if (4 <=? quad_pos + (pads + 1))%Z then Ok (rev out)
          else a2b rest quad_pos leftchar (pads + 1) out
        else a2b rest quad_pos leftchar pads out
      else
        match table_a2b c with
        | None => a2b rest quad_pos leftchar pads out
        | Some v =>
            if (quad_pos =? 0)%Z then a2b rest 1 v 0 out
            else if (quad_pos =? 1)%Z then
              a2b rest 2 (Z.land v 15) 0
                  (Z.lor (Z.shiftl leftchar 2) (Z.shiftr v 4) :: out)
            else if (quad_pos =? 2)%Z then
              a2b rest 3 (Z.land v 3) 0
                  (Z.lor (Z.shiftl leftchar 4) (Z.shiftr v 2) :: out)
            else
              a2b rest 0 0 0 (Z.lor (Z.shiftl leftchar 6) v :: out)
        end
  end.

Fixpoint is_ascii (s : string) : bool :=
  match s with
  | EmptyString => true
  | String c rest => (nat_of_ascii c <? 128)%nat && is_ascii rest
  end.

Definition string_of_bytes (bs : list Z) : string :=
  string_of_list_ascii ((fun b => ascii_of_nat (Z.to_nat b)) <$> bs).

(** [base64.b64decode(v)] *)
Definition b64decode (v : Val) : result Val :=
  match v with
  | VStr s =>
      if is_ascii s then let* bs := a2b s 0 0 0 [] in Ok (VBytes bs)
      else Raise (ValueError
                    "string argument should contain only ASCII characters")
  | VBytes bs => let* bs' := a2b (string_of_bytes bs) 0 0 0 [] in Ok (VBytes bs')
  | _ => Raise (TypeError "argument should be a bytes-like object or ASCII string")
  end.
End Base64.

(** [result.get(feature_name)] *)
Definition row_get (nm : string) (row : list (string * Val)) : Val :=
  match Dict.get nm row with
  | Some v => v
  | None => VNone
  end.

(** One iteration of the loop of [_convert_to_pandas_type]. *)
Definition convert_feature (self : VectorDbClient) (feature : Feature.t)
    (row : list (string * Val)) : result (list (string * Val)) :=
  let feature_name := Feature.name feature in
  let feature_type := Str.lower (Feature.type feature) in
  let feature_value := row_get feature_name row in
  if negb (truthy feature_value) then Ok row
  else if String.eqb feature_type "date" then
    let* secs := floordiv_1000 feature_value in
    let* dt := Datetime.utcfromtimestamp secs in
    let* d := Datetime.date dt in
    Ok (Dict.set feature_name d row)
  else if String.eqb feature_type "timestamp" then
    let* secs := floordiv_1000 feature_value in
    let* dt := Datetime.utcfromtimestamp secs in
    Ok (Dict.set feature_name dt row)
  else if String.eqb feature_type "binary"
          || (Feature.complex feature
              && negb (Dict.mem (Feature.key feature) (_embedding_features self)))
  then
    let* bs := Base64.b64decode feature_value in
    Ok (Dict.set feature_name bs row)
  else Ok row.

(** [_convert_to_pandas_type] *)
Fixpoint _convert_to_pandas_type (self : VectorDbClient)
    (schema : list Feature.t) (row : list (string * Val))
  : result (list (string * Val)) :=
  match schema with
  | [] => Ok row
  | feature :: rest =>
      let* row' := convert_feature self feature row in
      _convert_to_pandas_type self rest row'
  end.

(** ** The index client

    [OpenSearchClientSingleton] is an external collaborator.  A [Call] is
    what [search] is given, a [Hit] one entry of [results["hits"]["hits"]],
    and the index answers a call in view of the calls made before it.  A
    score is the float that the JSON number of the hit is read as; the
    distance [1 / score - 1] is computed in binary64 arithmetic, as Python
    computes it. *)

Record Call := {
  body : Val;
  index : string;
  options : Val
}.

Record Hit := {
  _score : float;
  _source : list (string * Val)
}.

(** Modelled from the spec: the constants of [VectorDatabaseException], which
    is not part of this file: the reason code "requested k too large" and the
    well-known key under which its payload reports the maximum permitted k. *)
Definition REQUESTED_K_TOO_LARGE : string := "REQUESTED_K_TOO_LARGE".
Definition REQUESTED_K_TOO_LARGE_INFO_K : string := "k".

(** In-place updates inside a request body. *)
Definition with_key (key : string) (f : Val -> result Val) (v : Val)
  : result Val :=
  match v with
  | VDict d =>
      match Dict.get key d with
      | Some x => let* x' := f x in Ok (VDict (Dict.set key x' d))
      | None => Raise (KeyError key)
      end
  | _ => Raise (TypeError "object is not subscriptable")
  end.

Definition with_first (f : Val -> result Val) (v : Val) : result Val :=
  match v with
  | VList (x :: xs) => let* x' := f x in Ok (VList (x' :: xs))
  | VList [] => Raise IndexError
  | _ => Raise (TypeError "object is not subscriptable")
  end.

Definition setitem (key : string) (x : Val) (v : Val) : result Val :=
  match v with
  | VDict d => Ok (VDict (Dict.set key x d))
  | _ => Raise (TypeError "object does not support item assignment")
  end.

(** [query["query"]["bool"]["must"][0]["knn"][col_name]["k"] = k] *)
Definition set_knn_k (col_name : string) (k : Z) (q : Val) : result Val :=
  with_key "query" (with_key "bool" (with_key "must" (with_first
    (with_key "knn" (with_key col_name (setitem "k" (VInt k))))))) q.

(** Lines 116-127: the embedding feature the search is about. *)
Definition resolve_embedding_feature (self : VectorDbClient)
    (feature : option Feature.t) : result EmbeddingFeature.t :=
  match feature with
  | None =>
      match _embedding_features self with
      | [] => Raise (ValueError "embedding col is not defined.")
      | [(_, ef)] => Ok ef
      | _ => Raise (ValueError
                      "More than 1 embedding columns but col is not defined")
      end
  | Some f =>
      match Dict.get (Feature.key f) (_embedding_features self) with
      | Some ef => Ok ef
      | None => Raise (ValueError ("feature: " +:+ Feature.name f
                                   +:+ " is not an embedding feature."))
      end
  end.

(** Lines 130-148: the request body, as a function of what it is built
    from.  [find_neighbors] builds it with the requested [k] both as [size]
    and as the [k] of the knn clause. *)
Definition knn_body (col_name : string) (embedding : Val) (size knn_k : Z)
    (clauses : list Val) (source : list string) : Val :=
  VDict [
    ("size", VInt size);
    ("query", VDict [("bool", VDict [("must", VList (
       [VDict [("knn", VDict [(col_name,
                  VDict [("vector", embedding); ("k", VInt knn_k)])])];
        VDict [("exists", VDict [("field", VStr col_name)])]]
       ++ clauses))])]);
    ("_source", VList (VStr <$> source))].

(** [embedding_feature.embedding_index.col_prefix + embedding_feature.name] *)
Definition col_name_of (ef : EmbeddingFeature.t) : string :=
  EmbeddingIndex.col_prefix (EmbeddingFeature.embedding_index ef)
  +:+ EmbeddingFeature.name ef.

Definition knn_query (self : VectorDbClient) (ef : EmbeddingFeature.t)
    (embedding : Val) (k : Z) (filter : option FilterOrLogic) : result Val :=
  let cp := EmbeddingIndex.col_prefix (EmbeddingFeature.embedding_index ef) in
  let* clauses := get_query_filter_arg filter (Some cp) in
  match _fg_vdb_col_fg_col_map self
          !! FeatureGroup.id (EmbeddingFeature.feature_group ef) with
  | None => Raise (AttributeError "'NoneType' object has no attribute 'keys'")
  | Some m => Ok (knn_body (col_name_of ef) embedding k k clauses (Dict.keys m))
  end.

(** [index_name] when it is truthy, else the fallback. *)
Definition index_name_or (index_name : option string) (fallback : string)
  : string :=
  match index_name with
  | Some n => if String.eqb n "" then fallback else n
  | None => fallback
  end.

(** [1 / item["_score"] - 1] *)
Definition distance (score : float) : result float :=
  if (score =? 0)%float
  then Raise ZeroDivisionError
  else Ok (1 / score - 1)%float.

(** [self._fg_vdb_col_td_col_map[fg_id]] *)
Definition td_col_map (self : VectorDbClient) (fg_id : Z)
  : result (list (string * string)) :=
  match _fg_vdb_col_td_col_map self !! fg_id with
  | Some m => Ok m
  | None => Raise (KeyError (pretty fg_id))
  end.

(** The row that a hit becomes: renamed, then coerced. *)
Definition reconcile (self : VectorDbClient) (schema : list Feature.t)
    (fg_id : Z) (source : list (string * Val)) : result (list (string * Val)) :=
  let* key_map := td_col_map self fg_id in
  let* renamed := _rewrite_result_key source key_map in
  _convert_to_pandas_type self schema renamed.

(** Lines 191-200 *)
Fixpoint neighbors (self : VectorDbClient) (schema : list Feature.t)
    (fg_id : Z) (hits : list Hit)
  : result (list (float * list (string * Val))) :=
  match hits with
  | [] => Ok []
  | item :: rest =>
      let* d := distance (_score item) in
      let* row := reconcile self schema fg_id (_source item) in
      let* others := neighbors self schema fg_id rest in
      Ok ((d, row) :: others)
  end.

(** Lines 340-345 *)
Fixpoint rows (self : VectorDbClient) (schema : list Feature.t)
    (fg_id : Z) (hits : list Hit) : result (list (list (string * Val))) :=
  match hits with
  | [] => Ok []
  | item :: rest =>
      let* row := reconcile self schema fg_id (_source item) in
      let* others := rows self schema fg_id rest in
      Ok (row :: others)
  end.

(** What a method that talks to the index leaves behind: its result, the
    client, and the calls made so far. *)
Record Outcome (A : Type) := {
  outcome : result A;
  client : VectorDbClient;
  calls : list Call
}.
Arguments outcome {A} _.
Arguments client {A} _.
Arguments calls {A} _.

Section Index.
Variable opensearch : list Call -> Call -> result (list Hit).

(** [self._opensearch_client.search(body=..., index=..., options=...)] *)
Definition search (log : list Call) (c : Call)
  : result (list Hit) * list Call :=
  (opensearch log c, log ++ [c]).

(** Lines 164-182: the probe for the largest k the index accepts.  It
    answers the request body as the probe leaves it. *)
Definition probe_limit (self : VectorDbClient) (log : list Call)
    (col_name : string) (q : Val) (index_name : string) (opts : Val)
  : Outcome Val :=
  match set_knn_k col_name (2 ^ 31 - 1) q with
  | Raise e => {| outcome := Raise e; client := self; calls := log |}
  | Ok q' =>
      let '(r, log') :=
        search log {| body := q'; index := index_name; options := opts |} in
      match r with
      | Ok _ => {| outcome := Ok q'; client := self; calls := log' |}
      | Raise (VectorDatabaseException reason info) =>
          let limit := default 0%Z (Dict.get REQUESTED_K_TOO_LARGE_INFO_K info) in
          if String.eqb reason REQUESTED_K_TOO_LARGE && negb (limit =? 0)%Z then
            {| outcome := Ok q';
               client := set_index_result_limit_k self
                 (<[index_name := limit]> (_index_result_limit_k self));
               calls := log' |}
          else
            {| outcome := Raise (VectorDatabaseException reason info);
               client := self; calls := log' |}
      | Raise e => {| outcome := Raise e; client := self; calls := log' |}
      end
  end.

(** Line 163: [not self._index_result_limit_k.get(index_name)] *)
Definition limit_unknown (self : VectorDbClient) (index_name : string) : bool :=
  (default 0 (_index_result_limit_k self !! index_name) =? 0)%Z.

Definition discover_limit (self : VectorDbClient) (log : list Call)
    (col_name : string) (q : Val) (index_name : string) (opts : Val)
  : Outcome Val :=
  if limit_unknown self index_name
  then probe_limit self log col_name q index_name opts
  else {| outcome := Ok q; client := self; calls := log |}.

(** Lines 157-188: search again when a project index returned a number of
    hits other than [k]. *)
Definition over_fetch (self : VectorDbClient) (log : list Call)
    (col_name : string) (q : Val) (index_name : string) (opts : Val) (k : Z)
  : Outcome (list Hit) :=
  let probe := discover_limit self log col_name q index_name opts in
  match outcome probe with
  | Raise e =>
      {| outcome := Raise e; client := client probe; calls := calls probe |}
  | Ok q1 =>
      let self1 := client probe in
      let limit := default k (_index_result_limit_k self1 !! index_name) in
      match set_knn_k col_name (Z.min limit (3 * k)) q1 with
      | Raise e =>
          {| outcome := Raise e; client := self1; calls := calls probe |}
      | Ok q2 =>
          let '(r, log') :=
            search (calls probe)
                   {| body := q2; index := index_name; options := opts |} in
          {| outcome := r; client := self1; calls := log' |}
      end
  end.

(** [find_neighbors]; [min_score] is accepted and not used. *)
Definition find_neighbors (self : VectorDbClient) (log : list Call)
    (embedding : Val) (schema : list Feature.t) (feature : option Feature.t)
    (index_name : option string) (k : Z) (filter : option FilterOrLogic)
    (min_score : Val) (opts : Val)
  : Outcome (list (float * list (string * Val))) :=
  let raised e := {| outcome := Raise e; client := self; calls := log |} in
  match resolve_embedding_feature self feature with
  | Raise e => raised e
  | Ok ef =>
  match check_filter_arg filter (EmbeddingFeature.feature_group ef) with
  | Raise e => raised e
  | Ok _ =>
  match knn_query self ef embedding k filter with
  | Raise e => raised e
  | Ok q =>
      let ei := EmbeddingFeature.embedding_index ef in
      let col_name := col_name_of ef in
      let index_name := index_name_or index_name (EmbeddingIndex.index_name ei) in
      let fg_id := FeatureGroup.id (EmbeddingFeature.feature_group ef) in
      let '(r, log1) :=
        search log {| body := q; index := index_name; options := opts |} in
      match r with
      | Raise e => {| outcome := Raise e; client := self; calls := log1 |}
      | Ok results =>
          if negb (String.eqb (EmbeddingIndex.col_prefix ei) "")
             && negb (Z.of_nat (length results) =? k)%Z
          then
            let again := over_fetch self log1 col_name q index_name opts k in
            {| outcome := (let* results := outcome again in
                           neighbors (client again) schema fg_id results);
               client := client again; calls := calls again |}
          else
            {| outcome := neighbors self schema fg_id results;
               client := self; calls := log1 |}
      end
  end end end.

(** [_get_vector_db_index_name] *)
Definition _get_vector_db_index_name (self : VectorDbClient) (fg_id : Z)
  : result string :=
  match _fg_embedding_map self !! fg_id with
  | Some embedding => Ok (EmbeddingIndex.index_name embedding)
  | None => Raise (ValueError "No embedding fg available.")
  end.

(** Lines 316-337: the request body of a point read. *)
Definition read_query (self : VectorDbClient) (fg_id : Z)
    (keys : list (string * Val)) (pk : option string) (n : Z) : result Val :=
  let* q :=
    match keys with
    | _ :: _ =>
        match _fg_col_vdb_col_map self !! fg_id with
        | None => Raise (KeyError (pretty fg_id))
        | Some key_map =>
            let* renamed := _rewrite_result_key keys key_map in
            Ok [("query", VDict [("bool", VDict [("must",
                  VList ((fun kv => VDict [("match", VDict [kv])])
                           <$> renamed))])])]
        end
    | [] =>
        match pk with
        | Some (String _ _ as pk) =>
            Ok [("query", VDict [("bool", VDict [("must",
                   VDict [("exists", VDict [("field", VStr pk)])])])]);
                ("size", VInt n)]
        | _ => Raise (FeatureStoreException "No pk provided.")
        end
    end in
  match _fg_vdb_col_fg_col_map self !! fg_id with
  | None => Raise (AttributeError "'NoneType' object has no attribute 'keys'")
  | Some m => Ok (VDict (Dict.set "_source" (VList (VStr <$> Dict.keys m)) q))
  end.

(** [read] *)
Definition read (self : VectorDbClient) (log : list Call) (fg_id : Z)
    (schema : list Feature.t) (keys : list (string * Val))
    (pk : option string) (index_name : option string) (n : Z)
  : Outcome (list (list (string * Val))) :=
  let raised e := {| outcome := Raise e; client := self; calls := log |} in
  match _fg_vdb_col_fg_col_map self !! fg_id with
  | None => raised (FeatureStoreException "Provided fg does not have embedding.")
  | Some _ =>
  match (match index_name with
         | Some (String _ _ as nm) => Ok nm
         | _ => _get_vector_db_index_name self fg_id
         end) with
  | Raise e => raised e
  | Ok index_name =>
  match read_query self fg_id keys pk n with
  | Raise e => raised e
  | Ok q =>
      let '(r, log1) :=
        search log {| body := q; index := index_name; options := VNone |} in
      {| outcome := (let* results := r in rows self schema fg_id results);
         client := self; calls := log1 |}
  end end end.
End Index.

(** ** Serving keys *)

(** Lines 394-396: the serving key is appended to the group of its join
    index. *)
Definition group_step (m : gmap Z (list ServingKey.t)) (sk : ServingKey.t)
  : gmap Z (list ServingKey.t) :=
  <[ServingKey.join_index sk :=
      default [] (m !! ServingKey.join_index sk) ++ [sk]]> m.

(** The [serving_key_by_serving_index] property: the grouping it answers and
    the client as the access leaves it. *)
Definition serving_key_by_serving_index (self : VectorDbClient)
  : gmap Z (list ServingKey.t) * VectorDbClient :=
  if decide (0 < size (_serving_key_by_serving_index self))%nat then
    (_serving_key_by_serving_index self, self)
  else
    match _serving_keys self with
    | Some sks =>
        let grouped :=
          foldl group_step (_serving_key_by_serving_index self) sks in
        (grouped, set_serving_key_by_serving_index self grouped)
    | None => (∅, set_serving_key_by_serving_index self ∅)
    end.

(** [entry.get(key)] *)
Definition entry_get (key : string) (entry : list (string * Val)) : Val :=
  match Dict.get key entry with
  | Some v => v
  | None => VNone
  end.

(** [entry.get(sk.required_serving_key) or entry.get(sk.feature_name)] *)
Definition serving_key_value (entry : list (string * Val)) (sk : ServingKey.t)
  : Val :=
  or_else (entry_get (ServingKey.required_serving_key sk) entry)
          (entry_get (ServingKey.feature_name sk) entry).

(** [v is None] *)
Definition is_None (v : Val) : bool :=
  match v with
  | VNone => true
  | _ => false
  end.

(** The loop of [filter_entry_by_join_index] over the serving keys that are
    left, with the entry built so far. *)
Fixpoint resolve_serving_keys (entry : list (string * Val))
    (sks : list ServingKey.t) (fg_entry : list (string * Val))
  : bool * list (string * Val) :=
  match sks with
  | [] => (true, fg_entry)
  | sk :: rest =>
      let fg_entry' :=
        Dict.set (ServingKey.feature_name sk) (serving_key_value entry sk)
                 fg_entry in
      if is_None (serving_key_value entry sk) then (false, fg_entry')
      else resolve_serving_keys entry rest fg_entry'
  end.

(** [filter_entry_by_join_index] *)
Definition filter_entry_by_join_index (self : VectorDbClient)
    (entry : list (string * Val)) (join_index : Z)
  : result (bool * list (string * Val)) * VectorDbClient :=
  let '(by_index, self') := serving_key_by_serving_index self in
  match by_index !! join_index with
  | None => (Raise (KeyError (pretty join_index)), self')
  | Some sks => (Ok (resolve_serving_keys entry sks []), self')
  end.


(** ** Vocabulary of the statements *)

(** Every primary-key column of the group names one of its features. *)
Definition primary_key_in_features (fg : FeatureGroup.t) : Prop :=
  forall pk, pk ∈ FeatureGroup.primary_key fg ->
    exists f, f ∈ FeatureGroup.features fg /\ Feature.name f = pk.

(** The join at position [i] of [enumerate(fg_joins)] scans the
    embedding-bearing feature group [fg], whose index is [ei]. *)
Definition embedding_join_at (q : Query) (i : nat) (join : Join)
    (fg : FeatureGroup.t) (ei : EmbeddingIndex.t) : Prop :=
  fg_joins q !! i = Some join
  /\ _left_feature_group (query join) = fg
  /\ FeatureGroup.embedding_index fg = Some ei.

(** The alias that prefixes the final columns of the join at position [i]:
    none for the primary feature group, the join's prefix otherwise. *)
Definition final_prefix (i : nat) (join : Join) : string :=
  match i with
  | O => ""
  | S _ => prefix_or_empty join
  end.

(** No namespace map of the client holds an entry. *)
Definition no_namespace_map_built (self : VectorDbClient) : Prop :=
  _fg_vdb_col_fg_col_map self = ∅
  /\ _fg_col_vdb_col_map self = ∅
  /\ _fg_vdb_col_td_col_map self = ∅
  /\ _fg_id_to_vdb_pks self = ∅.

(** Two positions of [enumerate(fg_joins)] scan embedding-bearing feature
    groups with one and the same id. *)
Definition joins_embedding_fg_twice (q : Query) : Prop :=
  exists i j ji jj fgi fgj eii eij,
    (i < j)%nat
    /\ embedding_join_at q i ji fgi eii
    /\ embedding_join_at q j jj fgj eij
    /\ FeatureGroup.id fgi = FeatureGroup.id fgj.

Definition duplicate_join_error : Exn :=
  FeatureStoreException "Do not support join of same fg multiple times.".

(** [m] is the physical-to-final map that lines 98-102 build for [join]. *)
Definition td_entry_of (join : Join) (m : list (string * string)) : Prop :=
  exists ei,
    FeatureGroup.embedding_index (_left_feature_group (query join)) = Some ei
    /\ m = vdb_col_td_col_map_of ei (prefix_or_empty join)
             (FeatureGroup.features (_left_feature_group (query join))).

(** The join at position [n] of the list scans an embedding-bearing feature
    group, whose index is [ei]. *)
Definition embedding_join_in (js : list Join) (n : nat) (join : Join)
    (ei : EmbeddingIndex.t) : Prop :=
  js !! n = Some join
  /\ FeatureGroup.embedding_index (_left_feature_group (query join)) = Some ei.

(** The join at position [j] of the list scans an embedding-bearing feature
    group that has the id of the embedding-bearing group of an earlier
    join. *)
Definition repeated_in (js : list Join) (j : nat) : Prop :=
  exists n jn jj en ej,
    (n < j)%nat
    /\ embedding_join_in js n jn en
    /\ embedding_join_in js j jj ej
    /\ FeatureGroup.id (_left_feature_group (query jn))
       = FeatureGroup.id (_left_feature_group (query jj)).

(** The physical-to-final table of the client holds the map of every
    embedding-bearing join of the list under the id of its feature group, it
    holds nothing else, and these ids differ from one another. *)
Definition td_maps_are_of (js : list Join) (self : VectorDbClient) : Prop :=
  (forall n join ei,
     embedding_join_in js n join ei ->
     _fg_vdb_col_td_col_map self
       !! FeatureGroup.id (_left_feature_group (query join))
     = Some (vdb_col_td_col_map_of ei (prefix_or_empty join)
               (FeatureGroup.features (_left_feature_group (query join)))))
  /\ (forall id,
        is_Some (_fg_vdb_col_td_col_map self !! id) ->
        exists n join ei,
          embedding_join_in js n join ei
          /\ FeatureGroup.id (_left_feature_group (query join)) = id)
  /\ (forall n1 n2 j1 j2 e1 e2,
        (n1 < n2)%nat ->
        embedding_join_in js n1 j1 e1 -> embedding_join_in js n2 j2 e2 ->
        FeatureGroup.id (_left_feature_group (query j1))
        <> FeatureGroup.id (_left_feature_group (query j2))).

(** Position [j] of [enumerate(fg_joins)] is the first whose join scans an
    embedding-bearing feature group with the id of the embedding-bearing
    group of an earlier join. *)
Definition first_repeated_join (q : Query) (j : nat) : Prop :=
  (exists i ji jj fgi fgj eii eij,
     (i < j)%nat
     /\ embedding_join_at q i ji fgi eii
     /\ embedding_join_at q j jj fgj eij
     /\ FeatureGroup.id fgi = FeatureGroup.id fgj)
  /\ (forall n1 n2 j1 j2 fg1 fg2 e1 e2,
        (n1 < n2)%nat -> (n2 < j)%nat ->
        embedding_join_at q n1 j1 fg1 e1 -> embedding_join_at q n2 j2 fg2 e2 ->
        FeatureGroup.id fg1 <> FeatureGroup.id fg2).

(** ** Sample data *)

Module Sample.
Definition f_id : Feature.t :=
  {| Feature.name := "id"; Feature.type := "bigint";
     Feature.feature_group_id := 7; Feature.complex := false |}.
Definition f_age : Feature.t :=
  {| Feature.name := "age"; Feature.type := "bigint";
     Feature.feature_group_id := 7; Feature.complex := false |}.
Definition f_emb : Feature.t :=
  {| Feature.name := "emb"; Feature.type := "array<float>";
     Feature.feature_group_id := 7; Feature.complex := true |}.

(** A project index: its columns carry the prefix [p7_]. *)
Definition ei : EmbeddingIndex.t :=
  {| EmbeddingIndex.index_name := "project_index";
     EmbeddingIndex.col_prefix := "p7_";
     EmbeddingIndex.embeddings := ["emb"] |}.

Definition fg : FeatureGroup.t :=
  {| FeatureGroup.id := 7; FeatureGroup.name := "users";
     FeatureGroup.version := 1;
     FeatureGroup.features := [f_id; f_age; f_emb];
     FeatureGroup.primary_key := ["id"];
     FeatureGroup.embedding_index := Some ei |}.

Definition g_id : Feature.t :=
  {| Feature.name := "sku"; Feature.type := "string";
     Feature.feature_group_id := 8; Feature.complex := false |}.
Definition g_vec : Feature.t :=
  {| Feature.name := "vec"; Feature.type := "array<float>";
     Feature.feature_group_id := 8; Feature.complex := true |}.

Definition ei2 : EmbeddingIndex.t :=
  {| EmbeddingIndex.index_name := "project_index";
     EmbeddingIndex.col_prefix := "p8_";
     EmbeddingIndex.embeddings := ["vec"] |}.

Definition fg2 : FeatureGroup.t :=
  {| FeatureGroup.id := 8; FeatureGroup.name := "items";
     FeatureGroup.version := 1;
     FeatureGroup.features := [g_id; g_vec];
     FeatureGroup.primary_key := ["sku"];
     FeatureGroup.embedding_index := Some ei2 |}.

(** [fg2] joined under the alias [item_]; neither sub-query selects the
    primary key of its feature group. *)
Definition join2 : Join := Build_Join (Build_Query fg2 [g_vec] []) (Some "item_").
Definition q : Query := Build_Query fg [f_age; f_emb] [join2].

(** [fg] alone. *)
Definition q1 : Query := Build_Query fg [f_age; f_emb] [].

(** [fg] joined with itself. *)
Definition self_join : Join := Build_Join (Build_Query fg [f_age] []) (Some "r_").
Definition q_dup : Query := Build_Query fg [f_age; f_emb] [self_join].
End Sample.

(** The sample feature group with a primary key that names none of its
    features, joined with itself. *)
Module SampleBadKey.
Definition fg : FeatureGroup.t :=
  {| FeatureGroup.id := 7; FeatureGroup.name := "users";
     FeatureGroup.version := 1;
     FeatureGroup.features := [Sample.f_id; Sample.f_age; Sample.f_emb];
     FeatureGroup.primary_key := ["uid"];
     FeatureGroup.embedding_index := Some Sample.ei |}.

Definition self_join : Join := Build_Join (Build_Query fg [Sample.f_age] []) (Some "r_").
Definition q_dup : Query := Build_Query fg [Sample.f_age; Sample.f_emb] [self_join].
End SampleBadKey.

(** The message of the error that [_rewrite_result_key] raises for [key]. *)
Definition feature_not_found (key : string) : Exn :=
  FeatureStoreException
    ("Feature '" +:+ key
     +:+ "' from embedding feature group is not found in the query").

(** [renamed] is [row] with every key replaced by the final column that
    [key_map] gives it: same length, same order, same values. *)
Definition renamed_by (key_map : list (string * string))
    (row renamed : list (string * Val)) : Prop :=
  Forall2 (fun kv kv' => Dict.get kv.1 key_map = Some kv'.1 /\ kv'.2 = kv.2)
          row renamed.

(** [row] is [source] renamed by [key_map] and then coerced for [schema]. *)
Definition renamed_and_coerced (self : VectorDbClient) (schema : list Feature.t)
    (key_map : list (string * string)) (source row : list (string * Val))
  : Prop :=
  exists renamed,
    renamed_by key_map source renamed
    /\ _convert_to_pandas_type self schema renamed = Ok row.

(** What the caller of [find_neighbors] is given for a hit: the distance
    [1 / score - 1] of a score other than 0, and the row of the hit renamed by
    the physical-to-final map that the client holds for the feature group and
    then coerced for [schema]. *)
Definition neighbor_of (self : VectorDbClient) (schema : list Feature.t)
    (fg_id : Z) (hit : Hit) (o : float * list (string * Val)) : Prop :=
  (_score hit =? 0)%float = false
  /\ o.1 = (1 / _score hit - 1)%float
  /\ exists key_map renamed,
       _fg_vdb_col_td_col_map self !! fg_id = Some key_map
       /\ _rewrite_result_key (_source hit) key_map = Ok renamed
       /\ _convert_to_pandas_type self schema renamed = Ok o.2.

(** Every row that the index answers is a dictionary: no key comes twice. *)
Definition rows_are_dicts (opensearch : list Call -> Call -> result (list Hit))
  : Prop :=
  forall log c hits,
    opensearch log c = Ok hits ->
    Forall (fun hit => NoDup (Dict.keys (_source hit))) hits.

Module SampleFilter.
(** [age >= 18] on the sample feature group. *)
Definition adult : Filter.t :=
  {| Filter.feature := Sample.f_age; Filter.condition := Filter.GE;
     Filter.value := VInt 18 |}.

Definition range_on (column : string) : Val :=
  VDict [("range", VDict [(column, VDict [("gte", VInt 18)])])].
End SampleFilter.

Module SampleSchema.
Definition day : Feature.t :=
  {| Feature.name := "day"; Feature.type := "date";
     Feature.feature_group_id := 7; Feature.complex := false |}.
Definition seen : Feature.t :=
  {| Feature.name := "seen"; Feature.type := "timestamp";
     Feature.feature_group_id := 7; Feature.complex := false |}.
Definition blob : Feature.t :=
  {| Feature.name := "blob"; Feature.type := "binary";
     Feature.feature_group_id := 7; Feature.complex := false |}.
Definition tags : Feature.t :=
  {| Feature.name := "tags"; Feature.type := "array<string>";
     Feature.feature_group_id := 7; Feature.complex := true |}.
End SampleSchema.

(** The entry that the loop of [filter_entry_by_join_index] has built once it
    is through the serving keys [sks]. *)
Definition resolved_entry (entry : list (string * Val))
    (sks : list ServingKey.t) : list (string * Val) :=
  foldl (fun acc sk =>
           Dict.set (ServingKey.feature_name sk) (serving_key_value entry sk) acc)
        [] sks.

(** The serving keys of [sks] for join index [j], in their order, or [None]
    when there is none. *)
Definition serving_keys_of (sks : list ServingKey.t) (j : Z)
  : option (list ServingKey.t) :=
  match filter (fun sk => ServingKey.join_index sk = j) sks with
  | [] => None
  | l => Some l
  end.

Module SampleKeys.
Definition user : ServingKey.t :=
  {| ServingKey.feature_name := "uid";
     ServingKey.required_serving_key := "user_id";
     ServingKey.join_index := 0 |}.
Definition region : ServingKey.t :=
  {| ServingKey.feature_name := "region";
     ServingKey.required_serving_key := "region_code";
     ServingKey.join_index := 0 |}.
Definition item : ServingKey.t :=
  {| ServingKey.feature_name := "sku";
     ServingKey.required_serving_key := "item_sku";
     ServingKey.join_index := 1 |}.
Definition shop : ServingKey.t :=
  {| ServingKey.feature_name := "shop";
     ServingKey.required_serving_key := "shop_id";
     ServingKey.join_index := 0 |}.
End SampleKeys.

(** The search call that [find_neighbors] makes for the embedding feature
    [ef]: [k] is the requested number of neighbours, which is the [size] of
    the request, and [knn_k] the [k] of its knn clause. *)
Definition knn_call (ef : EmbeddingFeature.t) (embedding : Val)
    (index_name : option string) (opts : Val) (clauses : list Val)
    (source : list string) (k knn_k : Z) : Call :=
  {| body := knn_body (col_name_of ef) embedding k knn_k clauses source;
     index := index_name_or index_name
                (EmbeddingIndex.index_name (EmbeddingFeature.embedding_index ef));
     options := opts |}.

(** [[size]] of a request body. *)
Definition size_of (c : Call) : option Val :=
  match body c with
  | VDict d => Dict.get "size" d
  | _ => None
  end.

(** An error of the index that is not "requested k too large" with a usable
    maximum in its payload. *)
Definition unrecognised (e : Exn) : Prop :=
  forall info limit,
    e = VectorDatabaseException REQUESTED_K_TOO_LARGE info ->
    Dict.get REQUESTED_K_TOO_LARGE_INFO_K info = Some limit ->
    limit = 0%Z.

Module SampleIndex.
(** The embedding feature of the sample feature group. *)
Definition ef : EmbeddingFeature.t :=
  {| EmbeddingFeature.name := "emb";
     EmbeddingFeature.feature_group := Sample.fg;
     EmbeddingFeature.embedding_index := Sample.ei |}.

(** The columns that the client asks the index for. *)
Definition source : list (string * Feature.t) :=
  [("p7_age", Sample.f_age); ("p7_emb", Sample.f_emb); ("p7_id", Sample.f_id)].

Definition vector : Val := VList [VInt 1; VInt 2].

Definition hit (n : Z) : Hit :=
  {| _score := 0.5%float;
     _source := [("p7_id", VInt n); ("p7_age", VInt 30)] |}.

Definition four_hits : list Hit := hit <$> [1; 2; 3; 4]%Z.
Definition ten_hits : list Hit := hit <$> [1; 2; 3; 4; 5; 6; 7; 8; 9; 10]%Z.

(** An index that answers by the number of calls it has seen: four hits to
    a first search, "requested k too large" with maximum 50 to the probe,
    ten hits to the search that follows; then four hits and ten hits to the
    two searches of a second call. *)
Definition server (log : list Call) (c : Call) : result (list Hit) :=
  match length log with
  | 0%nat => Ok four_hits
  | 1%nat => Raise (VectorDatabaseException REQUESTED_K_TOO_LARGE
                      [(REQUESTED_K_TOO_LARGE_INFO_K, 50%Z)])
  | 2%nat => Ok ten_hits
  | 3%nat => Ok four_hits
  | 4%nat => Ok ten_hits
  | _ => Raise (TransportError "connection closed")
  end.

(** The request for ten neighbours with [knn_k] in its knn clause. *)
Definition request (knn_k : Z) : Call :=
  knn_call ef vector None VNone [] (Dict.keys source) 10 knn_k.
End SampleIndex.


(** ** Vocabulary of the further statements *)

(** The pair of column maps that lines 66-76 build for one sub-query, seen
    from the column prefix [cp]: a local column is sent to the prefix followed
    by the column, a physical column is held with the feature it is the
    prefixed name of, and the two maps cover the same columns. *)
Definition col_maps_agree (cp : string)
    (m : list (string * Feature.t) * list (string * string)) : Prop :=
  (forall n c, Dict.get n m.2 = Some c -> c = cp +:+ n)
  /\ (forall key f, Dict.get key m.1 = Some f -> key = cp +:+ Feature.name f)
  /\ (forall n, is_Some (Dict.get n m.2) <-> is_Some (Dict.get (cp +:+ n) m.1))
  /\ NoDup (Dict.keys m.1)
  /\ NoDup (Dict.keys m.2).

(** The embedding-bearing joins of the query scan feature groups with
    different ids. *)
Definition embedding_ids_distinct (q : Query) : Prop :=
  forall i j ji jj,
    fg_joins q !! i = Some ji -> fg_joins q !! j = Some jj ->
    is_Some (FeatureGroup.embedding_index (_left_feature_group (query ji))) ->
    is_Some (FeatureGroup.embedding_index (_left_feature_group (query jj))) ->
    FeatureGroup.id (_left_feature_group (query ji))
    = FeatureGroup.id (_left_feature_group (query jj)) ->
    i = j.

(** The primary-key columns of every embedding-bearing feature group of the
    query name features of the group. *)
Definition primary_keys_in_features (q : Query) : Prop :=
  forall join, join ∈ fg_joins q ->
    is_Some (FeatureGroup.embedding_index (_left_feature_group (query join))) ->
    primary_key_in_features (_left_feature_group (query join)).

(** The features that the sub-query selects are features of its feature
    group, by name. *)
Definition selects_own_features (q : Query) : Prop :=
  forall f, f ∈ _left_features q ->
    exists g, g ∈ FeatureGroup.features (_left_feature_group q)
              /\ Feature.name g = Feature.name f.

(** The leaves of a filter tree, left to right. *)
Fixpoint leaves (t : FilterOrLogic) : list Filter.t :=
  match t with
  | AFilter f => [f]
  | ALogic _ l r =>
      match l with
      | Some x => leaves x
      | None => []
      end
      ++ match r with
         | Some x => leaves x
         | None => []
         end
  end.

(** The types of the composites of a filter tree. *)
Fixpoint logic_types (t : FilterOrLogic) : list Logic.LogicType :=
  match t with
  | AFilter _ => []
  | ALogic ty l r =>
      ty :: match l with
            | Some x => logic_types x
            | None => []
            end
         ++ match r with
            | Some x => logic_types x
            | None => []
            end
  end.

(** The tree with the name of every leaf's feature behind the prefix [p]. *)
Fixpoint with_prefix (p : string) (t : FilterOrLogic) : FilterOrLogic :=
  match t with
  | AFilter f =>
      AFilter {| Filter.feature :=
                   {| Feature.name := p +:+ Feature.name (Filter.feature f);
                      Feature.type := Feature.type (Filter.feature f);
                      Feature.feature_group_id :=
                        Feature.feature_group_id (Filter.feature f);
                      Feature.complex := Feature.complex (Filter.feature f) |};
                 Filter.condition := Filter.condition f;
                 Filter.value := Filter.value f |}
  | ALogic ty l r =>
      ALogic ty
        match l with
        | Some x => Some (with_prefix p x)
        | None => None
        end
        match r with
        | Some x => Some (with_prefix p x)
        | None => None
        end
  end.

(** A leaf that [_convert_filter] can translate: a known condition, and text
    as the value of [LK]. *)
Definition translatable (f : Filter.t) : Prop :=
  match Filter.condition f with
  | Filter.Unknown _ => False
  | Filter.LK => exists s, Filter.value f = VStr s
  | _ => True
  end.

(** The error of [_check_filter] for the feature group [fg]. *)
Definition foreign_filter_error (fg : FeatureGroup.t) : Exn :=
  FeatureStoreException
    ("filter feature should be from feature group '"
     +:+ FeatureGroup.name fg +:+ "' version '"
     +:+ pretty (FeatureGroup.version fg) +:+ "'").

Module SampleTree.
(** [sku = "s1"], a filter on the other sample feature group. *)
Definition foreign : Filter.t :=
  {| Filter.feature := Sample.g_id; Filter.condition := Filter.EQ;
     Filter.value := VStr "s1" |}.

(** [age >= 18 AND (age >= 18 OR nothing)] *)
Definition own : FilterOrLogic :=
  ALogic Logic.AND (Some (AFilter SampleFilter.adult))
    (Some (ALogic Logic.OR (Some (AFilter SampleFilter.adult)) None)).

(** [age >= 18 AND sku = "s1"] *)
Definition mixed : FilterOrLogic :=
  ALogic Logic.AND (Some (AFilter SampleFilter.adult)) (Some (AFilter foreign)).
End SampleTree.

(** The embedding feature [ef] is bound under [key] for the feature group
    [fg]: it is one of the embedding features of the group's index, and [key]
    is the key of a feature of the group with its name. *)
Definition bound_embedding (fg : FeatureGroup.t) (key : Z * string)
    (ef : EmbeddingFeature.t) : Prop :=
  exists ei f,
    FeatureGroup.embedding_index fg = Some ei
    /\ ef ∈ get_embeddings fg ei
    /\ f ∈ FeatureGroup.features fg
    /\ Feature.name f = EmbeddingFeature.name ef
    /\ Feature.feature_group_id f = FeatureGroup.id fg
    /\ key = Feature.key f.

(** The request of a point read by key values: one [match] clause per key,
    on the given columns, and the projection [source]. *)
Definition match_body (columns : list (string * Val)) (source : list string)
  : Val :=
  VDict [("query", VDict [("bool", VDict [("must",
            VList ((fun kv => VDict [("match", VDict [kv])]) <$> columns))])]);
         ("_source", VList (VStr <$> source))].

(** The request of a point read without key values: the rows that have the
    column [pk], at most [n] of them. *)
Definition exists_body (pk : string) (n : Z) (source : list string) : Val :=
  VDict [("query", VDict [("bool", VDict [("must",
            VDict [("exists", VDict [("field", VStr pk)])])])]);
         ("size", VInt n);
         ("_source", VList (VStr <$> source))].

(** ** Counting *)

Section Count.
(** [self._opensearch_client.count(index_name, query, options=options)] *)
Variable count_api : string -> Val -> Val -> result Z.

(** The query of [count]: the rows that have the column [pk]. *)
Definition count_query (pk : string) : Val :=
  VDict [("query", VDict [("bool", VDict [("must",
            VDict [("exists", VDict [("field", VStr pk)])])])])].

(** [count]: the query is built from the first physical primary-key column of
    the feature group, then the index name is looked up. *)
Definition count (self : VectorDbClient) (fg : FeatureGroup.t) (opts : Val)
  : result Z :=
  match _fg_id_to_vdb_pks self !! FeatureGroup.id fg with
  | None => Raise (KeyError (pretty (FeatureGroup.id fg)))
  | Some [] => Raise IndexError
  | Some (pk :: _) =>
      let* index_name := _get_vector_db_index_name self (FeatureGroup.id fg) in
      count_api index_name (count_query pk) opts
  end.
End Count.

(** The client [self'] is [self], but for a ceiling that it has cached for an
    index name for which [self] had none. *)
Definition at_most_one_ceiling_more (self self' : VectorDbClient) : Prop :=
  self' = self
  \/ exists index_name limit,
       limit <> 0%Z
       /\ limit_unknown self index_name = true
       /\ self' = set_index_result_limit_k self
                    (<[index_name := limit]> (_index_result_limit_k self)).

(** The calls [log'] are the calls [log] followed by at most [n] requests,
    all of them sent to one index with the options [opts]. *)
Definition at_most_more_calls (n : nat) (opts : Val) (log log' : list Call)
  : Prop :=
  exists index_name more,
    log' = log ++ more
    /\ (length more <= n)%nat
    /\ Forall (fun c => index c = index_name /\ options c = opts) more.

(** ** The feature view engine ([feature_view_engine.py])

    [get_attached_transformation_fn] is the one method of the engine that
    computes on what a collaborator answers; the others pass their arguments
    on to the REST clients and to the execution engine. *)

(** What [get_attached_transformation_fn] reads of an attached
    transformation function ([hsfs/transformation_function_attached.py]). *)
Module TransformationFunctionAttached.
Record t {F : Type} := {
  name : string;
  transformation_function : F
}.
Arguments t : clear implicits.
End TransformationFunctionAttached.

(** What the REST client answers: a list of attachments, or one attachment
    ([isinstance(transformation_functions, list)], line 110). *)
Inductive Attached (F : Type) :=
| AttachedList (tfs : list (TransformationFunctionAttached.t F))
| AttachedOne (tf : TransformationFunctionAttached.t F).
Arguments AttachedList {F} _.
Arguments AttachedOne {F} _.

(** Lines 110-119: [dict([(tf.name, tf.transformation_function) ...])], or the
    dictionary of the one attachment. *)
Definition transformation_functions_dict {F : Type} (answer : Attached F)
  : list (string * F) :=
  match answer with
  | AttachedList tfs =>
      foldl (fun d tf =>
               Dict.set (TransformationFunctionAttached.name tf)
                        (TransformationFunctionAttached.transformation_function tf)
                        d)
            [] tfs
  | AttachedOne tf =>
      [(TransformationFunctionAttached.name tf,
        TransformationFunctionAttached.transformation_function tf)]
  end.

Section FeatureViewEngine.
Context {F : Type}.
(** [self._feature_view_api.get_attached_transformation_fn(name, version)] *)
Variable feature_view_api_get_attached_transformation_fn :
  string -> Z -> result (Attached F).

(** [get_attached_transformation_fn] *)
Definition get_attached_transformation_fn (name : string) (version : Z)
  : result (list (string * F)) :=
  let* transformation_functions :=
    feature_view_api_get_attached_transformation_fn name version in
  Ok (transformation_functions_dict transformation_functions).
End FeatureViewEngine.

(** Two attachments to [age] around one to [city]. *)
Module SampleAttached.
Definition attachments : list (TransformationFunctionAttached.t Z) :=
  [ {| TransformationFunctionAttached.name := "age";
       TransformationFunctionAttached.transformation_function := 1%Z |};
    {| TransformationFunctionAttached.name := "city";
       TransformationFunctionAttached.transformation_function := 2%Z |};
    {| TransformationFunctionAttached.name := "age";
       TransformationFunctionAttached.transformation_function := 3%Z |} ].

Definition api (name : string) (version : Z) : result (Attached Z) :=
  Ok (AttachedList attachments).
End SampleAttached.

Module DictFacts.
Section DictFacts.
Context {K V : Type} `{EqDecision K}.
Import Dict.
Implicit Types (k : K) (v : V) (d : list (K * V)).

Lemma get_set_eq k v d : get k (set k v d) = Some v.
Proof.
  induction d as [|[k' v'] d IH]; simpl.
  - by rewrite decide_True.
  - destruct (decide (k = k')) as [->|Hne]; simpl.
    + by rewrite decide_True.
    + by rewrite decide_False.
Qed.

Lemma get_set_ne k k' v d : k ≠ k' -> get k' (set k v d) = get k' d.
Proof.
  intros Hne. induction d as [|[k0 v0] d IH]; simpl.
  - by rewrite decide_False.
  - destruct (decide (k = k0)) as [->|Hk]; simpl.
    + by rewrite !decide_False.
    + destruct (decide (k' = k0)); [done | apply IH].
Qed.

Lemma get_set k k' v d :
  get k' (set k v d) = if decide (k = k') then Some v else get k' d.
Proof.
  destruct (decide (k = k')) as [->|Hne];
    [apply get_set_eq | by apply get_set_ne].
Qed.

Lemma keys_set k v d :
  keys (set k v d) = if mem k d then keys d else keys d ++ [k].
Proof.
  unfold mem, keys. induction d as [|[k' v'] d IH]; [done|].
  cbn [set get]. destruct (decide (k = k')) as [->|Hne]; [done|].
  rewrite !fmap_cons, IH. by destruct (get k d).
Qed.

Lemma elem_of_keys k d : k ∈ keys d <-> is_Some (get k d).
Proof.
  unfold keys. induction d as [|[k' v'] d IH].
  - split; [by intros ?%elem_of_nil | by intros [? ?]].
  - rewrite fmap_cons, elem_of_cons, IH. cbn [get fst].
    destruct (decide (k = k')) as [->|Hne].
    + split; [by eauto | by left].
    + split; [by intros [?|?] | by right].
Qed.

Lemma NoDup_keys_set k v d : NoDup (keys d) -> NoDup (keys (set k v d)).
Proof.
  intros Hnd. rewrite keys_set. unfold mem.
  destruct (get k d) eqn:Hg; [done|].
  apply NoDup_app. split; [done|]. split; [|apply NoDup_singleton].
  intros x Hx Hk. apply list_elem_of_singleton in Hk. subst x.
  apply elem_of_keys in Hx. rewrite Hg in Hx. by destruct Hx.
Qed.

Lemma get_Some_elem k v d : get k d = Some v -> (k, v) ∈ d.
Proof.
  induction d as [|[k' v'] d IH]; simpl; [done|].
  destruct (decide (k = k')) as [->|Hne].
  - intros [= ->]. apply list_elem_of_here.
  - intros H. apply list_elem_of_further, IH, H.
Qed.

Lemma elem_get_NoDup k v d : NoDup (keys d) -> (k, v) ∈ d -> get k d = Some v.
Proof.
  unfold keys. induction d as [|[k' v'] d IH].
  - by intros _ ?%elem_of_nil.
  - rewrite fmap_cons. cbn [get fst].
    intros [Hnotin Hnd]%NoDup_cons [Heq|Hin]%elem_of_cons.
    + injection Heq as -> ->. by rewrite decide_True.
    + destruct (decide (k = k')) as [->|Hne]; [|by apply IH].
      exfalso. apply Hnotin.
      apply list_elem_of_fmap. by exists (k', v).
Qed.
End DictFacts.
End DictFacts.


(** * Properties *)

(** ** Strings *)

Lemma append_inj_r (p a b : string) : p +:+ a = p +:+ b -> a = b.
Proof.
  induction p as [|c p IH]; simpl; [done|].
  intros [= H]. by apply IH.
Qed.

Lemma find_app_first {A} (p : A -> bool) (l1 l2 : list A) :
  List.find p (l1 ++ l2) =
  match List.find p l1 with
  | Some x => Some x
  | None => List.find p l2
  end.
Proof.
  induction l1 as [|x l1 IH]; simpl; [done|].
  by destruct (p x).
Qed.

(** ** The physical-to-final map of a feature group *)

Section TdMap.
Variables (ei : EmbeddingIndex.t) (alias : string).

Let cp := EmbeddingIndex.col_prefix ei.

Lemma td_map_snoc fs f :
  vdb_col_td_col_map_of ei alias (fs ++ [f]) =
  Dict.set (cp +:+ Feature.name f) (alias +:+ Feature.name f)
           (vdb_col_td_col_map_of ei alias fs).
Proof. unfold vdb_col_td_col_map_of. by rewrite foldl_snoc. Qed.

Lemma td_map_NoDup fs : NoDup (Dict.keys (vdb_col_td_col_map_of ei alias fs)).
Proof.
  induction fs as [|f fs IH] using rev_ind.
  - apply NoDup_nil_2.
  - rewrite td_map_snoc. by apply DictFacts.NoDup_keys_set.
Qed.

Lemma td_map_get fs key :
  Dict.get key (vdb_col_td_col_map_of ei alias fs) =
  match List.find (fun f => String.eqb (cp +:+ Feature.name f) key) fs with
  | Some f => Some (alias +:+ Feature.name f)
  | None => None
  end.
Proof.
  induction fs as [|f fs IH] using rev_ind; [done|].
  rewrite td_map_snoc, DictFacts.get_set, IH, find_app_first. simpl.
  destruct (decide (cp +:+ Feature.name f = key)) as [<-|Hne].
  - rewrite String.eqb_refl.
    destruct (find _ fs) as [g|] eqn:Hg; [|done].
    apply find_some in Hg as [_ Hg]. apply String.eqb_eq in Hg.
    by apply append_inj_r in Hg as ->.
  - apply String.eqb_neq in Hne. rewrite Hne. by destruct (find _ fs).
Qed.

Lemma td_map_get_feature fs f :
  f ∈ fs ->
  Dict.get (cp +:+ Feature.name f) (vdb_col_td_col_map_of ei alias fs)
  = Some (alias +:+ Feature.name f).
Proof.
  intros Hin. rewrite td_map_get.
  destruct (find _ fs) as [g|] eqn:Hg.
  - apply find_some in Hg as [_ Hg]. apply String.eqb_eq in Hg.
    by apply append_inj_r in Hg as ->.
  - apply list_elem_of_In in Hin.
    eapply find_none in Hg; [|exact Hin]. simpl in Hg.
    by rewrite String.eqb_refl in Hg.
Qed.

Lemma td_map_keys fs key :
  key ∈ Dict.keys (vdb_col_td_col_map_of ei alias fs)
  <-> exists f, f ∈ fs /\ key = cp +:+ Feature.name f.
Proof.
  rewrite DictFacts.elem_of_keys, td_map_get. split.
  - destruct (find _ fs) as [g|] eqn:Hg; [|by intros [? ?]].
    intros _. apply find_some in Hg as [Hin Hg]. apply String.eqb_eq in Hg.
    exists g. split; [by apply list_elem_of_In | done].
  - intros (f & Hin & ->).
    destruct (find _ fs) as [g|] eqn:Hg; [by eauto|].
    apply list_elem_of_In in Hin.
    eapply find_none in Hg; [|exact Hin]. simpl in Hg.
    by rewrite String.eqb_refl in Hg.
Qed.

(** Distinct physical columns have distinct final columns. *)
Lemma td_map_inj fs k1 k2 final :
  Dict.get k1 (vdb_col_td_col_map_of ei alias fs) = Some final ->
  Dict.get k2 (vdb_col_td_col_map_of ei alias fs) = Some final ->
  k1 = k2.
Proof.
  rewrite !td_map_get.
  destruct (find _ fs) as [g1|] eqn:Hg1; [|done].
  destruct (find (fun f => String.eqb (cp +:+ Feature.name f) k2) fs)
    as [g2|] eqn:Hg2; [|done].
  apply find_some in Hg1 as [_ Hg1]. apply String.eqb_eq in Hg1.
  apply find_some in Hg2 as [_ Hg2]. apply String.eqb_eq in Hg2.
  intros [= <-] [= Heq]. apply append_inj_r in Heq. congruence.
Qed.
End TdMap.

(** ** [init] *)

Lemma getitem_Ok fg pk f :
  FeatureGroup.getitem fg pk = Ok f ->
  f ∈ FeatureGroup.features fg /\ Feature.name f = pk.
Proof.
  unfold FeatureGroup.getitem.
  destruct (find _ _) as [g|] eqn:Hg; [|done].
  intros [= ->]. apply find_some in Hg as [Hin Hg].
  split; [by apply list_elem_of_In | by apply String.eqb_eq].
Qed.

Lemma getitem_feature fg f :
  f ∈ FeatureGroup.features fg ->
  exists g, FeatureGroup.getitem fg (Feature.name f) = Ok g.
Proof.
  intros Hin. unfold FeatureGroup.getitem.
  destruct (find _ _) as [g|] eqn:Hg; [by eauto|].
  apply list_elem_of_In in Hin.
  eapply find_none in Hg; [|exact Hin]. simpl in Hg.
  by rewrite String.eqb_refl in Hg.
Qed.

Lemma add_primary_key_cols_Ok fg cp pks m m' :
  add_primary_key_cols fg cp pks m = Ok m' ->
  forall pk, pk ∈ pks -> exists f, FeatureGroup.getitem fg pk = Ok f.
Proof.
  revert m. induction pks as [|pk0 pks IH]; intros m Hok pk Hin.
  - by apply elem_of_nil in Hin.
  - simpl in Hok.
    destruct (FeatureGroup.getitem fg pk0) as [f|e] eqn:Hg; [|done].
    simpl in Hok. apply elem_of_cons in Hin as [->|Hin]; [by eauto|].
    by eapply IH.
Qed.

Lemma add_primary_key_cols_total fg cp pks m :
  (forall pk, pk ∈ pks -> exists f, FeatureGroup.getitem fg pk = Ok f) ->
  exists m', add_primary_key_cols fg cp pks m = Ok m'
    /\ (forall k, is_Some (Dict.get k m.2) -> is_Some (Dict.get k m'.2))
    /\ (forall pk, pk ∈ pks -> is_Some (Dict.get pk m'.2)).
Proof.
  revert m. induction pks as [|pk0 pks IH]; intros m Hall.
  - exists m. split_and!; [done | done |].
    intros pk Hin. by apply elem_of_nil in Hin.
  - destruct (Hall pk0) as [f Hf]; [apply list_elem_of_here|].
    simpl. rewrite Hf. simpl.
    destruct (IH (Dict.set (cp +:+ pk0) f m.1, Dict.set pk0 (cp +:+ pk0) m.2))
      as (m' & Hm' & Hmono & Hpks).
    { intros pk Hin. apply Hall. by apply list_elem_of_further. }
    exists m'. split_and!; [done | |].
    + intros k Hk. apply Hmono. simpl. rewrite DictFacts.get_set.
      by destruct (decide (pk0 = k)).
    + intros pk [->|Hin]%elem_of_cons; [|by apply Hpks].
      apply Hmono. simpl. rewrite DictFacts.get_set_eq. by eauto.
Qed.

Lemma vdb_pks_total m pks :
  (forall pk, pk ∈ pks -> is_Some (Dict.get pk m)) ->
  exists cs, vdb_pks m pks = Ok cs.
Proof.
  induction pks as [|pk pks IH]; intros Hall; [by eexists|].
  destruct (Hall pk) as [c Hc]; [apply list_elem_of_here|].
  destruct IH as [cs Hcs].
  { intros pk' Hin. apply Hall. by apply list_elem_of_further. }
  simpl. rewrite Hc, Hcs. by eexists.
Qed.

(** What the first pass leaves alone. *)
Lemma init_fg_maps_frame qs self c self' :
  init_fg_maps qs self = (c, self') ->
  _query self' = _query self
  /\ _fg_vdb_col_td_col_map self' = _fg_vdb_col_td_col_map self
  /\ _embedding_features self' = _embedding_features self
  /\ _index_result_limit_k self' = _index_result_limit_k self
  /\ _serving_keys self' = _serving_keys self
  /\ _serving_key_by_serving_index self' = _serving_key_by_serving_index self.
Proof.
  revert self. induction qs as [|q qs IH]; intros self H; simpl in H.
  - by injection H as <- <-.
  - destruct (FeatureGroup.embedding_index _) as [ei|]; [|by apply IH].
    destruct (add_primary_key_cols _ _ _ _) as [[a b]|e];
      [|by injection H as <- <-].
    destruct (vdb_pks _ _) as [pks|e]; [|by injection H as <- <-].
    by apply IH in H.
Qed.

(** A first pass that completes has found every primary-key column among the
    features of its group. *)
Lemma init_fg_maps_Normal qs self self' :
  init_fg_maps qs self = (Normal, self') ->
  forall q, q ∈ qs ->
    is_Some (FeatureGroup.embedding_index (_left_feature_group q)) ->
    primary_key_in_features (_left_feature_group q).
Proof.
  revert self. induction qs as [|q0 qs IH]; intros self H q Hin [ei Hei].
  - by apply elem_of_nil in Hin.
  - simpl in H. apply elem_of_cons in Hin as [->|Hin].
    + rewrite Hei in H.
      destruct (add_primary_key_cols _ _ _ _) as [[a b]|e] eqn:Hadd; [|done].
      intros pk Hpk.
      destruct (add_primary_key_cols_Ok _ _ _ _ _ Hadd pk Hpk) as [f Hf].
      exists f. by apply getitem_Ok.
    + destruct (FeatureGroup.embedding_index (_left_feature_group q0));
        [|by eapply IH].
      destruct (add_primary_key_cols _ _ _ _) as [[a b]|e]; [|done].
      destruct (vdb_pks _ _) as [pks|e]; [|done].
      by eapply IH.
Qed.

(** With primary keys among the features the first pass completes, and it
    leaves an entry in each of its maps for every embedding-bearing group. *)
Lemma init_fg_maps_total qs self :
  (forall q, q ∈ qs ->
     is_Some (FeatureGroup.embedding_index (_left_feature_group q)) ->
     primary_key_in_features (_left_feature_group q)) ->
  exists self', init_fg_maps qs self = (Normal, self')
    /\ (forall i, (is_Some (_fg_vdb_col_fg_col_map self !! i)
                   \/ exists q, q ∈ qs
                        /\ is_Some (FeatureGroup.embedding_index (_left_feature_group q))
                        /\ FeatureGroup.id (_left_feature_group q) = i) ->
          is_Some (_fg_vdb_col_fg_col_map self' !! i))
    /\ (forall i, (is_Some (_fg_col_vdb_col_map self !! i)
                   \/ exists q, q ∈ qs
                        /\ is_Some (FeatureGroup.embedding_index (_left_feature_group q))
                        /\ FeatureGroup.id (_left_feature_group q) = i) ->
          is_Some (_fg_col_vdb_col_map self' !! i))
    /\ (forall i, (is_Some (_fg_id_to_vdb_pks self !! i)
                   \/ exists q, q ∈ qs
                        /\ is_Some (FeatureGroup.embedding_index (_left_feature_group q))
                        /\ FeatureGroup.id (_left_feature_group q) = i) ->
          is_Some (_fg_id_to_vdb_pks self' !! i)).
Proof.
  revert self. induction qs as [|q qs IH]; intros self Hwf.
  - exists self. split_and!; [done | | |];
      intros i [?|(q & Hin & _)]; try done; by apply elem_of_nil in Hin.
  - simpl.
    assert (Hrest : forall q', q' ∈ qs ->
       is_Some (FeatureGroup.embedding_index (_left_feature_group q')) ->
       primary_key_in_features (_left_feature_group q')).
    { intros q' Hin. apply Hwf. by apply list_elem_of_further. }
    destruct (FeatureGroup.embedding_index (_left_feature_group q))
      as [ei|] eqn:Hei.
    + destruct (add_primary_key_cols_total (_left_feature_group q)
                  (EmbeddingIndex.col_prefix ei)
                  (FeatureGroup.primary_key (_left_feature_group q))
                  (add_feature_cols (EmbeddingIndex.col_prefix ei)
                     (_left_features q) ([], [])))
        as ([a b] & Hadd & _ & Hpks).
      { intros pk Hpk.
        destruct (Hwf q) with (pk := pk) as (f & Hf & <-);
          [apply list_elem_of_here | by rewrite Hei | done |].
        by apply getitem_feature. }
      rewrite Hadd. destruct (vdb_pks_total b _ Hpks) as [cs Hcs].
      simpl in Hcs. rewrite Hcs.
      edestruct IH as (self' & Hrun & H1 & H2 & H3); [exact Hrest|].
      exists self'. split; [exact Hrun|].
      split_and!; intros i Hi; [apply H1 | apply H2 | apply H3];
        (destruct Hi as [Hi|(q' & [->|Hin]%elem_of_cons & Hemb & Hid)];
         [left; simpl; rewrite lookup_insert; by case_decide
         |left; simpl; rewrite lookup_insert, decide_True; by eauto
         |right; by eauto]).
    + destruct (IH self Hrest) as (self' & Hrun & H1 & H2 & H3).
      exists self'. split; [exact Hrun|].
      split_and!; intros i Hi; [apply H1 | apply H2 | apply H3];
        (destruct Hi as [Hi|(q' & [->|Hin]%elem_of_cons & Hemb & Hid)];
         [by left | rewrite Hei in Hemb; by destruct Hemb | right; by eauto]).
Qed.

(** What the second pass leaves alone. *)
Lemma init_joins_frame js i self c self' :
  init_joins i js self = (c, self') ->
  _query self' = _query self
  /\ _fg_vdb_col_fg_col_map self' = _fg_vdb_col_fg_col_map self
  /\ _fg_col_vdb_col_map self' = _fg_col_vdb_col_map self
  /\ _fg_id_to_vdb_pks self' = _fg_id_to_vdb_pks self
  /\ _embedding_features self' = _embedding_features self
  /\ _index_result_limit_k self' = _index_result_limit_k self
  /\ _serving_keys self' = _serving_keys self
  /\ _serving_key_by_serving_index self' = _serving_key_by_serving_index self.
Proof.
  revert i self. induction js as [|join js IH]; intros i self H; simpl in H.
  - by injection H as <- <-.
  - destruct (FeatureGroup.embedding_index _) as [ei|]; [|by eapply IH].
    destruct (_fg_vdb_col_td_col_map self !! _) as [m|];
      [by injection H as <- <-|].
    by apply IH in H.
Qed.

(** Entries of the physical-to-final table are never replaced, and every entry
    that the second pass adds is the map of one of the joins. *)
Lemma init_joins_entries js i self c self' :
  init_joins i js self = (c, self') ->
  (forall id m, _fg_vdb_col_td_col_map self !! id = Some m ->
                _fg_vdb_col_td_col_map self' !! id = Some m)
  /\ (forall id m, _fg_vdb_col_td_col_map self' !! id = Some m ->
        _fg_vdb_col_td_col_map self !! id = Some m
        \/ exists join, join ∈ js /\ td_entry_of join m).
Proof.
  revert i self. induction js as [|join js IH]; intros i self H; simpl in H.
  - injection H as <- <-. split; [done | by left].
  - destruct (FeatureGroup.embedding_index _) as [ei|] eqn:Hei.
    + destruct (_fg_vdb_col_td_col_map self !! _) as [m0|] eqn:Hm0.
      * injection H as <- <-. split; [done | by left].
      * apply IH in H as [Hkeep Hnew]. simpl in *. split.
        -- intros id m Hm. apply Hkeep. rewrite lookup_insert_ne; [done|].
           intros <-. congruence.
        -- intros id m Hm. apply Hnew in Hm as [Hm|(j & Hj & Hjm)].
           ++ rewrite lookup_insert in Hm. case_decide as Hid.
              ** injection Hm as <-. right. exists join.
                 split; [apply list_elem_of_here|]. by exists ei.
              ** by left.
           ++ right. exists j. split; [by apply list_elem_of_further | done].
    + apply IH in H as [Hkeep Hnew]. split; [done|].
      intros id m Hm. apply Hnew in Hm as [Hm|(j & Hj & Hjm)]; [by left|].
      right. exists j. split; [by apply list_elem_of_further | done].
Qed.

(** A second pass that completes has given every embedding-bearing join its
    own map. *)
Lemma init_joins_Normal js i self self' :
  init_joins i js self = (Normal, self') ->
  forall n join ei,
    js !! n = Some join ->
    FeatureGroup.embedding_index (_left_feature_group (query join)) = Some ei ->
    _fg_vdb_col_td_col_map self'
      !! FeatureGroup.id (_left_feature_group (query join))
    = Some (vdb_col_td_col_map_of ei (prefix_or_empty join)
              (FeatureGroup.features (_left_feature_group (query join)))).
Proof.
  revert i self. induction js as [|j0 js IH]; intros i self H n join ei Hn Hei.
  - done.
  - simpl in H. destruct n as [|n]; simpl in Hn.
    + injection Hn as ->. rewrite Hei in H.
      destruct (_fg_vdb_col_td_col_map self !! _) as [m0|] eqn:Hm0; [done|].
      apply init_joins_entries in H as [Hkeep _].
      apply Hkeep. simpl. by rewrite lookup_insert_eq.
    + destruct (FeatureGroup.embedding_index (_left_feature_group (query j0)));
        [|by eapply IH].
      destruct (_fg_vdb_col_td_col_map self !! _); [done|].
      by eapply IH.
Qed.

(** A join whose feature group already has a map stops the second pass. *)
Lemma init_joins_known js i self join ei :
  join ∈ js ->
  FeatureGroup.embedding_index (_left_feature_group (query join)) = Some ei ->
  is_Some (_fg_vdb_col_td_col_map self
             !! FeatureGroup.id (_left_feature_group (query join))) ->
  exists self', init_joins i js self = (Raises duplicate_join_error, self')
    /\ exists id, is_Some (_fg_vdb_col_td_col_map self' !! id).
Proof.
  revert i self. induction js as [|j0 js IH]; intros i self Hin Hei Hknown.
  - by apply elem_of_nil in Hin.
  - simpl.
    destruct (FeatureGroup.embedding_index (_left_feature_group (query j0)))
      as [ei0|] eqn:Hei0.
    + destruct (_fg_vdb_col_td_col_map self
                  !! FeatureGroup.id (_left_feature_group (query j0)))
        as [m0|] eqn:Hm0.
      * exists self. split; [done|]. eexists. by rewrite Hm0.
      * apply elem_of_cons in Hin as [->|Hin].
        { rewrite Hm0 in Hknown. by destruct Hknown. }
        apply IH; [done | done |]. simpl.
        rewrite lookup_insert. by case_decide.
    + apply elem_of_cons in Hin as [->|Hin]; [congruence|].
      by apply IH.
Qed.

(** Two joins on one embedding-bearing feature group stop the second pass. *)
Lemma init_joins_twice js i self n1 n2 j1 j2 ei1 ei2 :
  (n1 < n2)%nat ->
  js !! n1 = Some j1 -> js !! n2 = Some j2 ->
  FeatureGroup.embedding_index (_left_feature_group (query j1)) = Some ei1 ->
  FeatureGroup.embedding_index (_left_feature_group (query j2)) = Some ei2 ->
  FeatureGroup.id (_left_feature_group (query j1))
  = FeatureGroup.id (_left_feature_group (query j2)) ->
  exists self', init_joins i js self = (Raises duplicate_join_error, self')
    /\ exists id, is_Some (_fg_vdb_col_td_col_map self' !! id).
Proof.
  revert i self n1 n2.
  induction js as [|j0 js IH]; intros i self n1 n2 Hlt H1 H2 He1 He2 Hid.
  - done.
  - destruct n2 as [|n2]; [lia|]. simpl in H2.
    destruct n1 as [|n1]; simpl in H1.
    + injection H1 as ->. simpl. rewrite He1.
      destruct (_fg_vdb_col_td_col_map self
                  !! FeatureGroup.id (_left_feature_group (query j1)))
        as [m0|] eqn:Hm0.
      * exists self. split; [done|]. eexists. by rewrite Hm0.
      * eapply init_joins_known; [by eapply list_elem_of_lookup_2 | exact He2|].
        simpl. rewrite <- Hid, lookup_insert_eq. by eauto.
    + simpl.
      destruct (FeatureGroup.embedding_index (_left_feature_group (query j0)))
        as [ei0|] eqn:Hei0; [|eapply (IH _ _ n1 n2); eauto; lia].
      destruct (_fg_vdb_col_td_col_map self
                  !! FeatureGroup.id (_left_feature_group (query j0)))
        as [m0|] eqn:Hm0.
      * exists self. split; [done|]. eexists. by rewrite Hm0.
      * eapply (IH _ _ n1 n2); eauto; lia.
Qed.

(** What [new] leaves in a client it returns. *)
Lemma new_Normal q sks self :
  new q sks = (Normal, self) ->
  exists self2,
    init_fg_maps (q :: (query <$> joins q))
      (set_embedding_features (blank q sks)
         (init_embedding_features (featuregroups q) [])) = (Normal, self2)
    /\ _query self2 = q
    /\ _fg_vdb_col_td_col_map self2 = ∅
    /\ init_joins 0 (fg_joins q) self2 = (Normal, self).
Proof.
  unfold new, init. cbn [_query blank set_embedding_features _embedding_features].
  destruct (init_fg_maps _ _) as [[|e] self2] eqn:Hfirst; [|done].
  intros Hsecond. exists self2.
  apply init_fg_maps_frame in Hfirst as Hframe.
  destruct Hframe as (Hq & Htd & _). simpl in Hq, Htd.
  rewrite Hq in Hsecond. by split_and!.
Qed.

(** C1. In a client that [new] returns, every join of the query (position 0
    being the primary feature group) that scans an embedding-bearing feature
    group has a physical-to-final map under the group's id, whatever features
    the sub-query selected.  The keys of the map are free of duplicates and are
    exactly the group's feature names and primary-key names, each with the
    column prefix of the embedding index in front; every such key is mapped to
    the same name with the alias of the join in front, and the alias is empty
    at position 0. *)
Theorem C1_physical_to_final_map q sks self i join fg ei :
  new q sks = (Normal, self) ->
  embedding_join_at q i join fg ei ->
  exists m,
    _fg_vdb_col_td_col_map self !! FeatureGroup.id fg = Some m
    /\ NoDup (Dict.keys m)
    /\ (forall key,
          key ∈ Dict.keys m <->
          (exists f, f ∈ FeatureGroup.features fg
                     /\ key = EmbeddingIndex.col_prefix ei +:+ Feature.name f)
          \/ (exists pk, pk ∈ FeatureGroup.primary_key fg
                         /\ key = EmbeddingIndex.col_prefix ei +:+ pk))
    /\ (forall f, f ∈ FeatureGroup.features fg ->
          Dict.get (EmbeddingIndex.col_prefix ei +:+ Feature.name f) m
          = Some (final_prefix i join +:+ Feature.name f))
    /\ (forall pk, pk ∈ FeatureGroup.primary_key fg ->
          Dict.get (EmbeddingIndex.col_prefix ei +:+ pk) m
          = Some (final_prefix i join +:+ pk)).
Proof.
  intros Hnew (Hi & <- & Hei).
  destruct (new_Normal _ _ _ Hnew) as (self2 & Hfirst & _ & _ & Hsecond).
  assert (Hpk : primary_key_in_features (_left_feature_group (query join))).
  { eapply init_fg_maps_Normal; [exact Hfirst | | by rewrite Hei].
    destruct i as [|i]; simpl in Hi.
    - injection Hi as <-. apply list_elem_of_here.
    - apply list_elem_of_further, list_elem_of_fmap.
      exists join. split; [done | by eapply list_elem_of_lookup_2]. }
  assert (Halias : prefix_or_empty join = final_prefix i join).
  { destruct i as [|i]; [|done]. simpl in Hi. by injection Hi as <-. }
  exists (vdb_col_td_col_map_of ei (prefix_or_empty join)
            (FeatureGroup.features (_left_feature_group (query join)))).
  split_and!.
  - by eapply init_joins_Normal.
  - apply td_map_NoDup.
  - intros key. rewrite td_map_keys. split; [by left|].
    intros [Hf|(pk & Hin & ->)]; [done|].
    destruct (Hpk pk Hin) as (f & Hf & <-). by exists f.
  - intros f Hf. rewrite <- Halias. by apply td_map_get_feature.
  - intros pk Hin. destruct (Hpk pk Hin) as (f & Hf & <-).
    rewrite <- Halias. by apply td_map_get_feature.
Qed.

Lemma C1_physical_to_final_map_witness :
  exists m,
    _fg_vdb_col_td_col_map (new Sample.q None).2 !! 8%Z = Some m
    /\ NoDup (Dict.keys m)
    /\ (forall key,
          key ∈ Dict.keys m <->
          (exists f, f ∈ [Sample.g_id; Sample.g_vec]
                     /\ key = "p8_" +:+ Feature.name f)
          \/ (exists pk, pk ∈ ["sku"] /\ key = "p8_" +:+ pk))
    /\ (forall f, f ∈ [Sample.g_id; Sample.g_vec] ->
          Dict.get ("p8_" +:+ Feature.name f) m
          = Some ("item_" +:+ Feature.name f))
    /\ (forall pk, pk ∈ ["sku"] ->
          Dict.get ("p8_" +:+ pk) m = Some ("item_" +:+ pk)).
Proof.
  apply (C1_physical_to_final_map Sample.q None (new Sample.q None).2
           1 Sample.join2 Sample.fg2 Sample.ei2).
  - vm_compute. reflexivity.
  - repeat split.
Defined.

(** The second pass over joins of which one repeats an embedding-bearing
    feature group stops at the first such join; the joins before it have
    their maps and no other map is there. *)
Lemma init_joins_stops js : forall pre i self,
  td_maps_are_of pre self ->
  (exists j, repeated_in (pre ++ js) j) ->
  exists self' j,
    init_joins i js self = (Raises duplicate_join_error, self')
    /\ repeated_in (pre ++ js) j
    /\ td_maps_are_of (take j (pre ++ js)) self'.
Proof.
  induction js as [|j0 js IH]; intros pre i self (Hmaps & Honly & Hdistinct) Hdup.
  - exfalso. destruct Hdup as (j & n & jn & jj & en & ej & Hlt & Hn & Hj & Hid).
    rewrite app_nil_r in Hn, Hj. by eapply (Hdistinct n j).
  - assert (Hmiddle : pre ++ j0 :: js = (pre ++ [j0]) ++ js)
      by by rewrite <- app_assoc.
    assert (Hold : forall n join ei,
              embedding_join_in (pre ++ [j0]) n join ei ->
              embedding_join_in pre n join ei
              \/ (n = length pre /\ join = j0)).
    { intros n join ei [Hn Hei].
      apply lookup_snoc_Some in Hn as [[_ Hn]|[-> <-]]; [by left | by right]. }
    cbn [init_joins].
    destruct (FeatureGroup.embedding_index (_left_feature_group (query j0)))
      as [ei0|] eqn:Hei0.
    + destruct (_fg_vdb_col_td_col_map self
                  !! FeatureGroup.id (_left_feature_group (query j0)))
        as [m0|] eqn:Hm0.
      * exists self, (length pre). split; [done|]. split.
        -- destruct (Honly (FeatureGroup.id (_left_feature_group (query j0))))
             as (n & jn & en & [Hn Hen] & Hid); [by rewrite Hm0|].
           exists n, jn, j0, en, ei0. split_and!.
           ++ by eapply lookup_lt_Some.
           ++ split; [|done]. rewrite lookup_app_l; [done|].
              by eapply lookup_lt_Some.
           ++ split; [by apply list_lookup_middle | done].
           ++ done.
        -- by rewrite take_app_length.
      * rewrite Hmiddle. apply IH; [|by rewrite <- Hmiddle].
        unfold td_maps_are_of.
        cbn [_fg_vdb_col_td_col_map set_fg_vdb_col_td_col_map
             set_td_embedding_feature_names set_embedding_fg_by_join_index].
        split_and!.
        -- intros n join ei Hin. destruct (Hold _ _ _ Hin) as [Hpre|[-> ->]].
           ++ rewrite lookup_insert_ne; [exact (Hmaps _ _ _ Hpre)|].
              intros Heq. rewrite Heq, (Hmaps _ _ _ Hpre) in Hm0. done.
           ++ destruct Hin as [_ Hei]. rewrite Hei0 in Hei. injection Hei as <-.
              by rewrite lookup_insert_eq.
        -- intros id Hsome. rewrite lookup_insert in Hsome.
           case_decide as Hid.
           ++ exists (length pre), j0, ei0. split; [|done].
              split; [by apply list_lookup_middle | done].
           ++ destruct (Honly id Hsome) as (n & join & ei & [Hn Hei] & <-).
              exists n, join, ei. split; [|done]. split; [|done].
              rewrite lookup_app_l; [done | by eapply lookup_lt_Some].
        -- intros n1 n2 j1 j2 e1 e2 Hlt H1 H2.
           destruct (Hold _ _ _ H2) as [H2'|[-> ->]].
           ++ destruct (Hold _ _ _ H1) as [H1'|[-> ->]];
                [by eapply (Hdistinct n1 n2)|].
              destruct H2' as [H2' _]. apply lookup_lt_Some in H2'. lia.
           ++ destruct (Hold _ _ _ H1) as [H1'|[-> _]]; [|lia].
              intros Heq. rewrite <- Heq, (Hmaps _ _ _ H1') in Hm0. done.
    + rewrite Hmiddle. apply IH; [|by rewrite <- Hmiddle]. split_and!.
      * intros n join ei Hin. destruct (Hold _ _ _ Hin) as [Hpre|[-> ->]];
          [exact (Hmaps _ _ _ Hpre)|].
        destruct Hin as [_ Hei]. congruence.
      * intros id Hsome.
        destruct (Honly id Hsome) as (n & join & ei & [Hn Hei] & <-).
        exists n, join, ei. split; [|done]. split; [|done].
        rewrite lookup_app_l; [done | by eapply lookup_lt_Some].
      * intros n1 n2 j1 j2 e1 e2 Hlt H1 H2.
        destruct (Hold _ _ _ H2) as [H2'|[-> ->]].
        -- destruct (Hold _ _ _ H1) as [H1'|[-> ->]];
             [by eapply (Hdistinct n1 n2)|].
           destruct H2' as [H2' _]. apply lookup_lt_Some in H2'. lia.
        -- destruct H2 as [_ Hei]. congruence.
Qed.

(** C4, as stated, would have the duplicate join rejected with every
    namespace map still empty.  On a feature group joined with itself the
    error is raised, and the maps of the first pass are there.  And the
    duplicate join is what is reported only when the first pass completes: on
    a feature group joined with itself whose primary key names none of its
    features, the lookup of the key in the first pass raises [KeyError]. *)
Lemma C4_counterexample :
  (joins_embedding_fg_twice Sample.q_dup
   /\ ~ (exists self,
           new Sample.q_dup None = (Raises duplicate_join_error, self)
           /\ no_namespace_map_built self))
  /\ (joins_embedding_fg_twice SampleBadKey.q_dup
      /\ (new SampleBadKey.q_dup None).1 = Raises (KeyError "uid")).
Proof.
  split; split.
  - exists 0%nat, 1%nat, (Build_Join Sample.q_dup (Some "")), Sample.self_join,
      Sample.fg, Sample.fg, Sample.ei, Sample.ei.
    split; [lia|]. repeat split.
  - intros (self & Hnew & Hno & _).
    assert (Hentry : is_Some (_fg_vdb_col_fg_col_map
                                (new Sample.q_dup None).2 !! 7%Z)).
    { vm_compute. eauto. }
    rewrite Hnew in Hentry. simpl in Hentry. rewrite Hno in Hentry.
    rewrite lookup_empty in Hentry. by destruct Hentry.
  - exists 0%nat, 1%nat, (Build_Join SampleBadKey.q_dup (Some "")),
      SampleBadKey.self_join, SampleBadKey.fg, SampleBadKey.fg,
      Sample.ei, Sample.ei.
    split; [lia|]. repeat split.
  - vm_compute. reflexivity.
Qed.

(** C4, amended.  When two joins of the query (position 0 being the primary
    feature group) scan embedding-bearing feature groups with one id, and the
    primary-key columns of the embedding-bearing groups name features of
    theirs, [new] raises the duplicate-join error.  It raises it at the first
    join that repeats an embedding-bearing group.  The client it leaves behind
    holds the maps of the first pass for every embedding-bearing group of the
    query, and the physical-to-final map of every embedding-bearing join
    before the repeated one, and no other physical-to-final map. *)
Theorem C4_duplicate_join_raises q sks :
  joins_embedding_fg_twice q ->
  (forall join, join ∈ fg_joins q ->
     is_Some (FeatureGroup.embedding_index (_left_feature_group (query join))) ->
     primary_key_in_features (_left_feature_group (query join))) ->
  exists self j,
    new q sks = (Raises duplicate_join_error, self)
    /\ first_repeated_join q j
    /\ (forall join, join ∈ fg_joins q ->
          is_Some (FeatureGroup.embedding_index (_left_feature_group (query join))) ->
          let id := FeatureGroup.id (_left_feature_group (query join)) in
          is_Some (_fg_vdb_col_fg_col_map self !! id)
          /\ is_Some (_fg_col_vdb_col_map self !! id)
          /\ is_Some (_fg_id_to_vdb_pks self !! id))
    /\ (forall n join fg ei,
          (n < j)%nat -> embedding_join_at q n join fg ei ->
          _fg_vdb_col_td_col_map self !! FeatureGroup.id fg
          = Some (vdb_col_td_col_map_of ei (prefix_or_empty join)
                    (FeatureGroup.features fg)))
    /\ (forall id,
          is_Some (_fg_vdb_col_td_col_map self !! id) ->
          exists n join fg ei,
            (n < j)%nat /\ embedding_join_at q n join fg ei
            /\ FeatureGroup.id fg = id).
Proof.
  intros (i & j & ji & jj & fgi & fgj & eii & eij & Hlt
          & (Hi & <- & Heii) & (Hj & <- & Heij) & Hid) Hwf.
  assert (Hqs : q :: (query <$> joins q) = query <$> fg_joins q) by done.
  destruct (init_fg_maps_total (q :: (query <$> joins q))
              (set_embedding_features (blank q sks)
                 (init_embedding_features (featuregroups q) [])))
    as (self2 & Hfirst & H1 & H2 & H3).
  { rewrite Hqs. intros q' (join & -> & Hin)%list_elem_of_fmap. by apply Hwf. }
  apply init_fg_maps_frame in Hfirst as Hframe.
  destruct Hframe as (Hq & Htd & _). simpl in Hq, Htd.
  destruct (init_joins_stops (fg_joins q) [] 0 self2)
    as (self & j' & Hsecond & Hrep & Hmaps & Honly & Hdistinct).
  { split_and!.
    - by intros n join ei [Hn _].
    - intros id Hsome. rewrite Htd, lookup_empty in Hsome. by destruct Hsome.
    - by intros n1 n2 j1 j2 e1 e2 _ [Hn _]. }
  { exists j, i, ji, jj, eii, eij. by split_and!. }
  cbn [app] in Hrep, Hmaps, Honly, Hdistinct.
  assert (Htake : forall n join ei,
            embedding_join_in (take j' (fg_joins q)) n join ei
            <-> (n < j')%nat
                /\ embedding_join_at q n join (_left_feature_group (query join)) ei).
  { intros n join ei. unfold embedding_join_in, embedding_join_at.
    rewrite lookup_take_Some. split.
    - intros [[Hn Hlt'] Hei]. by split_and!.
    - intros (Hlt' & Hn & _ & Hei). by split_and!. }
  exists self, j'. split_and!.
  - unfold new, init.
    cbn [_query blank set_embedding_features _embedding_features].
    rewrite Hfirst. cbn iota. by rewrite Hq.
  - split.
    + destruct Hrep as (n & jn & jj' & en & ej & Hlt' & [Hn Hen] & [Hj' Hej] & Hid').
      exists n, jn, jj', (_left_feature_group (query jn)),
        (_left_feature_group (query jj')), en, ej.
      by split_and!.
    + intros n1 n2 j1 j2 fg1 fg2 e1 e2 Hlt12 Hlt2 (Hn1 & <- & He1) (Hn2 & <- & He2).
      apply (Hdistinct n1 n2 j1 j2 e1 e2 Hlt12); apply Htake;
        (split; [lia|by split_and!]).
  - intros join Hin Hemb id.
    apply init_joins_frame in Hsecond as (_ & -> & -> & -> & _).
    assert (Hq' : exists q', q' ∈ q :: (query <$> joins q)
              /\ is_Some (FeatureGroup.embedding_index (_left_feature_group q'))
              /\ FeatureGroup.id (_left_feature_group q') = id).
    { exists (query join). split_and!; [|done..].
      rewrite Hqs. by apply list_elem_of_fmap_2. }
    split_and!; [apply H1 | apply H2 | apply H3]; by right.
  - intros n join fg ei Hn (Hjoin & <- & Hei).
    apply (Hmaps n). apply Htake. split; [done | by split_and!].
  - intros id Hsome.
    destruct (Honly id Hsome) as (n & join & ei & Hin & <-).
    apply Htake in Hin as [Hn Hat].
    by exists n, join, (_left_feature_group (query join)), ei.
Qed.

Lemma C4_duplicate_join_raises_witness :
  exists self j,
    new Sample.q_dup None = (Raises duplicate_join_error, self)
    /\ first_repeated_join Sample.q_dup j
    /\ (forall join, join ∈ fg_joins Sample.q_dup ->
          is_Some (FeatureGroup.embedding_index (_left_feature_group (query join))) ->
          let id := FeatureGroup.id (_left_feature_group (query join)) in
          is_Some (_fg_vdb_col_fg_col_map self !! id)
          /\ is_Some (_fg_col_vdb_col_map self !! id)
          /\ is_Some (_fg_id_to_vdb_pks self !! id))
    /\ (forall n join fg ei,
          (n < j)%nat -> embedding_join_at Sample.q_dup n join fg ei ->
          _fg_vdb_col_td_col_map self !! FeatureGroup.id fg
          = Some (vdb_col_td_col_map_of ei (prefix_or_empty join)
                    (FeatureGroup.features fg)))
    /\ (forall id,
          is_Some (_fg_vdb_col_td_col_map self !! id) ->
          exists n join fg ei,
            (n < j)%nat /\ embedding_join_at Sample.q_dup n join fg ei
            /\ FeatureGroup.id fg = id).
Proof.
  apply (C4_duplicate_join_raises Sample.q_dup None).
  - exists 0%nat, 1%nat, (Build_Join Sample.q_dup (Some "")), Sample.self_join,
      Sample.fg, Sample.fg, Sample.ei, Sample.ei.
    split; [lia|]. repeat split.
  - intros join Hin _ pk Hpk.
    assert (Hfg : _left_feature_group (query join) = Sample.fg).
    { apply elem_of_cons in Hin as [->|Hin]; [done|].
      by apply list_elem_of_singleton in Hin as ->. }
    rewrite Hfg in Hpk |- *.
    apply list_elem_of_singleton in Hpk as ->.
    exists Sample.f_id. split; [apply list_elem_of_here | done].
Defined.


(** ** Filter translation *)

(** The table of [_convert_filter]: the clause of each condition, on the
    column that [prefixed] names. *)
Lemma convert_filter_table (f : Filter.t) (col_prefix : option string) :
  let column := prefixed col_prefix (Feature.name (Filter.feature f)) in
  let v := Filter.value f in
  _convert_filter f col_prefix =
  match Filter.condition f with
  | Filter.EQ => Ok (VDict [("term", VDict [(column, v)])])
  | Filter.NE =>
      Ok (VDict [("bool", VDict [("must_not",
            VList [VDict [("term", VDict [(column, v)])]])])])
  | Filter.IN => Ok (VDict [("terms", VDict [(column, v)])])
  | Filter.LK =>
      match v with
      | VStr s =>
          Ok (VDict [("wildcard",
                VDict [(column, VDict [("value", VStr ("*" +:+ s +:+ "*"))])])])
      | _ => Raise (TypeError "can only concatenate str to str")
      end
  | Filter.GT => Ok (VDict [("range", VDict [(column, VDict [("gt", v)])])])
  | Filter.GE => Ok (VDict [("range", VDict [(column, VDict [("gte", v)])])])
  | Filter.LT => Ok (VDict [("range", VDict [(column, VDict [("lt", v)])])])
  | Filter.LE => Ok (VDict [("range", VDict [(column, VDict [("lte", v)])])])
  | Filter.Unknown _ => Raise (FeatureStoreException "Filter condition not defined.")
  end.
Proof. unfold _convert_filter. by destruct (Filter.condition f). Qed.

(** With a non-empty prefix the column of a leaf is the prefix followed by the
    name of the leaf's feature. *)
Lemma prefixed_nonempty (p nm : string) :
  p <> "" -> prefixed (Some p) nm = p +:+ nm.
Proof.
  intros Hp. unfold prefixed.
  destruct (String.eqb p "") eqn:E; [|done]. by apply String.eqb_eq in E.
Qed.

(** The left child of a [SINGLE] composite is translated without the column
    prefix, whatever prefix the composite was given. *)
Lemma single_left_child_unprefixed (f : Filter.t) r (col_prefix : option string) c :
  _convert_filter f None = Ok c ->
  _get_query_filter (ALogic Logic.SINGLE (Some (AFilter f)) r) col_prefix
  = Ok [c].
Proof. intros Hc. simpl. by rewrite Hc. Qed.

(** The right child of a [SINGLE] composite, and both children of [AND] and
    [OR], get the prefix. *)
Lemma single_right_child_prefixed (f : Filter.t) (col_prefix : option string) :
  _get_query_filter (ALogic Logic.SINGLE None (Some (AFilter f))) col_prefix
  = _get_query_filter (AFilter f) col_prefix.
Proof. done. Qed.

(** C3, at the failing input.  The filter [age >= 18] wrapped in a [SINGLE]
    composite as its left child, compiled for a project index with column
    prefix [p7_], comes out as a range clause on column [age]; the same leaf on
    its own, as the right child of a [SINGLE] composite, or under an [AND]
    composite comes out on the physical column [p7_age]. *)
Theorem C3_single_left_child_loses_prefix :
  _get_query_filter
    (ALogic Logic.SINGLE (Some (AFilter SampleFilter.adult)) None) (Some "p7_")
  = Ok [SampleFilter.range_on "age"]
  /\ _get_query_filter (AFilter SampleFilter.adult) (Some "p7_")
     = Ok [SampleFilter.range_on "p7_age"]
  /\ _get_query_filter
       (ALogic Logic.SINGLE None (Some (AFilter SampleFilter.adult))) (Some "p7_")
     = Ok [SampleFilter.range_on "p7_age"]
  /\ _get_query_filter
       (ALogic Logic.AND (Some (AFilter SampleFilter.adult)) None) (Some "p7_")
     = Ok [VDict [("bool", VDict [("must",
             VList [SampleFilter.range_on "p7_age"])])]].
Proof. repeat split. Qed.

(** ** Result rewriting *)

Lemma set_fresh {V} (k : string) (v : V) (d : list (string * V)) :
  Dict.get k d = None -> Dict.set k v d = d ++ [(k, v)].
Proof.
  induction d as [|[k' v'] d IH]; simpl; [done|].
  destruct (decide (k = k')); [done|]. intros H. by rewrite IH.
Qed.

Lemma get_app_fresh {V} (k : string) (d1 d2 : list (string * V)) :
  Dict.get k (d1 ++ d2) =
  match Dict.get k d1 with
  | Some v => Some v
  | None => Dict.get k d2
  end.
Proof.
  induction d1 as [|[k' v'] d1 IH]; simpl; [done|].
  by destruct (decide (k = k')).
Qed.

Lemma elem_of_keys_cons {V} (key k : string) (v : V) (d : list (string * V)) :
  key ∈ Dict.keys ((k, v) :: d) <-> key = k \/ key ∈ Dict.keys d.
Proof. unfold Dict.keys. rewrite fmap_cons. apply elem_of_cons. Qed.

Lemma NoDup_keys_cons {V} (k : string) (v : V) (d : list (string * V)) :
  NoDup (Dict.keys ((k, v) :: d)) <-> (k ∉ Dict.keys d) /\ NoDup (Dict.keys d).
Proof. unfold Dict.keys. rewrite fmap_cons. apply NoDup_cons. Qed.

(** A key without a final column stops the loop with the error that names the
    first such key. *)
Lemma rewrite_items_unmapped items key_map acc :
  (exists key, key ∈ Dict.keys items /\ Dict.get key key_map = None) ->
  exists key, key ∈ Dict.keys items /\ Dict.get key key_map = None
    /\ rewrite_items items key_map acc = Raise (feature_not_found key).
Proof.
  revert acc. induction items as [|[k v] items IH]; intros acc (key & Hin & Hnone).
  - by apply elem_of_nil in Hin.
  - cbn [rewrite_items]. destruct (Dict.get k key_map) as [final|] eqn:Hk.
    + apply elem_of_keys_cons in Hin as [->|Hin]; [congruence|].
      destruct (IH (Dict.set final v acc)) as (key' & Hin' & Hnone' & Hraise).
      { by exists key. }
      exists key'. split_and!; [|done..].
      apply elem_of_keys_cons. by right.
    + exists k. split_and!; [|done..].
      apply elem_of_keys_cons. by left.
Qed.

(** When every key has a final column, distinct keys have distinct final
    columns and none of them is in the dictionary yet, the loop appends the
    renamed items. *)
Lemma rewrite_items_mapped items key_map acc :
  NoDup (Dict.keys items) ->
  (forall k1 k2 final, Dict.get k1 key_map = Some final ->
                       Dict.get k2 key_map = Some final -> k1 = k2) ->
  (forall key, key ∈ Dict.keys items -> is_Some (Dict.get key key_map)) ->
  (forall key final, key ∈ Dict.keys items ->
     Dict.get key key_map = Some final -> Dict.get final acc = None) ->
  exists renamed,
    rewrite_items items key_map acc = Ok (acc ++ renamed)
    /\ renamed_by key_map items renamed.
Proof.
  intros Hnd Hinj. revert acc Hnd.
  induction items as [|[k v] items IH]; intros acc Hnd Hall Hfresh.
  - exists []. rewrite app_nil_r. split; [done | constructor].
  - apply NoDup_keys_cons in Hnd as [Hk Hnd]. cbn [rewrite_items].
    destruct (Hall k) as [final Hfinal]; [apply elem_of_keys_cons; by left|].
    rewrite Hfinal.
    assert (Hacc : Dict.get final acc = None).
    { eapply Hfresh; [apply elem_of_keys_cons; by left | done]. }
    rewrite (set_fresh _ _ _ Hacc).
    destruct (IH (acc ++ [(final, v)])) as (renamed & Hrun & Hren); [done | | |].
    + intros key Hin. apply Hall. apply elem_of_keys_cons. by right.
    + intros key final' Hin Hkey. rewrite get_app_fresh.
      rewrite (Hfresh key final'); [|apply elem_of_keys_cons; by right|done].
      simpl. destruct (decide (final' = final)) as [->|]; [|done].
      exfalso. apply Hk. by rewrite (Hinj k key final).
    + exists ((final, v) :: renamed). split.
      * rewrite Hrun. by rewrite <- app_assoc.
      * constructor; [done | exact Hren].
Qed.

(** Every physical-to-final map of a client that [new] returns was built for
    one of the joins, so distinct physical columns have distinct final
    columns. *)
Lemma new_td_map_inj q sks self fg_id key_map :
  new q sks = (Normal, self) ->
  _fg_vdb_col_td_col_map self !! fg_id = Some key_map ->
  forall k1 k2 final,
    Dict.get k1 key_map = Some final -> Dict.get k2 key_map = Some final ->
    k1 = k2.
Proof.
  intros Hnew Hmap.
  destruct (new_Normal _ _ _ Hnew) as (self2 & _ & _ & Hempty & Hsecond).
  apply init_joins_entries in Hsecond as [_ Hnew_entries].
  destruct (Hnew_entries _ _ Hmap) as [Hold|(join & _ & ei & _ & ->)].
  - rewrite Hempty, lookup_empty in Hold. done.
  - apply td_map_inj.
Qed.

Lemma neighbors_app self schema fg_id pre rest done :
  neighbors self schema fg_id pre = Ok done ->
  neighbors self schema fg_id (pre ++ rest) =
  (let* others := neighbors self schema fg_id rest in Ok (done ++ others)).
Proof.
  revert done. induction pre as [|item pre IH]; intros done Hpre; simpl in *.
  - injection Hpre as <-. by destruct (neighbors _ _ _ rest).
  - destruct (distance _) as [d|]; [|done]. simpl in *.
    destruct (reconcile _ _ _ _) as [row|]; [|done]. simpl in *.
    destruct (neighbors _ _ _ pre) as [others|]; [|done]. simpl in *.
    injection Hpre as <-. rewrite (IH others eq_refl).
    by destruct (neighbors _ _ _ rest).
Qed.

Lemma rows_app self schema fg_id pre rest done :
  rows self schema fg_id pre = Ok done ->
  rows self schema fg_id (pre ++ rest) =
  (let* others := rows self schema fg_id rest in Ok (done ++ others)).
Proof.
  revert done. induction pre as [|item pre IH]; intros done Hpre; simpl in *.
  - injection Hpre as <-. by destruct (rows _ _ _ rest).
  - destruct (reconcile _ _ _ _) as [row|]; [|done]. simpl in *.
    destruct (rows _ _ _ pre) as [others|]; [|done]. simpl in *.
    injection Hpre as <-. rewrite (IH others eq_refl).
    by destruct (rows _ _ _ rest).
Qed.

Lemma sample_server_rows_are_dicts : rows_are_dicts SampleIndex.server.
Proof.
  intros log c hits Hhits. unfold SampleIndex.server in Hhits.
  assert (Hhit : forall n, NoDup (Dict.keys (_source (SampleIndex.hit n)))).
  { intros n. apply NoDup_cons. split.
    - intros Hin. apply list_elem_of_singleton in Hin. discriminate Hin.
    - apply NoDup_singleton. }
  destruct (length log) as [|[|[|[|[|?]]]]]; try discriminate Hhits;
    injection Hhits as <-; apply Forall_fmap, Forall_forall; intros n _;
    apply Hhit.
Qed.

(** ** What the searches return *)

Lemma reconcile_Ok self schema fg_id source row :
  reconcile self schema fg_id source = Ok row
  <-> exists key_map renamed,
        _fg_vdb_col_td_col_map self !! fg_id = Some key_map
        /\ _rewrite_result_key source key_map = Ok renamed
        /\ _convert_to_pandas_type self schema renamed = Ok row.
Proof.
  unfold reconcile, td_col_map. split.
  - destruct (_fg_vdb_col_td_col_map self !! fg_id) as [key_map|]; [|done].
    cbn [bind].
    destruct (_rewrite_result_key source key_map) as [renamed|] eqn:Hr; [|done].
    cbn [bind]. intros Hc. by exists key_map, renamed.
  - intros (key_map & renamed & -> & Hr & Hc). cbn [bind]. by rewrite Hr.
Qed.

(** The list that [find_neighbors] builds is there exactly when every hit has
    its pair, and it holds the pairs of the hits, one per hit, in their
    order. *)
Lemma neighbors_Ok self schema fg_id hits res :
  neighbors self schema fg_id hits = Ok res
  <-> Forall2 (neighbor_of self schema fg_id) hits res.
Proof.
  revert res. induction hits as [|hit hits IH]; intros res; cbn [neighbors].
  - split; [intros [= <-]; constructor|].
    by intros ->%Forall2_nil_inv_l.
  - unfold distance. split.
    + destruct (_score hit =? 0)%float eqn:Hs; [done|]. cbn [bind].
      destruct (reconcile self schema fg_id (_source hit)) as [row|] eqn:Hrow;
        [|done].
      cbn [bind].
      destruct (neighbors self schema fg_id hits) as [others|]; [|done].
      cbn [bind]. intros [= <-]. constructor; [|by apply IH].
      split_and!; [done | done | by apply reconcile_Ok].
    + intros ([d row] & others & (Hs & Hd & Hrow) & Hrest & ->)%Forall2_cons_inv_l.
      simpl in Hd, Hrow. apply reconcile_Ok in Hrow. apply IH in Hrest.
      rewrite Hs, Hrow, Hrest. cbn [bind]. by rewrite Hd.
Qed.

Lemma rows_Ok self schema fg_id hits res :
  rows self schema fg_id hits = Ok res
  <-> Forall2 (fun hit row => reconcile self schema fg_id (_source hit) = Ok row)
        hits res.
Proof.
  revert res. induction hits as [|hit hits IH]; intros res; cbn [rows].
  - split; [intros [= <-]; constructor|].
    by intros ->%Forall2_nil_inv_l.
  - split.
    + destruct (reconcile self schema fg_id (_source hit)) as [row|] eqn:Hrow;
        [|done].
      cbn [bind].
      destruct (rows self schema fg_id hits) as [others|]; [|done].
      cbn [bind]. intros [= <-]. constructor; [done | by apply IH].
    + intros (row & others & Hrow & Hrest & ->)%Forall2_cons_inv_l.
      apply IH in Hrest. by rewrite Hrow, Hrest.
Qed.

(** The ceilings that the client has cached play no part in what a hit
    becomes. *)
Lemma convert_cache_irrelevant self cache schema row :
  _convert_to_pandas_type (set_index_result_limit_k self cache) schema row
  = _convert_to_pandas_type self schema row.
Proof.
  revert row. induction schema as [|feature schema IH]; intros row; [done|].
  cbn [_convert_to_pandas_type].
  change (convert_feature (set_index_result_limit_k self cache) feature row)
    with (convert_feature self feature row).
  destruct (convert_feature self feature row); [apply IH | done].
Qed.

Lemma neighbors_cache_irrelevant self cache schema fg_id hits :
  neighbors (set_index_result_limit_k self cache) schema fg_id hits
  = neighbors self schema fg_id hits.
Proof.
  induction hits as [|hit hits IH]; [done|]. cbn [neighbors]. rewrite IH.
  unfold reconcile, td_col_map.
  cbn [_fg_vdb_col_td_col_map set_index_result_limit_k].
  destruct (distance (_score hit)); [|done]. cbn [bind].
  destruct (_fg_vdb_col_td_col_map self !! fg_id); [|done]. cbn [bind].
  destruct (_rewrite_result_key _ _); [|done]. cbn [bind].
  by rewrite convert_cache_irrelevant.
Qed.

(** A renaming that returns has replaced every key by its final column, when
    no key comes twice and no two keys share a final column. *)
Lemma renamed_by_functional key_map row r1 r2 :
  renamed_by key_map row r1 -> renamed_by key_map row r2 -> r1 = r2.
Proof.
  intros H1. revert r2.
  induction H1 as [|[k v] [k1 v1] row r1 [Hk1 Hv1] _ IH]; intros r2 H2.
  - by apply Forall2_nil_inv_l in H2.
  - apply Forall2_cons_inv_l in H2 as ([k2 v2] & r2' & [Hk2 Hv2] & H2 & ->).
    simpl in *. rewrite (IH _ H2). congruence.
Qed.

Lemma rewrite_Ok_renamed key_map row renamed :
  NoDup (Dict.keys row) ->
  (forall k1 k2 final, Dict.get k1 key_map = Some final ->
                       Dict.get k2 key_map = Some final -> k1 = k2) ->
  _rewrite_result_key row key_map = Ok renamed
  <-> renamed_by key_map row renamed.
Proof.
  intros Hnd Hinj.
  assert (Hmapped : (forall key, key ∈ Dict.keys row ->
                       is_Some (Dict.get key key_map)) ->
            exists renamed',
              _rewrite_result_key row key_map = Ok renamed'
              /\ renamed_by key_map row renamed').
  { intros Hall.
    destruct (rewrite_items_mapped row key_map [] Hnd Hinj Hall)
      as (renamed' & Hrun & Hren); [done|].
    by exists renamed'. }
  split.
  - intros Hrun.
    destruct (decide (Forall (fun key => is_Some (Dict.get key key_map))
                             (Dict.keys row))) as [Hall|Hsome].
    + rewrite Forall_forall in Hall.
      destruct (Hmapped Hall) as (renamed' & Hrun' & Hren).
      rewrite Hrun in Hrun'. by injection Hrun' as ->.
    + apply not_Forall_Exists in Hsome; [|apply _].
      apply Exists_exists in Hsome as (key & Hin & Hnone).
      destruct (rewrite_items_unmapped row key_map []) as (key' & _ & _ & Hraise).
      { exists key. split; [done|].
        simpl in Hnone. destruct (Dict.get key key_map); [|done].
        exfalso. apply Hnone. by eexists. }
      unfold _rewrite_result_key in Hrun. by rewrite Hrun in Hraise.
  - intros Hren.
    destruct Hmapped as (renamed' & Hrun & Hren').
    { intros key (kv & -> & Hin)%list_elem_of_fmap.
      unfold renamed_by in Hren.
      apply list_elem_of_lookup in Hin as (n & Hn).
      destruct (Forall2_lookup_l _ _ _ _ _ Hren Hn) as (kv' & _ & Hkv & _).
      by rewrite Hkv. }
    by rewrite (renamed_by_functional _ _ _ _ Hren Hren').
Qed.

(** In a client that [new] returns, what a row that is a dictionary becomes
    is the row renamed by the map of the feature group and then coerced. *)
Lemma reconcile_renamed q sks self fg_id key_map schema source row :
  new q sks = (Normal, self) ->
  _fg_vdb_col_td_col_map self !! fg_id = Some key_map ->
  NoDup (Dict.keys source) ->
  reconcile self schema fg_id source = Ok row
  <-> renamed_and_coerced self schema key_map source row.
Proof.
  intros Hnew Hmap Hnd. rewrite reconcile_Ok. unfold renamed_and_coerced.
  pose proof (new_td_map_inj _ _ _ _ _ Hnew Hmap) as Hinj. split.
  - intros (key_map' & renamed & Hmap' & Hrun & Hc).
    rewrite Hmap in Hmap'. injection Hmap' as <-.
    exists renamed. split; [by apply rewrite_Ok_renamed | done].
  - intros (renamed & Hren & Hc). exists key_map, renamed.
    split_and!; [done | by apply rewrite_Ok_renamed | done].
Qed.

Lemma rows_renamed q sks self fg_id key_map schema hits res :
  new q sks = (Normal, self) ->
  _fg_vdb_col_td_col_map self !! fg_id = Some key_map ->
  Forall (fun hit => NoDup (Dict.keys (_source hit))) hits ->
  rows self schema fg_id hits = Ok res
  <-> Forall2 (fun hit row =>
                 renamed_and_coerced self schema key_map (_source hit) row)
        hits res.
Proof.
  intros Hnew Hmap Hnd. rewrite rows_Ok.
  revert res. induction Hnd as [|hit hits Hhit _ IH]; intros res.
  - split; by intros ->%Forall2_nil_inv_l.
  - split; intros (row & others & Hrow & Hrest & ->)%Forall2_cons_inv_l;
      (constructor; [by eapply reconcile_renamed | by apply IH]).
Qed.

Lemma neighbors_renamed q sks self fg_id key_map schema hits res :
  new q sks = (Normal, self) ->
  _fg_vdb_col_td_col_map self !! fg_id = Some key_map ->
  Forall (fun hit => NoDup (Dict.keys (_source hit))) hits ->
  neighbors self schema fg_id hits = Ok res ->
  Forall2 (fun hit o =>
             o.1 = (1 / _score hit - 1)%float
             /\ renamed_and_coerced self schema key_map (_source hit) o.2)
    hits res.
Proof.
  intros Hnew Hmap Hnd. rewrite neighbors_Ok.
  revert res. induction Hnd as [|hit hits Hhit _ IH]; intros res.
  - intros ->%Forall2_nil_inv_l. constructor.
  - intros (o & others & (_ & Hd & Hrow) & Hrest & ->)%Forall2_cons_inv_l.
    constructor; [|by apply IH]. split; [done|].
    eapply reconcile_renamed; [done..|]. by apply reconcile_Ok.
Qed.

Section Returns.
Variable opensearch : list Call -> Call -> result (list Hit).

(** The search that is made again returns what the index answers to its last
    request, and changes nothing of the client but the ceilings. *)
Lemma over_fetch_returns self log col_name q index_name opts k hits :
  let again := over_fetch opensearch self log col_name q index_name opts k in
  outcome again = Ok hits ->
  (exists prev c, calls again = prev ++ [c] /\ opensearch prev c = Ok hits)
  /\ (client again = self
      \/ exists cache, client again = set_index_result_limit_k self cache).
Proof.
  cbv zeta. unfold over_fetch.
  set (probe := discover_limit opensearch self log col_name q index_name opts).
  assert (Hclient : client probe = self
                    \/ exists cache,
                         client probe = set_index_result_limit_k self cache).
  { subst probe. unfold discover_limit.
    destruct (limit_unknown self index_name); [|by left].
    unfold probe_limit, search.
    destruct (set_knn_k col_name _ q) as [q'|e]; [|by left].
    destruct (opensearch log _) as [?|[]]; try (by left).
    destruct (String.eqb _ _ && negb (_ =? 0)%Z); [|by left].
    right. by eexists. }
  destruct (outcome probe) as [q1|e]; cbn [outcome client calls]; [|done].
  destruct (set_knn_k col_name _ q1) as [q2|e]; cbn [outcome client calls];
    [|done].
  unfold search. cbn [outcome client calls]. intros Hhits.
  split; [by eexists _, _ | done].
Qed.

(** What [find_neighbors] returns is the list built from the hits that the
    index answered to the last request of the call. *)
Lemma find_neighbors_returns self log embedding schema feature index_name k
    filter min_score opts res :
  let out := find_neighbors opensearch self log embedding schema feature
               index_name k filter min_score opts in
  outcome out = Ok res ->
  exists ef prev c hits,
    resolve_embedding_feature self feature = Ok ef
    /\ calls out = prev ++ [c]
    /\ opensearch prev c = Ok hits
    /\ neighbors self schema
         (FeatureGroup.id (EmbeddingFeature.feature_group ef)) hits = Ok res.
Proof.
  cbv zeta. unfold find_neighbors.
  destruct (resolve_embedding_feature self feature) as [ef|e];
    cbn [outcome calls]; [|done].
  destruct (check_filter_arg filter _) as [?|e]; cbn [outcome calls]; [|done].
  destruct (knn_query self ef embedding k filter) as [q|e];
    cbn [outcome calls]; [|done].
  unfold search.
  destruct (opensearch log _) as [results|e] eqn:Hfirst;
    cbn [outcome calls]; [|done].
  destruct (negb _ && negb _); cbn [outcome calls].
  - set (again := over_fetch _ _ _ _ _ _ _ _).
    destruct (outcome again) as [hits|e] eqn:Hagain; [|done]. cbn [bind].
    destruct (over_fetch_returns _ _ _ _ _ _ _ _ Hagain)
      as ((prev & c & Hcalls & Hhits) & Hclient).
    fold again in Hcalls, Hclient. intros Hres.
    exists ef, prev, c, hits. split_and!; [done..|].
    destruct Hclient as [Hc|(cache & Hc)]; rewrite Hc in Hres; [done|].
    by rewrite neighbors_cache_irrelevant in Hres.
  - intros Hres. eexists ef, log, _, results. by split_and!.
Qed.

(** What [read] returns is the list built from the hits that the index
    answered to the one request of the call. *)
Lemma read_returns self log fg_id schema keys pk index_name n res :
  let out := read opensearch self log fg_id schema keys pk index_name n in
  outcome out = Ok res ->
  exists c hits,
    calls out = log ++ [c]
    /\ opensearch log c = Ok hits
    /\ rows self schema fg_id hits = Ok res.
Proof.
  cbv zeta. unfold read.
  destruct (_fg_vdb_col_fg_col_map self !! fg_id); cbn [outcome calls]; [|done].
  destruct (match index_name with
            | Some (String _ _ as nm) => Ok nm
            | _ => _get_vector_db_index_name self fg_id
            end) as [nm|e]; cbn [outcome calls]; [|done].
  destruct (read_query self fg_id keys pk n) as [q|e];
    cbn [outcome calls]; [|done].
  unfold search. cbn [outcome calls].
  destruct (opensearch log _) as [hits|e] eqn:Hhits; [|done]. cbn [bind].
  intros Hres. by eexists _, hits.
Qed.
End Returns.

(** C5. Let [key_map] be the physical-to-final map that a client returned by
    [new] holds for a feature group, and [row] a raw result row.  If some key
    of [row] has no entry in [key_map], renaming the row raises the error
    "Feature ... is not found in the query" for such a key, and so do
    [find_neighbors] and [read] when their list of results reaches the row.
    If every key has an entry, renaming returns the row with each key replaced
    by its final column, in the same order and with the same values, and that
    row is what type coercion is given.  And what [find_neighbors] and [read]
    return, when they return, is one entry per hit of the response to their
    last request, in the order of the hits: the row of the hit with each key
    replaced by its final column, same order and same values, then coerced
    (for [find_neighbors], with the distance [1 / score - 1] of the hit). *)
Theorem C5_unmapped_key_raises_else_renamed q sks self fg_id key_map row :
  new q sks = (Normal, self) ->
  _fg_vdb_col_td_col_map self !! fg_id = Some key_map ->
  ((exists key, key ∈ Dict.keys row /\ Dict.get key key_map = None) ->
   exists key,
     key ∈ Dict.keys row /\ Dict.get key key_map = None
     /\ _rewrite_result_key row key_map = Raise (feature_not_found key)
     /\ (forall schema pre hit post done d,
           _source hit = row ->
           neighbors self schema fg_id pre = Ok done ->
           distance (_score hit) = Ok d ->
           neighbors self schema fg_id (pre ++ hit :: post)
           = Raise (feature_not_found key))
     /\ (forall schema pre hit post done,
           _source hit = row ->
           rows self schema fg_id pre = Ok done ->
           rows self schema fg_id (pre ++ hit :: post)
           = Raise (feature_not_found key)))
  /\ (NoDup (Dict.keys row) ->
      (forall key, key ∈ Dict.keys row -> is_Some (Dict.get key key_map)) ->
      exists renamed,
        _rewrite_result_key row key_map = Ok renamed
        /\ renamed_by key_map row renamed
        /\ forall schema,
             reconcile self schema fg_id row
             = _convert_to_pandas_type self schema renamed)
  /\ (forall opensearch,
        rows_are_dicts opensearch ->
        (forall log embedding schema feature index_name k filter min_score
                opts ef res,
           resolve_embedding_feature self feature = Ok ef ->
           FeatureGroup.id (EmbeddingFeature.feature_group ef) = fg_id ->
           let out := find_neighbors opensearch self log embedding schema
                        feature index_name k filter min_score opts in
           outcome out = Ok res ->
           exists prev c hits,
             calls out = prev ++ [c]
             /\ opensearch prev c = Ok hits
             /\ Forall2 (fun hit o =>
                           o.1 = (1 / _score hit - 1)%float
                           /\ renamed_and_coerced self schema key_map
                                (_source hit) o.2)
                  hits res)
        /\ (forall log schema keys pk index_name n res,
              let out := read opensearch self log fg_id schema keys pk
                           index_name n in
              outcome out = Ok res ->
              exists c hits,
                calls out = log ++ [c]
                /\ opensearch log c = Ok hits
                /\ Forall2 (fun hit r =>
                              renamed_and_coerced self schema key_map
                                (_source hit) r)
                     hits res)).
Proof.
  intros Hnew Hmap. split_and!.
  - intros Hmissing.
    destruct (rewrite_items_unmapped row key_map [] Hmissing)
      as (key & Hin & Hnone & Hraise).
    assert (Hrec : forall schema,
              reconcile self schema fg_id row = Raise (feature_not_found key)).
    { intros schema. unfold reconcile, td_col_map, _rewrite_result_key.
      rewrite Hmap. simpl. by rewrite Hraise. }
    exists key. split_and!; [done | done | exact Hraise | |].
    + intros schema pre hit post done d Hsrc Hpre Hd.
      rewrite (neighbors_app _ _ _ _ _ _ Hpre). simpl.
      by rewrite Hd, Hsrc, Hrec.
    + intros schema pre hit post done Hsrc Hpre.
      rewrite (rows_app _ _ _ _ _ _ Hpre). simpl.
      by rewrite Hsrc, Hrec.
  - intros Hnd Hall.
    destruct (rewrite_items_mapped row key_map [] Hnd) as (renamed & Hrun & Hren).
    + by eapply new_td_map_inj.
    + exact Hall.
    + done.
    + exists renamed. split_and!; [exact Hrun | exact Hren |].
      intros schema. unfold reconcile, td_col_map, _rewrite_result_key.
      rewrite Hmap. simpl. by rewrite Hrun.
  - intros opensearch Hdicts. split.
    + intros log embedding schema feature index_name k filter min_score opts
        ef res Hef Hid out Hres.
      destruct (find_neighbors_returns opensearch _ _ _ _ _ _ _ _ _ _ _ Hres)
        as (ef' & prev & c & hits & Hef' & Hcalls & Hhits & Hlist).
      rewrite Hef in Hef'. injection Hef' as <-. rewrite Hid in Hlist.
      exists prev, c, hits. split_and!; [done | done |].
      eapply neighbors_renamed; [done | done | by eapply Hdicts | done].
    + intros log schema keys pk index_name n res out Hres.
      destruct (read_returns opensearch _ _ _ _ _ _ _ _ _ Hres)
        as (c & hits & Hcalls & Hhits & Hlist).
      exists c, hits. split_and!; [done | done |].
      eapply rows_renamed; [done | done | by eapply Hdicts | done].
Qed.

Lemma C5_unmapped_key_raises_else_renamed_witness :
  let self := (new Sample.q1 None).2 in
  let key_map := [("p7_id", "id"); ("p7_age", "age"); ("p7_emb", "emb")] in
  let row := [("p7_age", VInt 30); ("p7_id", VInt 1)] in
  let stray := [("p7_age", VInt 30); ("p8_sku", VStr "s1")] in
  let out :=
    find_neighbors SampleIndex.server self [] SampleIndex.vector [] None None
      4 None VNone VNone in
  (exists renamed,
     _rewrite_result_key row key_map = Ok renamed
     /\ renamed_by key_map row renamed
     /\ forall schema,
          reconcile self schema 7 row
          = _convert_to_pandas_type self schema renamed)
  /\ (exists key,
        key ∈ Dict.keys stray /\ Dict.get key key_map = None
        /\ _rewrite_result_key stray key_map = Raise (feature_not_found key))
  /\ (exists res prev c hits,
        outcome out = Ok res
        /\ calls out = prev ++ [c]
        /\ SampleIndex.server prev c = Ok hits
        /\ Forall2 (fun hit o =>
                      o.1 = (1 / _score hit - 1)%float
                      /\ renamed_and_coerced self [] key_map (_source hit) o.2)
             hits res).
Proof.
  intros self key_map row stray out. split_and!.
  - refine (proj1 (proj2 (C5_unmapped_key_raises_else_renamed
                            Sample.q1 None self 7 key_map row _ _)) _ _).
    + vm_compute. reflexivity.
    + vm_compute. reflexivity.
    + apply NoDup_cons. split.
      * intros Hin. apply list_elem_of_singleton in Hin. discriminate Hin.
      * apply NoDup_singleton.
    + intros key [->|Hin]%elem_of_cons; [by eexists|].
      apply list_elem_of_singleton in Hin as ->. by eexists.
  - destruct (proj1 (C5_unmapped_key_raises_else_renamed
                       Sample.q1 None self 7 key_map stray
                       ltac:(vm_compute; reflexivity)
                       ltac:(vm_compute; reflexivity)))
      as (key & Hin & Hnone & Hraise & _).
    + exists "p8_sku". split; [|reflexivity].
      apply list_elem_of_further, list_elem_of_here.
    + exists key. by split_and!.
  - destruct (proj2 (proj2 (C5_unmapped_key_raises_else_renamed
                              Sample.q1 None self 7 key_map row
                              ltac:(vm_compute; reflexivity)
                              ltac:(vm_compute; reflexivity)))
                SampleIndex.server sample_server_rows_are_dicts)
      as [Hsearch _].
    edestruct (Hsearch [] SampleIndex.vector [] None None 4%Z None VNone VNone
                 SampleIndex.ef)
      as (prev & c & hits & Hcalls & Hhits & Hall).
    + vm_compute. reflexivity.
    + reflexivity.
    + vm_compute. reflexivity.
    + eexists _, prev, c, hits. split_and!; [|done..].
      vm_compute. reflexivity.
Defined.

(** ** Type coercion *)

Lemma convert_feature_falsy self feature row :
  truthy (row_get (Feature.name feature) row) = false ->
  convert_feature self feature row = Ok row.
Proof. intros H. unfold convert_feature. by rewrite H. Qed.

Lemma convert_feature_get self feature row row' nm :
  convert_feature self feature row = Ok row' ->
  Dict.get nm row' = Dict.get nm row \/ nm = Feature.name feature.
Proof.
  unfold convert_feature. intros H.
  destruct (decide (Feature.name feature = nm)) as [<-|Hne]; [by right|left].
  repeat match type of H with
  | (if ?c then _ else _) = _ => destruct c
  | bind ?r _ = _ => destruct r; simpl in H; [|discriminate H]
  | Ok _ = Ok _ => injection H as <-
  end; try done; by rewrite DictFacts.get_set_ne.
Qed.

(** A value that is falsy stays as it is through the whole schema. *)
Lemma convert_keeps_falsy self schema row row' nm :
  truthy (row_get nm row) = false ->
  _convert_to_pandas_type self schema row = Ok row' ->
  Dict.get nm row' = Dict.get nm row.
Proof.
  revert row. induction schema as [|feature schema IH]; intros row Hf H.
  - simpl in H. by injection H as <-.
  - simpl in H.
    destruct (convert_feature self feature row) as [row1|] eqn:Hstep; [|done].
    simpl in H.
    destruct (decide (Feature.name feature = nm)) as [Heq|Hne].
    + subst nm. rewrite (convert_feature_falsy _ _ _ Hf) in Hstep.
      injection Hstep as <-. by apply IH.
    + destruct (convert_feature_get _ _ _ _ nm Hstep) as [Hget|Hnm]; [|by subst].
      rewrite <- Hget. apply IH; [|done].
      unfold row_get in *. by rewrite Hget.
Qed.

(** C8. A raw value that Python treats as false is taken for a missing one:
    the step of the coercion loop for a feature whose value in the row is
    falsy returns the row as it is, whatever the type of the feature; in
    particular the integer 0 under a date or timestamp feature and the empty
    string under a binary feature stay.  Through a whole schema, an entry of
    the row that is falsy is never replaced. *)
Theorem C8_falsy_values_pass_through self schema feature row row' nm :
  truthy (row_get (Feature.name feature) row) = false ->
  truthy (row_get nm row) = false ->
  _convert_to_pandas_type self schema row = Ok row' ->
  convert_feature self feature row = Ok row
  /\ Dict.get nm row' = Dict.get nm row
  /\ convert_feature self SampleSchema.day [("day", VInt 0)]
     = Ok [("day", VInt 0)]
  /\ convert_feature self SampleSchema.seen [("seen", VInt 0)]
     = Ok [("seen", VInt 0)]
  /\ convert_feature self SampleSchema.blob [("blob", VStr "")]
     = Ok [("blob", VStr "")].
Proof.
  intros Hf Hnm Hrun. split_and!; try done.
  - by apply convert_feature_falsy.
  - by eapply convert_keeps_falsy.
Qed.

Lemma C8_falsy_values_pass_through_witness :
  let self := (new Sample.q1 None).2 in
  let row := [("day", VInt 0); ("blob", VStr ""); ("seen", VInt 1700000000000)] in
  convert_feature self SampleSchema.day row = Ok row
  /\ Dict.get "blob"
       [("day", VInt 0); ("blob", VStr "");
        ("seen", VDateTime 2023 11 14 22 13 20)]
     = Dict.get "blob" row
  /\ convert_feature self SampleSchema.day [("day", VInt 0)]
     = Ok [("day", VInt 0)]
  /\ convert_feature self SampleSchema.seen [("seen", VInt 0)]
     = Ok [("seen", VInt 0)]
  /\ convert_feature self SampleSchema.blob [("blob", VStr "")]
     = Ok [("blob", VStr "")].
Proof.
  intros self row.
  apply (C8_falsy_values_pass_through self
           [SampleSchema.day; SampleSchema.seen; SampleSchema.blob]
           SampleSchema.day row _ "blob").
  - vm_compute. reflexivity.
  - vm_compute. reflexivity.
  - vm_compute. reflexivity.
Defined.

(** 1700000000000 ms is a moment of 2023-11-14, and "AQID" is the base64
    text of the bytes 1, 2, 3. *)
Example ex_date :
  Datetime.civil_from_days (1700000000000 / 1000 / 86400) = (2023, 11, 14)%Z.
Proof. vm_compute. reflexivity. Qed.
Example ex_b64 : Base64.b64decode (VStr "AQID") = Ok (VBytes [1;2;3]%Z).
Proof. vm_compute. reflexivity. Qed.
Example ex_lower : Str.lower "DaTe" = "date".
Proof. vm_compute. reflexivity. Qed.

(** The examples of coercion on values that are truthy. *)
Example coerce_date self :
  convert_feature self SampleSchema.day [("day", VInt 1700000000000)]
  = Ok [("day", VDate 2023 11 14)].
Proof. reflexivity. Qed.

Example coerce_timestamp self :
  convert_feature self SampleSchema.seen [("seen", VInt 1700000000000)]
  = Ok [("seen", VDateTime 2023 11 14 22 13 20)].
Proof. reflexivity. Qed.

Example coerce_binary self :
  convert_feature self SampleSchema.blob [("blob", VStr "AQID")]
  = Ok [("blob", VBytes [1; 2; 3]%Z)].
Proof. reflexivity. Qed.

Example coerce_null self :
  convert_feature self SampleSchema.day [("day", VNone)] = Ok [("day", VNone)].
Proof. reflexivity. Qed.

(** C6, at the failing input.  The raw value 0 of a date feature is the
    instant 1970-01-01T00:00:00, whose calendar date [utcfromtimestamp] and
    [date] give as 1970-01-01; the coercion leaves the integer 0 in the row.
    The same holds for a timestamp feature, and the empty base64 text of a
    binary feature, which decodes to no bytes, stays a string. *)
Theorem C6_epoch_zero_is_not_coerced self :
  _convert_to_pandas_type self [SampleSchema.day] [("day", VInt 0)]
  = Ok [("day", VInt 0)]
  /\ (let* secs := floordiv_1000 (VInt 0) in
      let* dt := Datetime.utcfromtimestamp secs in
      Datetime.date dt) = Ok (VDate 1970 1 1)
  /\ _convert_to_pandas_type self [SampleSchema.seen] [("seen", VInt 0)]
     = Ok [("seen", VInt 0)]
  /\ (let* secs := floordiv_1000 (VInt 0) in Datetime.utcfromtimestamp secs)
     = Ok (VDateTime 1970 1 1 0 0 0)
  /\ _convert_to_pandas_type self [SampleSchema.blob] [("blob", VStr "")]
     = Ok [("blob", VStr "")]
  /\ Base64.b64decode (VStr "") = Ok (VBytes []).
Proof. repeat split. Qed.


(** ** Serving keys *)

Lemma new_serving_keys q sks self :
  new q sks = (Normal, self) ->
  _serving_keys self = sks /\ _serving_key_by_serving_index self = ∅.
Proof.
  intros Hnew.
  destruct (new_Normal _ _ _ Hnew) as (self2 & Hfirst & _ & _ & Hsecond).
  apply init_fg_maps_frame in Hfirst as (_ & _ & _ & _ & Hk2 & Hc2).
  apply init_joins_frame in Hsecond as (_ & _ & _ & _ & _ & _ & Hk & Hc).
  rewrite Hk, Hc, Hk2, Hc2. done.
Qed.

Lemma group_lookup sks (m : gmap Z (list ServingKey.t)) j :
  foldl group_step m sks !! j =
  match filter (fun sk => ServingKey.join_index sk = j) sks with
  | [] => m !! j
  | l => Some (default [] (m !! j) ++ l)
  end.
Proof.
  revert m. induction sks as [|sk sks IH]; intros m; [done|].
  simpl. rewrite IH. unfold group_step at 1 2.
  destruct (decide (ServingKey.join_index sk = j)) as [Hj|Hj].
  - rewrite filter_cons_True by done. subst j.
    rewrite lookup_insert_eq. simpl.
    destruct (filter _ sks); [done|]. by rewrite <- app_assoc.
  - rewrite filter_cons_False by done.
    by rewrite lookup_insert_ne.
Qed.

(** A second access answers what the first one answered. *)
Lemma serving_key_by_serving_index_again self :
  (serving_key_by_serving_index (serving_key_by_serving_index self).2).1
  = (serving_key_by_serving_index self).1
  /\ _serving_key_by_serving_index (serving_key_by_serving_index self).2
     = (serving_key_by_serving_index self).1.
Proof.
  destruct (decide (0 < size (_serving_key_by_serving_index self))%nat)
    as [Hpos|Hzero].
  - assert (Hfirst : serving_key_by_serving_index self
                     = (_serving_key_by_serving_index self, self)).
    { unfold serving_key_by_serving_index. by rewrite decide_True. }
    rewrite Hfirst. simpl. by rewrite Hfirst.
  - assert (Hempty : _serving_key_by_serving_index self = ∅).
    { apply map_size_empty_inv. lia. }
    set (g := match _serving_keys self with
              | Some sks => foldl group_step ∅ sks
              | None => ∅
              end).
    assert (Hfirst : serving_key_by_serving_index self
                     = (g, set_serving_key_by_serving_index self g)).
    { unfold serving_key_by_serving_index. rewrite decide_False by done.
      rewrite Hempty. subst g. by destruct (_serving_keys self). }
    rewrite Hfirst. simpl. split; [|done].
    unfold serving_key_by_serving_index. simpl.
    destruct (decide (0 < size g)%nat) as [Hg|Hg]; [done|].
    assert (Hg0 : g = ∅) by (apply map_size_empty_inv; lia).
    rewrite Hg0. simpl. subst g. by destruct (_serving_keys self).
Qed.

(** C7. For a client that [new] returns, the first access to
    [serving_key_by_serving_index] answers the serving keys grouped by join
    index, each group in the order in which the keys were supplied (no group
    at all when no serving keys were supplied), and stores that grouping in
    the client; the second access answers the same grouping. *)
Theorem C7_serving_key_by_serving_index_cached q sks self :
  new q sks = (Normal, self) ->
  let first := serving_key_by_serving_index self in
  let second := serving_key_by_serving_index first.2 in
  second.1 = first.1
  /\ _serving_key_by_serving_index first.2 = first.1
  /\ forall j, first.1 !! j = serving_keys_of (default [] sks) j.
Proof.
  intros Hnew first second.
  destruct (serving_key_by_serving_index_again self) as [Hsame Hcached].
  split; [exact Hsame|]. split; [exact Hcached|].
  intros j. subst first second.
  destruct (new_serving_keys _ _ _ Hnew) as [Hk Hc].
  unfold serving_key_by_serving_index. rewrite Hc, Hk.
  rewrite decide_False by (rewrite map_size_empty; lia).
  destruct sks as [sks|]; simpl.
  - change (foldl group_step ∅ sks !! j = serving_keys_of sks j).
    rewrite group_lookup. unfold serving_keys_of.
    by destruct (filter _ sks).
  - by rewrite lookup_empty.
Qed.

Lemma C7_serving_key_by_serving_index_cached_witness :
  let sks := [SampleKeys.user; SampleKeys.item; SampleKeys.region] in
  let first := serving_key_by_serving_index (new Sample.q (Some sks)).2 in
  let second := serving_key_by_serving_index first.2 in
  second.1 = first.1
  /\ _serving_key_by_serving_index first.2 = first.1
  /\ forall j, first.1 !! j = serving_keys_of sks j.
Proof.
  intros sks.
  apply (C7_serving_key_by_serving_index_cached Sample.q (Some sks)).
  vm_compute. reflexivity.
Defined.

(** A falsy value under the required serving key gives way to the lookup
    under the feature's own name. *)
Lemma serving_key_value_fallback entry sk :
  truthy (entry_get (ServingKey.required_serving_key sk) entry) = false ->
  serving_key_value entry sk = entry_get (ServingKey.feature_name sk) entry.
Proof. intros H. unfold serving_key_value, or_else. by rewrite H. Qed.

Lemma is_None_true v : is_None v = true <-> v = VNone.
Proof. by destruct v. Qed.

(** Through serving keys that resolve, the loop builds the entry and goes
    on. *)
Lemma resolve_serving_keys_app entry pre rest acc :
  (forall sk, sk ∈ pre -> serving_key_value entry sk <> VNone) ->
  resolve_serving_keys entry (pre ++ rest) acc =
  resolve_serving_keys entry rest
    (foldl (fun acc sk =>
              Dict.set (ServingKey.feature_name sk) (serving_key_value entry sk) acc)
           acc pre).
Proof.
  revert acc. induction pre as [|sk pre IH]; intros acc Hall; [done|].
  simpl. destruct (is_None (serving_key_value entry sk)) eqn:Hn.
  - apply is_None_true in Hn. exfalso. by apply (Hall sk); [apply list_elem_of_here|].
  - apply IH. intros sk' Hin. apply Hall. by apply list_elem_of_further.
Qed.

Lemma resolved_get_other entry sks acc nm :
  nm ∉ ServingKey.feature_name <$> sks ->
  Dict.get nm
    (foldl (fun acc sk =>
              Dict.set (ServingKey.feature_name sk) (serving_key_value entry sk) acc)
           acc sks)
  = Dict.get nm acc.
Proof.
  revert acc. induction sks as [|sk sks IH]; intros acc Hnot; [done|].
  simpl. rewrite fmap_cons in Hnot. apply not_elem_of_cons in Hnot as [Hne Hnot].
  rewrite IH by done. by apply DictFacts.get_set_ne.
Qed.

(** C10. In [filter_entry_by_join_index] the value of a serving key whose
    required name carries a falsy value in the entry (0, the empty string, or
    nothing) is the value that the entry has under the feature's own name.
    When the serving keys of the join index are [pre], then [sk], then [post],
    the keys of [pre] resolve to something other than [None] and [sk] resolves
    to [None], the call answers [complete = False] together with the entry
    built from [pre] and [sk] alone: [sk] is in it with [None], and no serving
    key of [post] is, unless one before it has the same feature name. *)
Theorem C10_falsy_fallback_and_stop_at_none self entry j pre sk post :
  (serving_key_by_serving_index self).1 !! j = Some (pre ++ sk :: post) ->
  (forall sk', sk' ∈ pre -> serving_key_value entry sk' <> VNone) ->
  serving_key_value entry sk = VNone ->
  (forall sk0,
     truthy (entry_get (ServingKey.required_serving_key sk0) entry) = false ->
     serving_key_value entry sk0 = entry_get (ServingKey.feature_name sk0) entry)
  /\ (filter_entry_by_join_index self entry j).1
     = Ok (false, resolved_entry entry (pre ++ [sk]))
  /\ Dict.get (ServingKey.feature_name sk) (resolved_entry entry (pre ++ [sk]))
     = Some VNone
  /\ (forall sk', sk' ∈ post ->
        ServingKey.feature_name sk' ∉ ServingKey.feature_name <$> pre ++ [sk] ->
        Dict.get (ServingKey.feature_name sk') (resolved_entry entry (pre ++ [sk]))
        = None).
Proof.
  intros Hsks Hpre Hsk. split_and!.
  - intros sk0. apply serving_key_value_fallback.
  - unfold filter_entry_by_join_index.
    destruct (serving_key_by_serving_index self) as [by_index self'].
    simpl in Hsks. rewrite Hsks. simpl. f_equal.
    rewrite (resolve_serving_keys_app _ _ _ _ Hpre). simpl.
    rewrite Hsk. simpl. unfold resolved_entry. by rewrite foldl_snoc, Hsk.
  - unfold resolved_entry. by rewrite foldl_snoc, Hsk, DictFacts.get_set_eq.
  - intros sk' _ Hnot. unfold resolved_entry. by rewrite resolved_get_other.
Qed.

Lemma C10_falsy_fallback_and_stop_at_none_witness :
  let sks := [SampleKeys.user; SampleKeys.item; SampleKeys.region; SampleKeys.shop] in
  let self := (new Sample.q (Some sks)).2 in
  let entry := [("user_id", VInt 0); ("uid", VStr "u1");
                ("region_code", VStr ""); ("shop_id", VInt 5)] in
  (forall sk0,
     truthy (entry_get (ServingKey.required_serving_key sk0) entry) = false ->
     serving_key_value entry sk0 = entry_get (ServingKey.feature_name sk0) entry)
  /\ (filter_entry_by_join_index self entry 0).1
     = Ok (false, [("uid", VStr "u1"); ("region", VNone)])
  /\ Dict.get "region" [("uid", VStr "u1"); ("region", VNone)] = Some VNone
  /\ (forall sk', sk' ∈ [SampleKeys.shop] ->
        ServingKey.feature_name sk' ∉ ["uid"; "region"] ->
        Dict.get (ServingKey.feature_name sk') [("uid", VStr "u1"); ("region", VNone)]
        = None).
Proof.
  intros sks self entry.
  apply (C10_falsy_fallback_and_stop_at_none self entry 0
           [SampleKeys.user] SampleKeys.region [SampleKeys.shop]).
  - vm_compute. reflexivity.
  - intros sk' Hin. apply list_elem_of_singleton in Hin as ->.
    vm_compute. discriminate.
  - vm_compute. reflexivity.
Defined.

(** The examples of key resolution. *)
Example resolve_by_required_name :
  resolve_serving_keys [("user_id", VStr "u1")] [SampleKeys.user] []
  = (true, [("uid", VStr "u1")]).
Proof. reflexivity. Qed.

Example resolve_nothing :
  resolve_serving_keys [] [SampleKeys.user] [] = (false, [("uid", VNone)]).
Proof. reflexivity. Qed.

Example resolve_zero_is_absent :
  resolve_serving_keys [("user_id", VInt 0)] [SampleKeys.user] []
  = (false, [("uid", VNone)]).
Proof. reflexivity. Qed.


(** ** Adaptive over-fetch *)

(** Assigning the [k] of the knn clause changes that field of the request
    body and nothing else. *)
Lemma set_knn_k_body col emb size kk clauses src k' :
  set_knn_k col k' (knn_body col emb size kk clauses src)
  = Ok (knn_body col emb size k' clauses src).
Proof.
  unfold set_knn_k, knn_body, with_key, with_first, setitem. simpl.
  rewrite !decide_True by done. simpl. by rewrite !decide_True by done.
Qed.

#[local] Arguments set_knn_k : simpl never.
#[local] Arguments knn_body : simpl never.
#[local] Arguments knn_call : simpl never.

Section OverFetch.
Variable opensearch : list Call -> Call -> result (list Hit).
Variables (self : VectorDbClient) (log : list Call).
Variables (embedding : Val) (schema : list Feature.t).
Variables (feature : option Feature.t) (index_name : option string).
Variables (k : Z) (filter : option FilterOrLogic) (min_score opts : Val).
Variables (ef : EmbeddingFeature.t) (clauses : list Val).
Variables (m : list (string * Feature.t)) (first_hits : list Hit).

Let ei := EmbeddingFeature.embedding_index ef.
Let fg_id := FeatureGroup.id (EmbeddingFeature.feature_group ef).
Let idx := index_name_or index_name (EmbeddingIndex.index_name ei).
Let request := knn_call ef embedding index_name opts clauses (Dict.keys m) k.

Hypothesis Hef : resolve_embedding_feature self feature = Ok ef.
Hypothesis Hcheck :
  check_filter_arg filter (EmbeddingFeature.feature_group ef) = Ok tt.
Hypothesis Hclauses :
  get_query_filter_arg filter (Some (EmbeddingIndex.col_prefix ei)) = Ok clauses.
Hypothesis Hsource : _fg_vdb_col_fg_col_map self !! fg_id = Some m.
Hypothesis Hproject : EmbeddingIndex.col_prefix ei <> "".
Hypothesis Hfirst : opensearch log (request k) = Ok first_hits.
Hypothesis Hcount : Z.of_nat (length first_hits) <> k.

Let out :=
  find_neighbors opensearch self log embedding schema feature index_name k
    filter min_score opts.
Let again :=
  over_fetch opensearch self (log ++ [request k]) (col_name_of ef)
    (body (request k)) idx opts k.

(** In this situation [find_neighbors] answers from the second search. *)
Lemma find_neighbors_over_fetches :
  out = {| outcome := (let* results := outcome again in
                       neighbors (client again) schema fg_id results);
           client := client again;
           calls := calls again |}.
Proof.
  subst out again. unfold find_neighbors.
  rewrite Hef, Hcheck. unfold knn_query. fold ei. rewrite Hclauses.
  cbn [bind]. fold fg_id. rewrite Hsource. unfold search.
  change {| body := knn_body (col_name_of ef) embedding k k clauses (Dict.keys m);
            index := index_name_or index_name (EmbeddingIndex.index_name ei);
            options := opts |} with (request k).
  rewrite Hfirst.
  assert (Hp : String.eqb (EmbeddingIndex.col_prefix ei) "" = false)
    by by apply String.eqb_neq.
  assert (Hc : (Z.of_nat (length first_hits) =? k)%Z = false)
    by by apply Z.eqb_neq.
  by rewrite Hp, Hc.
Qed.

(** With a ceiling in the cache there is no probe. *)
Lemma over_fetch_cached limit :
  _index_result_limit_k self !! idx = Some limit -> limit <> 0%Z ->
  again = {| outcome := opensearch (log ++ [request k])
                          (request (Z.min limit (3 * k)));
             client := self;
             calls := log ++ [request k; request (Z.min limit (3 * k))] |}.
Proof.
  intros Hlimit Hnz. subst again request. unfold knn_call. cbn [body].
  assert (Hknown : limit_unknown self idx = false).
  { unfold limit_unknown. rewrite Hlimit. by apply Z.eqb_neq. }
  unfold over_fetch, discover_limit. rewrite Hknown.
  cbn [outcome client calls]. rewrite Hlimit.
  change (default k (Some limit)) with limit.
  rewrite set_knn_k_body. unfold search. by rewrite <- app_assoc.
Qed.

(** Without one, the probe is the request with the largest k. *)
Lemma discover_limit_probes q :
  _index_result_limit_k self !! idx = None ->
  discover_limit opensearch self (log ++ [request k]) (col_name_of ef) q idx opts
  = probe_limit opensearch self (log ++ [request k]) (col_name_of ef) q idx opts.
Proof.
  intros Hnone. unfold discover_limit, limit_unknown. by rewrite Hnone.
Qed.

Lemma over_fetch_discovered info limit :
  _index_result_limit_k self !! idx = None ->
  opensearch (log ++ [request k]) (request (2 ^ 31 - 1))
  = Raise (VectorDatabaseException REQUESTED_K_TOO_LARGE info) ->
  Dict.get REQUESTED_K_TOO_LARGE_INFO_K info = Some limit -> limit <> 0%Z ->
  again = {| outcome := opensearch (log ++ [request k; request (2 ^ 31 - 1)])
                          (request (Z.min limit (3 * k)));
             client := set_index_result_limit_k self
                         (<[idx := limit]> (_index_result_limit_k self));
             calls := log ++ [request k; request (2 ^ 31 - 1);
                              request (Z.min limit (3 * k))] |}.
Proof.
  intros Hnone Hprobe Hinfo Hnz. subst again. unfold over_fetch.
  rewrite (discover_limit_probes _ Hnone).
  subst request idx ei. unfold knn_call in *. cbn [body].
  unfold probe_limit. rewrite set_knn_k_body. unfold search.
  rewrite Hprobe, Hinfo. change (default 0%Z (Some limit)) with limit.
  apply Z.eqb_neq in Hnz. rewrite Hnz, String.eqb_refl.
  cbn [outcome client calls andb negb _index_result_limit_k
       set_index_result_limit_k].
  rewrite lookup_insert_eq. change (default k (Some limit)) with limit.
  rewrite set_knn_k_body. by rewrite <- !app_assoc.
Qed.

Lemma over_fetch_probe_failed e :
  _index_result_limit_k self !! idx = None ->
  opensearch (log ++ [request k]) (request (2 ^ 31 - 1)) = Raise e ->
  unrecognised e ->
  again = {| outcome := Raise e; client := self;
             calls := log ++ [request k; request (2 ^ 31 - 1)] |}.
Proof.
  intros Hnone Hprobe Hun. subst again. unfold over_fetch.
  rewrite (discover_limit_probes _ Hnone).
  subst request idx ei. unfold knn_call in *. cbn [body].
  unfold probe_limit. rewrite set_knn_k_body. unfold search.
  rewrite Hprobe. rewrite <- app_assoc.
  destruct e as [| | | | | | | | reason info | | |]; try done.
  destruct (String.eqb reason REQUESTED_K_TOO_LARGE) eqn:Hreason; [|done].
  apply String.eqb_eq in Hreason as ->.
  destruct (Dict.get REQUESTED_K_TOO_LARGE_INFO_K info) as [limit|] eqn:Hinfo;
    [|done].
  change (default 0%Z (Some limit)) with limit.
  by rewrite (Hun info limit eq_refl Hinfo).
Qed.

Lemma over_fetch_probe_returned hits :
  _index_result_limit_k self !! idx = None ->
  opensearch (log ++ [request k]) (request (2 ^ 31 - 1)) = Ok hits ->
  again = {| outcome := opensearch (log ++ [request k; request (2 ^ 31 - 1)])
                          (request (Z.min k (3 * k)));
             client := self;
             calls := log ++ [request k; request (2 ^ 31 - 1);
                              request (Z.min k (3 * k))] |}.
Proof.
  intros Hnone Hprobe. subst again. unfold over_fetch.
  rewrite (discover_limit_probes _ Hnone).
  subst request idx ei. unfold knn_call in *. cbn [body].
  unfold probe_limit. rewrite set_knn_k_body. unfold search.
  rewrite Hprobe. cbn [outcome client calls]. rewrite Hnone.
  change (default k None) with k.
  rewrite set_knn_k_body. by rewrite <- !app_assoc.
Qed.
(** C2. [find_neighbors] is called for an embedding feature of a project
    index (non-empty column prefix) and the first search returns a number of
    hits other than [k].  When no ceiling is cached for the index name, one
    probe with k = 2^31 - 1 follows.  If the probe fails with "requested k
    too large" and a maximum in its payload, the maximum is cached under the
    index name, the search is made a third time with k = min(maximum, 3k),
    and the hits of that search are what the call converts and returns.  If
    the probe fails in any other way, the call raises that error after the
    probe and the client is unchanged.  When a ceiling is cached, the call
    makes no probe: the second search has k = min(ceiling, 3k) and its hits
    are returned; a client that has gone through the discovery is in this
    case for the index name from then on.  That the hits of the search made
    again are returned is: an error of that search is raised, and the call
    returns a list exactly when every one of these hits has its pair (the
    distance [1 / score - 1] and the row renamed and coerced), and then
    returns the pairs, one per hit, in the order of the hits. *)
Theorem C2_probe_once_then_retry :
  (forall info limit,
     _index_result_limit_k self !! idx = None ->
     opensearch (log ++ [request k]) (request (2 ^ 31 - 1))
     = Raise (VectorDatabaseException REQUESTED_K_TOO_LARGE info) ->
     Dict.get REQUESTED_K_TOO_LARGE_INFO_K info = Some limit ->
     limit <> 0%Z ->
     calls out = log ++ [request k; request (2 ^ 31 - 1);
                         request (Z.min limit (3 * k))]
     /\ client out = set_index_result_limit_k self
                       (<[idx := limit]> (_index_result_limit_k self))
     /\ _index_result_limit_k (client out) !! idx = Some limit
     /\ outcome out =
        (let* hits := opensearch (log ++ [request k; request (2 ^ 31 - 1)])
                        (request (Z.min limit (3 * k))) in
         neighbors (client out) schema fg_id hits)
     /\ (forall e,
           opensearch (log ++ [request k; request (2 ^ 31 - 1)])
             (request (Z.min limit (3 * k))) = Raise e ->
           outcome out = Raise e)
     /\ (forall hits,
           opensearch (log ++ [request k; request (2 ^ 31 - 1)])
             (request (Z.min limit (3 * k))) = Ok hits ->
           forall res,
             outcome out = Ok res
             <-> Forall2 (neighbor_of self schema fg_id) hits res))
  /\ (forall e,
        _index_result_limit_k self !! idx = None ->
        opensearch (log ++ [request k]) (request (2 ^ 31 - 1)) = Raise e ->
        unrecognised e ->
        outcome out = Raise e
        /\ client out = self
        /\ calls out = log ++ [request k; request (2 ^ 31 - 1)])
  /\ (forall limit,
        _index_result_limit_k self !! idx = Some limit -> limit <> 0%Z ->
        calls out = log ++ [request k; request (Z.min limit (3 * k))]
        /\ client out = self
        /\ outcome out =
           (let* hits := opensearch (log ++ [request k])
                           (request (Z.min limit (3 * k))) in
            neighbors self schema fg_id hits)
        /\ (forall e,
              opensearch (log ++ [request k]) (request (Z.min limit (3 * k)))
              = Raise e ->
              outcome out = Raise e)
        /\ (forall hits,
              opensearch (log ++ [request k]) (request (Z.min limit (3 * k)))
              = Ok hits ->
              forall res,
                outcome out = Ok res
                <-> Forall2 (neighbor_of self schema fg_id) hits res)).
Proof.
  rewrite find_neighbors_over_fetches. split_and!.
  - intros info limit Hnone Hprobe Hinfo Hnz.
    rewrite (over_fetch_discovered _ _ Hnone Hprobe Hinfo Hnz).
    cbn [outcome client calls]. split_and!; try done.
    + cbn [_index_result_limit_k set_index_result_limit_k].
      by rewrite lookup_insert_eq.
    + intros e He. by rewrite He.
    + intros hits Hhits res. rewrite Hhits. cbn [bind].
      rewrite neighbors_cache_irrelevant. apply neighbors_Ok.
  - intros e Hnone Hprobe Hun.
    by rewrite (over_fetch_probe_failed _ Hnone Hprobe Hun).
  - intros limit Hlimit Hnz.
    rewrite (over_fetch_cached _ Hlimit Hnz).
    cbn [outcome client calls]. split_and!; try done.
    + intros e He. by rewrite He.
    + intros hits Hhits res. rewrite Hhits. cbn [bind]. apply neighbors_Ok.
Qed.

(** C9. Every request of the call carries the requested [k] as its [size],
    whatever the k of its knn clause.  The request of the search that is
    made again is the first request with the k of the knn clause replaced by
    min(ceiling, 3k), where the ceiling is the cached one, or the one just
    discovered, or [k] itself when the probe returned without an error. *)
Theorem C9_retry_keeps_size :
  (forall knn_k,
     size_of (request knn_k) = Some (VInt k)
     /\ set_knn_k (col_name_of ef) knn_k (body (request k))
        = Ok (body (request knn_k))
     /\ index (request knn_k) = index (request k)
     /\ options (request knn_k) = options (request k))
  /\ (forall limit,
        _index_result_limit_k self !! idx = Some limit -> limit <> 0%Z ->
        last (calls out) = Some (request (Z.min limit (3 * k))))
  /\ (forall info limit,
        _index_result_limit_k self !! idx = None ->
        opensearch (log ++ [request k]) (request (2 ^ 31 - 1))
        = Raise (VectorDatabaseException REQUESTED_K_TOO_LARGE info) ->
        Dict.get REQUESTED_K_TOO_LARGE_INFO_K info = Some limit ->
        limit <> 0%Z ->
        last (calls out) = Some (request (Z.min limit (3 * k))))
  /\ (forall hits,
        _index_result_limit_k self !! idx = None ->
        opensearch (log ++ [request k]) (request (2 ^ 31 - 1)) = Ok hits ->
        last (calls out) = Some (request (Z.min k (3 * k)))).
Proof.
  rewrite find_neighbors_over_fetches. split_and!.
  - intros knn_k. split_and!; try done. apply set_knn_k_body.
  - intros limit Hlimit Hnz.
    rewrite (over_fetch_cached _ Hlimit Hnz). cbn [calls].
    by rewrite (last_app_cons log), last_cons_cons.
  - intros info limit Hnone Hprobe Hinfo Hnz.
    rewrite (over_fetch_discovered _ _ Hnone Hprobe Hinfo Hnz). cbn [calls].
    by rewrite (last_app_cons log), !last_cons_cons.
  - intros hits Hnone Hprobe.
    rewrite (over_fetch_probe_returned _ Hnone Hprobe). cbn [calls].
    by rewrite (last_app_cons log), !last_cons_cons.
Qed.
End OverFetch.

Lemma C2_probe_once_then_retry_witness :
  let self := (new Sample.q1 None).2 in
  let first :=
    find_neighbors SampleIndex.server self [] SampleIndex.vector []
      None None 10 None VNone VNone in
  let second :=
    find_neighbors SampleIndex.server (client first) (calls first)
      SampleIndex.vector [] None None 10 None VNone VNone in
  (calls first = [SampleIndex.request 10; SampleIndex.request (2 ^ 31 - 1);
                  SampleIndex.request 30]
   /\ _index_result_limit_k (client first) !! "project_index" = Some 50%Z
   /\ forall res,
        outcome first = Ok res
        <-> Forall2 (neighbor_of self [] 7) SampleIndex.ten_hits res)
  /\ calls second = calls first ++ [SampleIndex.request 10; SampleIndex.request 30].
Proof.
  intros self first second. split.
  - destruct (C2_probe_once_then_retry SampleIndex.server self []
                SampleIndex.vector [] None None 10 None VNone VNone
                SampleIndex.ef [] SampleIndex.source SampleIndex.four_hits)
      as (Hdiscover & _ & _).
    + vm_compute. reflexivity.
    + vm_compute. reflexivity.
    + vm_compute. reflexivity.
    + vm_compute. reflexivity.
    + discriminate.
    + vm_compute. reflexivity.
    + simpl. lia.
    + destruct (Hdiscover [(REQUESTED_K_TOO_LARGE_INFO_K, 50%Z)] 50%Z)
        as (Hcalls & _ & Hcache & _ & _ & Hreturned).
      * vm_compute. reflexivity.
      * vm_compute. reflexivity.
      * vm_compute. reflexivity.
      * lia.
      * split_and!; [exact Hcalls | exact Hcache |].
        apply (Hreturned SampleIndex.ten_hits). vm_compute. reflexivity.
  - destruct (C2_probe_once_then_retry SampleIndex.server (client first)
                (calls first) SampleIndex.vector [] None None 10 None VNone VNone
                SampleIndex.ef [] SampleIndex.source SampleIndex.four_hits)
      as (_ & _ & Hcached).
    + vm_compute. reflexivity.
    + vm_compute. reflexivity.
    + vm_compute. reflexivity.
    + vm_compute. reflexivity.
    + discriminate.
    + vm_compute. reflexivity.
    + simpl. lia.
    + destruct (Hcached 50%Z) as (Hcalls & _ & _).
      * vm_compute. reflexivity.
      * lia.
      * exact Hcalls.
Defined.

Lemma C9_retry_keeps_size_witness :
  let self := (new Sample.q1 None).2 in
  let out :=
    find_neighbors SampleIndex.server self [] SampleIndex.vector []
      None None 10 None VNone VNone in
  last (calls out) = Some (SampleIndex.request 30)
  /\ size_of (SampleIndex.request 30) = Some (VInt 10).
Proof.
  intros self out.
  destruct (C9_retry_keeps_size SampleIndex.server self []
              SampleIndex.vector [] None None 10 None VNone VNone
              SampleIndex.ef [] SampleIndex.source SampleIndex.four_hits)
    as (Hsize & _ & Hdiscover & _).
  - vm_compute. reflexivity.
  - vm_compute. reflexivity.
  - vm_compute. reflexivity.
  - vm_compute. reflexivity.
  - discriminate.
  - vm_compute. reflexivity.
  - simpl. lia.
  - split.
    + apply (Hdiscover [(REQUESTED_K_TOO_LARGE_INFO_K, 50%Z)] 50%Z).
      * vm_compute. reflexivity.
      * vm_compute. reflexivity.
      * vm_compute. reflexivity.
      * lia.
    + apply (Hsize 30%Z).
Defined.

(** The adaptive over-fetch example: the call returns the ten hits of the
    third search, each of score 0.5 at the distance 1, with their rows under
    the final columns. *)
Example over_fetch_returns_retried_hits :
  outcome (find_neighbors SampleIndex.server (new Sample.q1 None).2 []
             SampleIndex.vector [] None None 10 None VNone VNone)
  = Ok ((fun n => (1%float, [("id", VInt n); ("age", VInt 30)]))
          <$> [1; 2; 3; 4; 5; 6; 7; 8; 9; 10]%Z).
Proof. vm_compute. reflexivity. Qed.


(** * Further properties *)

(** ** The column maps of the first pass *)

Lemma col_maps_agree_empty cp : col_maps_agree cp ([], []).
Proof.
  split_and!; try done.
  - split; by intros [? ?].
  - apply NoDup_nil_2.
  - apply NoDup_nil_2.
Qed.

Lemma col_maps_step cp n0 f0 m :
  Feature.name f0 = n0 ->
  col_maps_agree cp m ->
  col_maps_agree cp (Dict.set (cp +:+ n0) f0 m.1, Dict.set n0 (cp +:+ n0) m.2).
Proof.
  intros Hname (H1 & H2 & H3 & H4 & H5). split_and!; simpl.
  - intros n c. rewrite DictFacts.get_set.
    destruct (decide (n0 = n)) as [<-|Hne]; [by intros [= <-] | apply H1].
  - intros key f. rewrite DictFacts.get_set.
    destruct (decide (cp +:+ n0 = key)) as [<-|Hne]; [|apply H2].
    intros [= <-]. by rewrite Hname.
  - intros n. rewrite !DictFacts.get_set.
    destruct (decide (n0 = n)) as [<-|Hne].
    + rewrite decide_True by done. split; by eauto.
    + rewrite decide_False; [apply H3|].
      intros Heq. by apply append_inj_r in Heq.
  - by apply DictFacts.NoDup_keys_set.
  - by apply DictFacts.NoDup_keys_set.
Qed.

Lemma col_maps_step_dom cp n0
    (m : list (string * Feature.t) * list (string * string)) n :
  is_Some (Dict.get n (Dict.set n0 (cp +:+ n0) m.2))
  <-> is_Some (Dict.get n m.2) \/ n = n0.
Proof.
  rewrite DictFacts.get_set. destruct (decide (n0 = n)) as [<-|Hne].
  - split; [by right | by eauto].
  - split; [by left | intros [?|?]; [done | congruence]].
Qed.

Lemma add_feature_cols_agree cp fs m :
  col_maps_agree cp m ->
  col_maps_agree cp (add_feature_cols cp fs m)
  /\ forall n, is_Some (Dict.get n (add_feature_cols cp fs m).2)
               <-> is_Some (Dict.get n m.2) \/ n ∈ Feature.name <$> fs.
Proof.
  revert m. induction fs as [|f fs IH]; intros m Hm.
  - split; [done|]. intros n. rewrite fmap_nil, elem_of_nil. tauto.
  - unfold add_feature_cols in *. cbn [foldl].
    destruct (IH _ (col_maps_step cp (Feature.name f) f m eq_refl Hm))
      as [Hagree Hdom].
    split; [exact Hagree|]. intros n. rewrite Hdom. cbn [snd].
    rewrite (col_maps_step_dom cp (Feature.name f) m n).
    rewrite fmap_cons, elem_of_cons. tauto.
Qed.

Lemma add_primary_key_cols_agree fg cp pks m m' :
  add_primary_key_cols fg cp pks m = Ok m' ->
  col_maps_agree cp m ->
  col_maps_agree cp m'
  /\ forall n, is_Some (Dict.get n m'.2) <-> is_Some (Dict.get n m.2) \/ n ∈ pks.
Proof.
  revert m. induction pks as [|pk pks IH]; intros m Hrun Hm.
  - injection Hrun as <-. split; [done|]. intros n. rewrite elem_of_nil. tauto.
  - cbn [add_primary_key_cols] in Hrun.
    destruct (FeatureGroup.getitem fg pk) as [f|e] eqn:Hf; [|done].
    cbn [bind] in Hrun. apply getitem_Ok in Hf as [_ Hname].
    destruct (IH _ Hrun (col_maps_step cp pk f m Hname Hm)) as [Hagree Hdom].
    split; [exact Hagree|]. intros n. rewrite Hdom. cbn [snd].
    rewrite (col_maps_step_dom cp pk m n), elem_of_cons. tauto.
Qed.

Lemma vdb_pks_prefixed cp (a : list (string * Feature.t)) b pks :
  col_maps_agree cp (a, b) ->
  (forall pk, pk ∈ pks -> is_Some (Dict.get pk b)) ->
  vdb_pks b pks = Ok ((fun pk => cp +:+ pk) <$> pks).
Proof.
  intros (H1 & _) Hall. induction pks as [|pk pks IH]; [done|].
  cbn [vdb_pks]. destruct (Hall pk) as [c Hc]; [apply list_elem_of_here|].
  rewrite Hc. rewrite IH.
  - simpl in H1. by rewrite (H1 pk c Hc).
  - intros pk' Hin. apply Hall. by apply list_elem_of_further.
Qed.

(** The first pass touches the tables only under the ids of the
    embedding-bearing feature groups that it goes through. *)
Lemma init_fg_maps_unchanged qs self c self' id :
  init_fg_maps qs self = (c, self') ->
  (forall q, q ∈ qs ->
     is_Some (FeatureGroup.embedding_index (_left_feature_group q)) ->
     FeatureGroup.id (_left_feature_group q) <> id) ->
  _fg_vdb_col_fg_col_map self' !! id = _fg_vdb_col_fg_col_map self !! id
  /\ _fg_col_vdb_col_map self' !! id = _fg_col_vdb_col_map self !! id
  /\ _fg_id_to_vdb_pks self' !! id = _fg_id_to_vdb_pks self !! id
  /\ _fg_embedding_map self' !! id = _fg_embedding_map self !! id.
Proof.
  revert self. induction qs as [|q qs IH]; intros self Hrun Hother.
  - by injection Hrun as <- <-.
  - cbn [init_fg_maps] in Hrun.
    assert (Hrest : forall q', q' ∈ qs ->
              is_Some (FeatureGroup.embedding_index (_left_feature_group q')) ->
              FeatureGroup.id (_left_feature_group q') <> id).
    { intros q' Hin. apply Hother. by apply list_elem_of_further. }
    destruct (FeatureGroup.embedding_index (_left_feature_group q))
      as [ei|] eqn:Hei; [|by apply IH].
    assert (Hid : FeatureGroup.id (_left_feature_group q) <> id).
    { apply Hother; [apply list_elem_of_here | by rewrite Hei]. }
    destruct (add_primary_key_cols _ _ _ _) as [[a b]|e];
      [|by injection Hrun as <- <-].
    destruct (vdb_pks _ _) as [pks|e].
    + destruct (IH _ Hrun Hrest) as (-> & -> & -> & ->). simpl.
      by rewrite !lookup_insert_ne.
    + injection Hrun as <- <-. simpl. by rewrite lookup_insert_ne.
Qed.

(** Under the id of a feature group that one sub-query only scans, a first
    pass that completes leaves the maps built from that sub-query. *)
Lemma init_fg_maps_at qs self self' n q ei :
  init_fg_maps qs self = (Normal, self') ->
  qs !! n = Some q ->
  FeatureGroup.embedding_index (_left_feature_group q) = Some ei ->
  (forall n' q', qs !! n' = Some q' ->
     is_Some (FeatureGroup.embedding_index (_left_feature_group q')) ->
     FeatureGroup.id (_left_feature_group q') = FeatureGroup.id (_left_feature_group q) ->
     n' = n) ->
  let fg := _left_feature_group q in
  let cp := EmbeddingIndex.col_prefix ei in
  exists a b,
    add_primary_key_cols fg cp (FeatureGroup.primary_key fg)
      (add_feature_cols cp (_left_features q) ([], [])) = Ok (a, b)
    /\ _fg_vdb_col_fg_col_map self' !! FeatureGroup.id fg = Some a
    /\ _fg_col_vdb_col_map self' !! FeatureGroup.id fg = Some b
    /\ _fg_id_to_vdb_pks self' !! FeatureGroup.id fg
       = Some ((fun pk => cp +:+ pk) <$> FeatureGroup.primary_key fg)
    /\ _fg_embedding_map self' !! FeatureGroup.id fg = Some ei.
Proof.
  cbv zeta.
  revert self n. induction qs as [|q0 qs IH]; intros self n Hrun Hn Hei Huniq;
    [done|].
  cbn [init_fg_maps] in Hrun. destruct n as [|n]; simpl in Hn.
  - injection Hn as ->. rewrite Hei in Hrun.
    destruct (add_primary_key_cols _ _ _ _) as [[a b]|e] eqn:Hadd; [|done].
    destruct (add_feature_cols_agree (EmbeddingIndex.col_prefix ei)
                (_left_features q) ([], []) (col_maps_agree_empty _))
      as [Hagree0 _].
    destruct (add_primary_key_cols_agree _ _ _ _ _ Hadd Hagree0)
      as [Hagree Hdom].
    assert (Hpks : vdb_pks b (FeatureGroup.primary_key (_left_feature_group q))
                   = Ok ((fun pk => EmbeddingIndex.col_prefix ei +:+ pk)
                           <$> FeatureGroup.primary_key (_left_feature_group q))).
    { eapply vdb_pks_prefixed; [exact Hagree|].
      intros pk Hpk. apply Hdom. by right. }
    rewrite Hpks in Hrun.
    apply init_fg_maps_unchanged
      with (id := FeatureGroup.id (_left_feature_group q)) in Hrun
      as (-> & -> & -> & ->).
    + exists a, b. simpl. by rewrite !lookup_insert_eq.
    + intros q' Hin Hemb Hid.
      apply list_elem_of_lookup_1 in Hin as [n' Hn'].
      by specialize (Huniq (S n') q' Hn' Hemb Hid).
  - assert (Huniq' : forall n' q', qs !! n' = Some q' ->
       is_Some (FeatureGroup.embedding_index (_left_feature_group q')) ->
       FeatureGroup.id (_left_feature_group q')
       = FeatureGroup.id (_left_feature_group q) -> n' = n).
    { intros n' q' Hn' Hemb Hid.
      specialize (Huniq (S n') q' Hn' Hemb Hid). lia. }
    destruct (FeatureGroup.embedding_index (_left_feature_group q0));
      [|by eapply IH].
    destruct (add_primary_key_cols (_left_feature_group q0) _ _ _)
      as [[a b]|e]; [|done].
    destruct (vdb_pks _ _) as [pks|e]; [|done].
    by eapply IH.
Qed.

(** A second pass that completes has met no feature-group id twice. *)
Lemma init_joins_Normal_distinct js i self self' n1 n2 j1 j2 :
  init_joins i js self = (Normal, self') ->
  js !! n1 = Some j1 -> js !! n2 = Some j2 ->
  is_Some (FeatureGroup.embedding_index (_left_feature_group (query j1))) ->
  is_Some (FeatureGroup.embedding_index (_left_feature_group (query j2))) ->
  FeatureGroup.id (_left_feature_group (query j1))
  = FeatureGroup.id (_left_feature_group (query j2)) ->
  n1 = n2.
Proof.
  intros Hrun H1 H2 [e1 He1] [e2 He2] Hid.
  destruct (Nat.lt_trichotomy n1 n2) as [Hlt|[Heq|Hgt]]; [|done|].
  - destruct (init_joins_twice js i self n1 n2 j1 j2 e1 e2) as (s & Hs & _);
      try done. congruence.
  - destruct (init_joins_twice js i self n2 n1 j2 j1 e2 e1) as (s & Hs & _);
      try done. congruence.
Qed.

Lemma new_distinct q sks self :
  new q sks = (Normal, self) -> embedding_ids_distinct q.
Proof.
  intros Hnew i j ji jj Hi Hj Hei Hej Hid.
  destruct (new_Normal _ _ _ Hnew) as (self2 & _ & _ & _ & Hsecond).
  by eapply init_joins_Normal_distinct.
Qed.

Lemma init_joins_frame_embedding js i self c self' :
  init_joins i js self = (c, self') ->
  _fg_embedding_map self' = _fg_embedding_map self.
Proof.
  revert i self. induction js as [|join js IH]; intros i self H; simpl in H.
  - by injection H as <- <-.
  - destruct (FeatureGroup.embedding_index _) as [ei|]; [|by eapply IH].
    destruct (_fg_vdb_col_td_col_map self !! _) as [m|];
      [by injection H as <- <-|].
    by apply IH in H.
Qed.

(** What a client that [new] returns holds under the id of an
    embedding-bearing feature group, from the first pass. *)
Lemma new_fg_maps q sks self i join fg ei :
  new q sks = (Normal, self) ->
  embedding_join_at q i join fg ei ->
  let cp := EmbeddingIndex.col_prefix ei in
  exists a b,
    add_primary_key_cols fg cp (FeatureGroup.primary_key fg)
      (add_feature_cols cp (_left_features (query join)) ([], [])) = Ok (a, b)
    /\ col_maps_agree cp (a, b)
    /\ (forall n, is_Some (Dict.get n b)
                  <-> n ∈ Feature.name <$> _left_features (query join)
                      \/ n ∈ FeatureGroup.primary_key fg)
    /\ _fg_vdb_col_fg_col_map self !! FeatureGroup.id fg = Some a
    /\ _fg_col_vdb_col_map self !! FeatureGroup.id fg = Some b
    /\ _fg_id_to_vdb_pks self !! FeatureGroup.id fg
       = Some ((fun pk => cp +:+ pk) <$> FeatureGroup.primary_key fg)
    /\ _fg_embedding_map self !! FeatureGroup.id fg = Some ei.
Proof.
  intros Hnew (Hi & <- & Hei) cp.
  pose proof (new_distinct _ _ _ Hnew) as Hdistinct.
  destruct (new_Normal _ _ _ Hnew) as (self2 & Hfirst & _ & _ & Hsecond).
  assert (Hqs : q :: (query <$> joins q) = query <$> fg_joins q) by done.
  rewrite Hqs in Hfirst.
  destruct (init_fg_maps_at _ _ _ i (query join) ei Hfirst)
    as (a & b & Hadd & Ha & Hb & Hpks & Hemb).
  - by rewrite list_lookup_fmap, Hi.
  - exact Hei.
  - intros n' q' Hn' Hemb Hid. rewrite list_lookup_fmap in Hn'.
    destruct (fg_joins q !! n') as [j'|] eqn:Hj'; [|done].
    injection Hn' as <-. by eapply (Hdistinct n' i j' join).
  - destruct (add_feature_cols_agree cp (_left_features (query join)) ([], [])
                (col_maps_agree_empty _)) as [Hagree0 Hdom0].
    destruct (add_primary_key_cols_agree _ _ _ _ _ Hadd Hagree0)
      as [Hagree Hdom].
    assert (Hembmap : _fg_embedding_map self = _fg_embedding_map self2)
      by by eapply init_joins_frame_embedding.
    apply init_joins_frame in Hsecond as (_ & -> & -> & -> & _).
    exists a, b. rewrite Hembmap. split_and!; try done.
    intros n. specialize (Hdom n). specialize (Hdom0 n). cbn [snd] in Hdom, Hdom0.
    unfold cp in Hdom0. rewrite Hdom, Hdom0. split; [intros [[[? ?]|?]|?]; by eauto | tauto].
Qed.

Lemma new_td_map q sks self i join fg ei :
  new q sks = (Normal, self) ->
  embedding_join_at q i join fg ei ->
  _fg_vdb_col_td_col_map self !! FeatureGroup.id fg
  = Some (vdb_col_td_col_map_of ei (prefix_or_empty join)
            (FeatureGroup.features fg)).
Proof.
  intros Hnew (Hi & <- & Hei).
  destruct (new_Normal _ _ _ Hnew) as (self2 & _ & _ & _ & Hsecond).
  by eapply init_joins_Normal.
Qed.

Lemma new_primary_key_in_features q sks self i join fg ei :
  new q sks = (Normal, self) ->
  embedding_join_at q i join fg ei ->
  primary_key_in_features fg.
Proof.
  intros Hnew (Hi & <- & Hei).
  destruct (new_Normal _ _ _ Hnew) as (self2 & Hfirst & _).
  eapply init_fg_maps_Normal; [exact Hfirst | | by rewrite Hei].
  change (q :: (query <$> joins q)) with (query <$> fg_joins q).
  apply list_elem_of_fmap_2. by eapply list_elem_of_lookup_2.
Qed.

(** X1. In a client that [new] returns, the map from local to physical
    columns of an embedding-bearing feature group has as keys, without
    duplicates, the names of the features that the sub-query selects and the
    primary-key columns of the group, and sends each of them to the column
    prefix of the embedding index followed by the name. *)
Theorem X1_local_to_physical_columns q sks self i join fg ei :
  new q sks = (Normal, self) ->
  embedding_join_at q i join fg ei ->
  exists b,
    _fg_col_vdb_col_map self !! FeatureGroup.id fg = Some b
    /\ NoDup (Dict.keys b)
    /\ (forall n, n ∈ Dict.keys b
                  <-> n ∈ Feature.name <$> _left_features (query join)
                      \/ n ∈ FeatureGroup.primary_key fg)
    /\ (forall n, n ∈ Dict.keys b ->
          Dict.get n b = Some (EmbeddingIndex.col_prefix ei +:+ n)).
Proof.
  intros Hnew Hjoin.
  destruct (new_fg_maps _ _ _ _ _ _ _ Hnew Hjoin)
    as (a & b & _ & (H1 & _ & _ & _ & Hnd) & Hdom & _ & Hb & _).
  exists b. split_and!; [done | done | |].
  - intros n. by rewrite DictFacts.elem_of_keys.
  - intros n [c Hc]%DictFacts.elem_of_keys. by rewrite Hc, (H1 n c Hc).
Qed.

Lemma X1_local_to_physical_columns_witness :
  exists b,
    _fg_col_vdb_col_map (new Sample.q None).2 !! 8%Z = Some b
    /\ NoDup (Dict.keys b)
    /\ (forall n, n ∈ Dict.keys b <-> n ∈ ["vec"] \/ n ∈ ["sku"])
    /\ (forall n, n ∈ Dict.keys b -> Dict.get n b = Some ("p8_" +:+ n)).
Proof.
  apply (X1_local_to_physical_columns Sample.q None (new Sample.q None).2
           1 Sample.join2 Sample.fg2 Sample.ei2).
  - vm_compute. reflexivity.
  - repeat split.
Defined.

(** X2. In such a client the map from physical columns to features is the
    inverse of the map from local to physical columns: its keys are, without
    duplicates, the physical columns of the local columns, and the physical
    column of a local column is held with a feature that has the name of the
    local column. *)
Theorem X2_physical_to_local_inverse q sks self i join fg ei :
  new q sks = (Normal, self) ->
  embedding_join_at q i join fg ei ->
  exists a b,
    _fg_vdb_col_fg_col_map self !! FeatureGroup.id fg = Some a
    /\ _fg_col_vdb_col_map self !! FeatureGroup.id fg = Some b
    /\ NoDup (Dict.keys a)
    /\ (forall key, key ∈ Dict.keys a
                    <-> exists n, n ∈ Dict.keys b /\ Dict.get n b = Some key)
    /\ (forall n key, Dict.get n b = Some key ->
          exists f, Dict.get key a = Some f /\ Feature.name f = n).
Proof.
  intros Hnew Hjoin.
  destruct (new_fg_maps _ _ _ _ _ _ _ Hnew Hjoin)
    as (a & b & _ & (H1 & H2 & H3 & Hnd & _) & _ & Ha & Hb & _).
  simpl in H1, H2, H3, Hnd.
  exists a, b. split_and!; [done | done | done | |].
  - intros key. rewrite DictFacts.elem_of_keys. split.
    + intros [f Hf]. pose proof (H2 key f Hf) as ->.
      destruct (proj2 (H3 (Feature.name f))) as [c Hc]; [by eauto|].
      exists (Feature.name f). split.
      * apply DictFacts.elem_of_keys. by eauto.
      * by rewrite Hc, (H1 _ _ Hc).
    + intros (n & _ & Hn). pose proof (H1 n key Hn) as ->.
      apply H3. by eauto.
  - intros n key Hn. pose proof (H1 n key Hn) as ->.
    destruct (proj1 (H3 n)) as [f Hf]; [by eauto|].
    exists f. split; [done|].
    apply H2 in Hf as Heq. by apply append_inj_r in Heq.
Qed.

Lemma X2_physical_to_local_inverse_witness :
  exists a b,
    _fg_vdb_col_fg_col_map (new Sample.q None).2 !! 8%Z = Some a
    /\ _fg_col_vdb_col_map (new Sample.q None).2 !! 8%Z = Some b
    /\ NoDup (Dict.keys a)
    /\ (forall key, key ∈ Dict.keys a
                    <-> exists n, n ∈ Dict.keys b /\ Dict.get n b = Some key)
    /\ (forall n key, Dict.get n b = Some key ->
          exists f, Dict.get key a = Some f /\ Feature.name f = n).
Proof.
  apply (X2_physical_to_local_inverse Sample.q None (new Sample.q None).2
           1 Sample.join2 Sample.fg2 Sample.ei2).
  - vm_compute. reflexivity.
  - repeat split.
Defined.

(** X3. In such a client the list of physical primary-key columns of an
    embedding-bearing feature group is the primary key of the group, in its
    order, each column with the column prefix in front. *)
Theorem X3_physical_primary_key q sks self i join fg ei :
  new q sks = (Normal, self) ->
  embedding_join_at q i join fg ei ->
  _fg_id_to_vdb_pks self !! FeatureGroup.id fg
  = Some ((fun pk => EmbeddingIndex.col_prefix ei +:+ pk)
            <$> FeatureGroup.primary_key fg).
Proof.
  intros Hnew Hjoin.
  by destruct (new_fg_maps _ _ _ _ _ _ _ Hnew Hjoin)
    as (a & b & _ & _ & _ & _ & _ & Hpks & _).
Qed.

Lemma X3_physical_primary_key_witness :
  _fg_id_to_vdb_pks (new Sample.q None).2 !! 8%Z = Some ["p8_sku"].
Proof.
  apply (X3_physical_primary_key Sample.q None (new Sample.q None).2
           1 Sample.join2 Sample.fg2 Sample.ei2).
  - vm_compute. reflexivity.
  - repeat split.
Defined.

(** X4. The columns that a client returned by [new] asks the index for (the
    keys of the map from physical columns to features, which become the
    [_source] of every request) all have a final column in the
    physical-to-final map of the feature group, provided the features that the
    sub-query selects are features of the group.  So a result row made of
    requested columns is renamed without an error. *)
Theorem X4_requested_columns_are_mapped q sks self i join fg ei :
  new q sks = (Normal, self) ->
  embedding_join_at q i join fg ei ->
  selects_own_features (query join) ->
  exists a td,
    _fg_vdb_col_fg_col_map self !! FeatureGroup.id fg = Some a
    /\ _fg_vdb_col_td_col_map self !! FeatureGroup.id fg = Some td
    /\ (forall key, key ∈ Dict.keys a -> is_Some (Dict.get key td))
    /\ (forall row,
          NoDup (Dict.keys row) ->
          (forall key, key ∈ Dict.keys row -> key ∈ Dict.keys a) ->
          exists renamed,
            _rewrite_result_key row td = Ok renamed
            /\ renamed_by td row renamed).
Proof.
  intros Hnew Hjoin Hsel.
  pose proof (new_td_map _ _ _ _ _ _ _ Hnew Hjoin) as Htd.
  pose proof (new_primary_key_in_features _ _ _ _ _ _ _ Hnew Hjoin) as Hpk.
  destruct (new_fg_maps _ _ _ _ _ _ _ Hnew Hjoin)
    as (a & b & _ & (H1 & H2 & H3 & _) & Hdom & Ha & _).
  simpl in H1, H2, H3.
  destruct Hjoin as (Hi & Hfg & Hei).
  assert (Hmapped : forall key, key ∈ Dict.keys a ->
            is_Some (Dict.get key
                       (vdb_col_td_col_map_of ei (prefix_or_empty join)
                          (FeatureGroup.features fg)))).
  { intros key [f Hf]%DictFacts.elem_of_keys.
    pose proof (H2 key f Hf) as ->.
    apply DictFacts.elem_of_keys, td_map_keys.
    destruct (proj1 (Hdom (Feature.name f))) as [Hs|Hp].
    - apply H3. by eauto.
    - apply list_elem_of_fmap in Hs as (f' & Hname & Hf').
      destruct (Hsel f' Hf') as (g & Hg & Hgn).
      exists g. split; [by rewrite <- Hfg|]. congruence.
    - destruct (Hpk _ Hp) as (g & Hg & Hgn).
      exists g. split; [done|]. congruence. }
  eexists a, _. split_and!; [done | exact Htd | exact Hmapped |].
  intros row Hnd Hrow.
  destruct (rewrite_items_mapped row
              (vdb_col_td_col_map_of ei (prefix_or_empty join)
                 (FeatureGroup.features fg)) [] Hnd)
    as (renamed & Hrun & Hren).
  - apply td_map_inj.
  - intros key Hkey. by apply Hmapped, Hrow.
  - done.
  - by exists renamed.
Qed.

Lemma X4_requested_columns_are_mapped_witness :
  exists a td,
    _fg_vdb_col_fg_col_map (new Sample.q None).2 !! 8%Z = Some a
    /\ _fg_vdb_col_td_col_map (new Sample.q None).2 !! 8%Z = Some td
    /\ (forall key, key ∈ Dict.keys a -> is_Some (Dict.get key td))
    /\ (forall row,
          NoDup (Dict.keys row) ->
          (forall key, key ∈ Dict.keys row -> key ∈ Dict.keys a) ->
          exists renamed,
            _rewrite_result_key row td = Ok renamed
            /\ renamed_by td row renamed).
Proof.
  apply (X4_requested_columns_are_mapped Sample.q None (new Sample.q None).2
           1 Sample.join2 Sample.fg2 Sample.ei2).
  - vm_compute. reflexivity.
  - repeat split.
  - intros f Hf. apply list_elem_of_singleton in Hf as ->.
    exists Sample.g_vec. split; [|reflexivity].
    apply list_elem_of_further, list_elem_of_here.
Defined.

(** ** Which queries give a client *)

Lemma init_joins_total js i self :
  (forall n1 n2 j1 j2,
     js !! n1 = Some j1 -> js !! n2 = Some j2 ->
     is_Some (FeatureGroup.embedding_index (_left_feature_group (query j1))) ->
     is_Some (FeatureGroup.embedding_index (_left_feature_group (query j2))) ->
     FeatureGroup.id (_left_feature_group (query j1))
     = FeatureGroup.id (_left_feature_group (query j2)) ->
     n1 = n2) ->
  (forall j, j ∈ js ->
     is_Some (FeatureGroup.embedding_index (_left_feature_group (query j))) ->
     _fg_vdb_col_td_col_map self
       !! FeatureGroup.id (_left_feature_group (query j)) = None) ->
  exists self', init_joins i js self = (Normal, self').
Proof.
  revert i self. induction js as [|j0 js IH]; intros i self Hdist Hfree.
  - by eexists.
  - cbn [init_joins].
    assert (Hdist' : forall n1 n2 j1 j2,
       js !! n1 = Some j1 -> js !! n2 = Some j2 ->
       is_Some (FeatureGroup.embedding_index (_left_feature_group (query j1))) ->
       is_Some (FeatureGroup.embedding_index (_left_feature_group (query j2))) ->
       FeatureGroup.id (_left_feature_group (query j1))
       = FeatureGroup.id (_left_feature_group (query j2)) ->
       n1 = n2).
    { intros n1 n2 j1 j2 H1 H2 He1 He2 Hid.
      specialize (Hdist (S n1) (S n2) j1 j2 H1 H2 He1 He2 Hid). lia. }
    destruct (FeatureGroup.embedding_index (_left_feature_group (query j0)))
      as [ei|] eqn:Hei.
    + rewrite (Hfree j0); [|apply list_elem_of_here|by rewrite Hei].
      apply IH; [exact Hdist'|].
      intros j Hin Hemb. simpl. rewrite lookup_insert_ne.
      * apply Hfree; [by apply list_elem_of_further | done].
      * intros Hid. apply list_elem_of_lookup_1 in Hin as [n Hn].
        specialize (Hdist 0%nat (S n) j0 j eq_refl Hn). rewrite Hei in Hdist.
        specialize (Hdist ltac:(by eauto) Hemb Hid). lia.
    + apply IH; [exact Hdist'|].
      intros j Hin. apply Hfree. by apply list_elem_of_further.
Qed.

(** X5. [new] returns a client exactly for the queries in which the
    primary-key columns of every embedding-bearing feature group name features
    of the group and no two joins (the primary feature group counting as one)
    scan embedding-bearing feature groups with the same id. *)
Theorem X5_new_returns_iff q sks :
  (exists self, new q sks = (Normal, self))
  <-> primary_keys_in_features q /\ embedding_ids_distinct q.
Proof.
  split.
  - intros [self Hnew]. split; [|by eapply new_distinct].
    intros join Hin Hemb.
    destruct (new_Normal _ _ _ Hnew) as (self2 & Hfirst & _).
    eapply init_fg_maps_Normal; [exact Hfirst | | exact Hemb].
    change (q :: (query <$> joins q)) with (query <$> fg_joins q).
    by apply list_elem_of_fmap_2.
  - intros [Hwf Hdist].
    destruct (init_fg_maps_total (query <$> fg_joins q)
                (set_embedding_features (blank q sks)
                   (init_embedding_features (featuregroups q) [])))
      as (self2 & Hfirst & _).
    { intros q' (join & -> & Hin)%list_elem_of_fmap. by apply Hwf. }
    apply init_fg_maps_frame in Hfirst as Hframe.
    destruct Hframe as (Hq & Htd & _). simpl in Hq, Htd.
    destruct (init_joins_total (fg_joins q) 0 self2) as [self Hsecond].
    + exact Hdist.
    + intros j _ _. by rewrite Htd, lookup_empty.
    + exists self. unfold new, init.
      cbn [_query blank set_embedding_features _embedding_features].
      change (q :: (query <$> joins q)) with (query <$> fg_joins q).
      rewrite Hfirst. cbn iota. by rewrite Hq.
Qed.

(** X6. In a client that [new] returns, the index name of an
    embedding-bearing feature group of the query is the index name of its
    embedding index; for the id of any other feature group there is no
    embedding, [_get_vector_db_index_name] raises [ValueError], and a point
    read is refused before the index is called. *)
Theorem X6_index_name_of_feature_group q sks self :
  new q sks = (Normal, self) ->
  (forall i join fg ei,
     embedding_join_at q i join fg ei ->
     _get_vector_db_index_name self (FeatureGroup.id fg)
     = Ok (EmbeddingIndex.index_name ei))
  /\ (forall id,
        (forall join, join ∈ fg_joins q ->
           is_Some (FeatureGroup.embedding_index (_left_feature_group (query join))) ->
           FeatureGroup.id (_left_feature_group (query join)) <> id) ->
        _get_vector_db_index_name self id
        = Raise (ValueError "No embedding fg available.")
        /\ forall opensearch log schema keys pk index_name n,
             read opensearch self log id schema keys pk index_name n
             = {| outcome := Raise (FeatureStoreException
                                      "Provided fg does not have embedding.");
                  client := self; calls := log |}).
Proof.
  intros Hnew. split.
  - intros i join fg ei Hjoin.
    destruct (new_fg_maps _ _ _ _ _ _ _ Hnew Hjoin)
      as (a & b & _ & _ & _ & _ & _ & _ & Hemb).
    unfold _get_vector_db_index_name. by rewrite Hemb.
  - intros id Hother.
    destruct (new_Normal _ _ _ Hnew) as (self2 & Hfirst & _ & _ & Hsecond).
    change (q :: (query <$> joins q)) with (query <$> fg_joins q) in Hfirst.
    apply init_fg_maps_unchanged with (id := id) in Hfirst
      as (Ha & _ & _ & Hemb).
    2:{ intros q' (join & -> & Hin)%list_elem_of_fmap. by apply Hother. }
    simpl in Ha, Hemb. rewrite ?lookup_empty in Ha, Hemb.
    pose proof (init_joins_frame_embedding _ _ _ _ _ Hsecond) as Hemb'.
    apply init_joins_frame in Hsecond as (_ & Ha' & _).
    split.
    + unfold _get_vector_db_index_name. by rewrite Hemb', Hemb.
    + intros. unfold read. by rewrite Ha', Ha.
Qed.

Lemma X6_index_name_of_feature_group_witness :
  (forall i join fg ei,
     embedding_join_at Sample.q i join fg ei ->
     _get_vector_db_index_name (new Sample.q None).2 (FeatureGroup.id fg)
     = Ok (EmbeddingIndex.index_name ei))
  /\ (forall id,
        (forall join, join ∈ fg_joins Sample.q ->
           is_Some (FeatureGroup.embedding_index (_left_feature_group (query join))) ->
           FeatureGroup.id (_left_feature_group (query join)) <> id) ->
        _get_vector_db_index_name (new Sample.q None).2 id
        = Raise (ValueError "No embedding fg available.")
        /\ forall opensearch log schema keys pk index_name n,
             read opensearch (new Sample.q None).2 log id schema keys pk index_name n
             = {| outcome := Raise (FeatureStoreException
                                      "Provided fg does not have embedding.");
                  client := (new Sample.q None).2; calls := log |}).
Proof.
  apply (X6_index_name_of_feature_group Sample.q None).
  vm_compute. reflexivity.
Defined.

(** ** The tables of the second pass *)

Lemma init_joins_by_index js i self self' k :
  init_joins i js self = (Normal, self') ->
  _embedding_fg_by_join_index self' !! k =
  match (if decide (i <= k)%nat then js !! (k - i)%nat else None) with
  | Some join =>
      match FeatureGroup.embedding_index (_left_feature_group (query join)) with
      | Some _ => Some (_left_feature_group (query join))
      | None => _embedding_fg_by_join_index self !! k
      end
  | None => _embedding_fg_by_join_index self !! k
  end.
Proof.
  revert i self. induction js as [|j js IH]; intros i self Hrun.
  - injection Hrun as <-. by destruct (decide (i <= k)%nat).
  - cbn [init_joins] in Hrun.
    destruct (FeatureGroup.embedding_index (_left_feature_group (query j)))
      as [ei|] eqn:Hei.
    + destruct (_fg_vdb_col_td_col_map self !! _); [done|].
      rewrite (IH _ _ Hrun). simpl.
      destruct (decide (i <= k)%nat) as [Hle|Hgt].
      * destruct (decide (S i <= k)%nat) as [Hle'|Heq].
        -- replace (k - i)%nat with (S (k - S i)) by lia. simpl.
           rewrite lookup_insert_ne by lia. done.
        -- assert (k = i) as -> by lia. rewrite Nat.sub_diag. simpl.
           by rewrite Hei, lookup_insert_eq.
      * rewrite decide_False by lia. rewrite lookup_insert_ne by lia. done.
    + rewrite (IH _ _ Hrun).
      destruct (decide (i <= k)%nat) as [Hle|Hgt].
      * destruct (decide (S i <= k)%nat) as [Hle'|Heq].
        -- replace (k - i)%nat with (S (k - S i)) by lia. done.
        -- assert (k = i) as -> by lia. rewrite Nat.sub_diag. simpl.
           by rewrite Hei.
      * by rewrite decide_False by lia.
Qed.

(** X7. In a client that [new] returns, [embedding_fg_by_join_index] holds
    under a join index the feature group that the join at that position scans
    when the group bears an embedding, and nothing under any other index. *)
Theorem X7_embedding_fg_by_join_index q sks self k :
  new q sks = (Normal, self) ->
  _embedding_fg_by_join_index self !! k =
  match fg_joins q !! k with
  | Some join =>
      match FeatureGroup.embedding_index (_left_feature_group (query join)) with
      | Some _ => Some (_left_feature_group (query join))
      | None => None
      end
  | None => None
  end.
Proof.
  intros Hnew.
  destruct (new_Normal _ _ _ Hnew) as (self2 & Hfirst & _ & _ & Hsecond).
  rewrite (init_joins_by_index _ _ _ _ k Hsecond).
  rewrite decide_True by lia. rewrite Nat.sub_0_r.
  assert (Hempty : _embedding_fg_by_join_index self2 !! k = None).
  { clear Hsecond. revert Hfirst.
    generalize (q :: (query <$> joins q)).
    assert (Hb : _embedding_fg_by_join_index
                   (set_embedding_features (blank q sks)
                      (init_embedding_features (featuregroups q) [])) !! k
                 = None) by apply lookup_empty.
    revert Hb.
    generalize (set_embedding_features (blank q sks)
                  (init_embedding_features (featuregroups q) [])).
    intros s Hs qs. revert s Hs.
    induction qs as [|q0 qs IH]; intros s Hs Hrun.
    - by injection Hrun as <-.
    - cbn [init_fg_maps] in Hrun.
      destruct (FeatureGroup.embedding_index _); [|by eapply IH].
      destruct (add_primary_key_cols _ _ _ _) as [[a b]|]; [|done].
      destruct (vdb_pks _ _); [|done].
      eapply IH; [|exact Hrun]. done. }
  rewrite Hempty. destruct (fg_joins q !! k) as [join|]; [|done].
  by destruct (FeatureGroup.embedding_index _).
Qed.

Lemma X7_embedding_fg_by_join_index_witness :
  _embedding_fg_by_join_index (new Sample.q None).2 !! 1%nat = Some Sample.fg2.
Proof.
  apply (X7_embedding_fg_by_join_index Sample.q None (new Sample.q None).2 1).
  vm_compute. reflexivity.
Defined.

Lemma td_names_fold (p : string) (efs : list EmbeddingFeature.t)
    (s : gset string) (x : string) :
  x ∈ foldl (fun s ef => {[p +:+ EmbeddingFeature.name ef]} ∪ s) s efs
  <-> x ∈ s \/ exists ef, ef ∈ efs /\ x = p +:+ EmbeddingFeature.name ef.
Proof.
  revert s. induction efs as [|ef efs IH]; intros s.
  - simpl. split; [by left | intros [?|(ef & Hin & _)]; [done|]].
    by apply elem_of_nil in Hin.
  - simpl. rewrite IH, elem_of_union, elem_of_singleton. split.
    + intros [[->|?]|(ef' & Hin & ->)].
      * right. exists ef. split; [apply list_elem_of_here | done].
      * by left.
      * right. exists ef'. split; [by apply list_elem_of_further | done].
    + intros [?|(ef' & [->|Hin]%elem_of_cons & ->)].
      * left. by right.
      * left. by left.
      * right. by exists ef'.
Qed.

Lemma init_joins_td_names js i self self' x :
  init_joins i js self = (Normal, self') ->
  x ∈ _td_embedding_feature_names self'
  <-> x ∈ _td_embedding_feature_names self
      \/ exists join ei n,
           join ∈ js
           /\ FeatureGroup.embedding_index (_left_feature_group (query join))
              = Some ei
           /\ n ∈ EmbeddingIndex.embeddings ei
           /\ x = prefix_or_empty join +:+ n.
Proof.
  revert i self. induction js as [|j js IH]; intros i self Hrun.
  - injection Hrun as <-. split; [by left | intros [?|(? & ? & ? & Hin & _)]; [done|]].
    by apply elem_of_nil in Hin.
  - cbn [init_joins] in Hrun.
    destruct (FeatureGroup.embedding_index (_left_feature_group (query j)))
      as [ei|] eqn:Hei.
    + destruct (_fg_vdb_col_td_col_map self !! _); [done|].
      rewrite (IH _ _ Hrun). simpl. rewrite td_names_fold. split.
      * intros [[?|(ef & Hef & ->)]|(join & ei' & n & Hin & He & Hn & ->)].
        -- by left.
        -- right. unfold get_embeddings in Hef.
           apply list_elem_of_fmap in Hef as (n & -> & Hn).
           exists j, ei, n. split_and!; [apply list_elem_of_here|done..].
        -- right. exists join, ei', n.
           split_and!; [by apply list_elem_of_further|done..].
      * intros [?|(join & ei' & n & [->|Hin]%elem_of_cons & He & Hn & ->)].
        -- left. by left.
        -- left. right. rewrite Hei in He. injection He as <-.
           exists {| EmbeddingFeature.name := n;
                     EmbeddingFeature.feature_group := _left_feature_group (query j);
                     EmbeddingFeature.embedding_index := ei |}.
           split; [|done]. unfold get_embeddings.
           apply list_elem_of_fmap. by exists n.
        -- right. by exists join, ei', n.
    + rewrite (IH _ _ Hrun). split.
      * intros [?|(join & ei' & n & Hin & He & Hn & ->)]; [by left|].
        right. exists join, ei', n.
        split_and!; [by apply list_elem_of_further|done..].
      * intros [?|(join & ei' & n & [->|Hin]%elem_of_cons & He & Hn & ->)].
        -- by left.
        -- congruence.
        -- right. by exists join, ei', n.
Qed.

(** X8. In a client that [new] returns, [td_embedding_feature_names] is the
    set of the final names of the embedding features: the names of the
    embedding features of the embedding-bearing feature groups of the query,
    each with the alias of its join in front. *)
Theorem X8_td_embedding_feature_names q sks self x :
  new q sks = (Normal, self) ->
  x ∈ _td_embedding_feature_names self
  <-> exists i join fg ei n,
        embedding_join_at q i join fg ei
        /\ n ∈ EmbeddingIndex.embeddings ei
        /\ x = final_prefix i join +:+ n.
Proof.
  intros Hnew.
  destruct (new_Normal _ _ _ Hnew) as (self2 & Hfirst & _ & _ & Hsecond).
  rewrite (init_joins_td_names _ _ _ _ x Hsecond).
  assert (Hempty : _td_embedding_feature_names self2 = ∅).
  { clear Hsecond. revert Hfirst.
    generalize (q :: (query <$> joins q)).
    assert (Hb : _td_embedding_feature_names
                   (set_embedding_features (blank q sks)
                      (init_embedding_features (featuregroups q) [])) = ∅)
      by done.
    revert Hb.
    generalize (set_embedding_features (blank q sks)
                  (init_embedding_features (featuregroups q) [])).
    intros s Hs qs. revert s Hs.
    induction qs as [|q0 qs IH]; intros s Hs Hrun.
    - by injection Hrun as <-.
    - cbn [init_fg_maps] in Hrun.
      destruct (FeatureGroup.embedding_index _); [|by eapply IH].
      destruct (add_primary_key_cols _ _ _ _) as [[a b]|]; [|done].
      destruct (vdb_pks _ _); [|done].
      eapply IH; [|exact Hrun]. done. }
  rewrite Hempty. split.
  - intros [Hin|(join & ei & n & Hin & He & Hn & ->)].
    + by apply elem_of_empty in Hin.
    + apply list_elem_of_lookup_1 in Hin as [i Hi].
      exists i, join, (_left_feature_group (query join)), ei, n.
      split_and!; [done | done |].
      destruct i as [|i]; [|done]. simpl in Hi. by injection Hi as <-.
  - intros (i & join & fg & ei & n & (Hi & <- & He) & Hn & ->).
    right. exists join, ei, n.
    split_and!; [by eapply list_elem_of_lookup_2 | done | done |].
    destruct i as [|i]; [|done]. simpl in Hi. by injection Hi as <-.
Qed.

Lemma X8_td_embedding_feature_names_witness :
  "item_vec" ∈ _td_embedding_feature_names (new Sample.q None).2
  <-> exists i join fg ei n,
        embedding_join_at Sample.q i join fg ei
        /\ n ∈ EmbeddingIndex.embeddings ei
        /\ "item_vec" = final_prefix i join +:+ n.
Proof.
  apply (X8_td_embedding_feature_names Sample.q None).
  vm_compute. reflexivity.
Defined.

(** ** Filter trees *)

(** Induction on a filter tree: the children of a composite, where there are
    any, come first. *)
Lemma filter_tree_ind (P : FilterOrLogic -> Prop) :
  (forall f, P (AFilter f)) ->
  (forall ty l r,
     (forall x, l = Some x -> P x) ->
     (forall x, r = Some x -> P x) ->
     P (ALogic ty l r)) ->
  forall t, P t.
Proof.
  intros Hf Hl. fix IH 1. intros [f|ty l r]; [apply Hf|].
  destruct l as [x|], r as [y|]; apply Hl; intros z Hz;
    try discriminate Hz; injection Hz as <-; apply IH.
Qed.

Lemma check_filter_decides t fg :
  _check_filter t fg =
  if decide (Forall (fun f => Feature.feature_group_id (Filter.feature f)
                              = FeatureGroup.id fg) (leaves t))
  then Ok tt
  else Raise (foreign_filter_error fg).
Proof.
  induction t as [f|ty l r IHl IHr] using filter_tree_ind.
  - cbn [_check_filter leaves].
    destruct (decide (Feature.feature_group_id (Filter.feature f)
                      = FeatureGroup.id fg)) as [Heq|Hne].
    + rewrite decide_True; [done|]. by constructor.
    + rewrite decide_False; [done|].
      intros H. by apply Forall_cons in H as [? _].
  - cbn [_check_filter leaves].
    assert (Hl : match l with
                 | Some x => _check_filter x fg
                 | None => Ok tt
                 end =
                 if decide (Forall (fun f => Feature.feature_group_id (Filter.feature f)
                                             = FeatureGroup.id fg)
                              match l with Some x => leaves x | None => [] end)
                 then Ok tt else Raise (foreign_filter_error fg)).
    { destruct l as [x|]; [by apply IHl|]. by rewrite decide_True. }
    assert (Hr : match r with
                 | Some x => _check_filter x fg
                 | None => Ok tt
                 end =
                 if decide (Forall (fun f => Feature.feature_group_id (Filter.feature f)
                                             = FeatureGroup.id fg)
                              match r with Some x => leaves x | None => [] end)
                 then Ok tt else Raise (foreign_filter_error fg)).
    { destruct r as [x|]; [by apply IHr|]. by rewrite decide_True. }
    rewrite Hl, Hr. clear Hl Hr IHl IHr.
    repeat case_decide; cbn [bind]; try done; exfalso;
      match goal with
      | H : Forall _ (_ ++ _) |- _ => rewrite Forall_app in H
      | H : ~ Forall _ (_ ++ _) |- _ => rewrite Forall_app in H
      end; tauto.
Qed.

(** X9. [_check_filter] accepts a filter tree exactly when the feature of
    every leaf belongs to the feature group, whatever the types of the
    composites; otherwise it raises the error that names the feature group.
    [find_neighbors] checks the filter against the feature group of the
    embedding feature and, when a leaf is foreign, raises that error without
    a call to the index and without a change to the client. *)
Theorem X9_check_filter_accepts_own_leaves t fg :
  ((forall f, f ∈ leaves t ->
      Feature.feature_group_id (Filter.feature f) = FeatureGroup.id fg) ->
   _check_filter t fg = Ok tt)
  /\ ((exists f, f ∈ leaves t
                 /\ Feature.feature_group_id (Filter.feature f)
                    <> FeatureGroup.id fg) ->
      _check_filter t fg = Raise (foreign_filter_error fg)
      /\ forall opensearch self log embedding schema feature index_name k
                min_score opts ef,
           resolve_embedding_feature self feature = Ok ef ->
           EmbeddingFeature.feature_group ef = fg ->
           find_neighbors opensearch self log embedding schema feature
             index_name k (Some t) min_score opts
           = {| outcome := Raise (foreign_filter_error fg);
                client := self; calls := log |}).
Proof.
  split.
  - intros Hall. rewrite check_filter_decides, decide_True; [done|].
    by apply Forall_forall.
  - intros (f & Hin & Hne).
    assert (Hraise : _check_filter t fg = Raise (foreign_filter_error fg)).
    { rewrite check_filter_decides, decide_False; [done|].
      intros Hall. rewrite Forall_forall in Hall. by apply Hne, Hall. }
    split; [exact Hraise|].
    intros opensearch self log embedding schema feature index_name k
      min_score opts ef Hef <-.
    unfold find_neighbors. rewrite Hef. cbn [check_filter_arg].
    by rewrite Hraise.
Qed.

Lemma prefixed_with_prefix p nm :
  prefixed (Some p) nm = prefixed None (p +:+ nm).
Proof.
  unfold prefixed. destruct (String.eqb p "") eqn:E; [|done].
  apply String.eqb_eq in E. by subst p.
Qed.

(** X10. For a filter tree without a [SINGLE] composite, translating with a
    column prefix is translating, without a prefix, the tree in which the name
    of every leaf's feature carries the prefix: every leaf of such a tree is
    translated on its physical column. *)
Theorem X10_prefix_reaches_every_leaf t p :
  Logic.SINGLE ∉ logic_types t ->
  _get_query_filter t (Some p) = _get_query_filter (with_prefix p t) None.
Proof.
  induction t as [f|ty l r IHl IHr] using filter_tree_ind; intros Hfree.
  - cbn [_get_query_filter with_prefix]. unfold _convert_filter.
    cbn [Filter.feature Filter.condition Filter.value Feature.name].
    by rewrite prefixed_with_prefix.
  - cbn [logic_types] in Hfree.
    apply not_elem_of_cons in Hfree as [Hty Hfree].
    apply not_elem_of_app in Hfree as [Hfl Hfr].
    assert (Hl : match l with
                 | Some x => _get_query_filter x (Some p)
                 | None => Ok []
                 end =
                 match match l with
                       | Some x => Some (with_prefix p x)
                       | None => None
                       end with
                 | Some x => _get_query_filter x None
                 | None => Ok []
                 end).
    { destruct l as [x|]; [by apply IHl | done]. }
    assert (Hr : match r with
                 | Some x => _get_query_filter x (Some p)
                 | None => Ok []
                 end =
                 match match r with
                       | Some x => Some (with_prefix p x)
                       | None => None
                       end with
                 | Some x => _get_query_filter x None
                 | None => Ok []
                 end).
    { destruct r as [x|]; [by apply IHr | done]. }
    cbn [_get_query_filter with_prefix].
    destruct ty; [by rewrite Hl, Hr | by rewrite Hl, Hr | done | done].
Qed.

Lemma X10_prefix_reaches_every_leaf_witness :
  _get_query_filter
    (ALogic Logic.AND (Some (AFilter SampleFilter.adult))
       (Some (ALogic Logic.OR (Some (AFilter SampleFilter.adult)) None)))
    (Some "p7_")
  = _get_query_filter
      (with_prefix "p7_"
         (ALogic Logic.AND (Some (AFilter SampleFilter.adult))
            (Some (ALogic Logic.OR (Some (AFilter SampleFilter.adult)) None))))
      None.
Proof.
  apply (X10_prefix_reaches_every_leaf
           (ALogic Logic.AND (Some (AFilter SampleFilter.adult))
              (Some (ALogic Logic.OR (Some (AFilter SampleFilter.adult)) None)))
           "p7_").
  vm_compute. intros Hin.
  repeat (apply elem_of_cons in Hin as [Hin|Hin]; [discriminate Hin|]).
  by apply elem_of_nil in Hin.
Defined.

Lemma X9_check_filter_accepts_own_leaves_witness :
  _check_filter SampleTree.own Sample.fg = Ok tt
  /\ find_neighbors SampleIndex.server (new Sample.q1 None).2 []
       SampleIndex.vector [] None None 10 (Some SampleTree.mixed) VNone VNone
     = {| outcome := Raise (foreign_filter_error Sample.fg);
          client := (new Sample.q1 None).2; calls := [] |}.
Proof.
  split.
  - apply (proj1 (X9_check_filter_accepts_own_leaves SampleTree.own Sample.fg)).
    intros f Hin.
    repeat (apply elem_of_cons in Hin as [->|Hin]; [reflexivity|]).
    by apply elem_of_nil in Hin.
  - refine (proj2 (proj2 (X9_check_filter_accepts_own_leaves
                            SampleTree.mixed Sample.fg) _)
              SampleIndex.server (new Sample.q1 None).2 [] SampleIndex.vector
              [] None None 10%Z VNone VNone SampleIndex.ef _ _).
    + exists SampleTree.foreign. split; [|discriminate].
      apply list_elem_of_further, list_elem_of_here.
    + vm_compute. reflexivity.
    + reflexivity.
Defined.

Lemma convert_filter_translatable f col_prefix :
  translatable f -> exists c, _convert_filter f col_prefix = Ok c.
Proof.
  unfold translatable, _convert_filter.
  destruct (Filter.condition f); try (intros _; by eexists); [|done].
  intros [s ->]. by eexists.
Qed.

(** X11. A filter tree whose leaves have known conditions (with text as the
    value of every [LK] leaf) and whose composites have known types is
    translated without an error, for any column prefix.  The translation is
    at most one clause, and exactly one when the tree has no [SINGLE]
    composite, so a filter adds at most one entry to the [must] list of a
    search request. *)
Theorem X11_translation_is_one_clause t col_prefix :
  (forall f, f ∈ leaves t -> translatable f) ->
  (forall ty, ty ∈ logic_types t -> forall s, ty <> Logic.Unknown s) ->
  exists clauses,
    _get_query_filter t col_prefix = Ok clauses
    /\ (length clauses <= 1)%nat
    /\ (Logic.SINGLE ∉ logic_types t -> length clauses = 1%nat).
Proof.
  revert col_prefix.
  induction t as [f|ty l r IHl IHr] using filter_tree_ind;
    intros col_prefix Hleaves Htypes.
  - destruct (convert_filter_translatable f col_prefix) as [c Hc].
    { apply Hleaves. apply list_elem_of_here. }
    exists [c]. cbn [_get_query_filter]. rewrite Hc. by split_and!.
  - assert (Hl : forall p, exists cs,
              match l with
              | Some x => _get_query_filter x p
              | None => Ok []
              end = Ok cs /\ (length cs <= 1)%nat).
    { intros p. destruct l as [x|]; [|by exists []; split; [|simpl; lia]].
      destruct (IHl x eq_refl p) as (cs & Hcs & Hlen & _).
      - intros f Hf. apply Hleaves. cbn [leaves]. apply elem_of_app. by left.
      - intros ty' Hty. apply Htypes. cbn [logic_types].
        apply list_elem_of_further, elem_of_app. by left.
      - by exists cs. }
    assert (Hr : forall p, exists cs,
              match r with
              | Some x => _get_query_filter x p
              | None => Ok []
              end = Ok cs /\ (length cs <= 1)%nat).
    { intros p. destruct r as [x|]; [|by exists []; split; [|simpl; lia]].
      destruct (IHr x eq_refl p) as (cs & Hcs & Hlen & _).
      - intros f Hf. apply Hleaves. cbn [leaves]. apply elem_of_app. by right.
      - intros ty' Hty. apply Htypes. cbn [logic_types].
        apply list_elem_of_further, elem_of_app. by right.
      - by exists cs. }
    clear IHl IHr. cbn [_get_query_filter].
    destruct ty as [| | |s].
    + destruct (Hl col_prefix) as (a & -> & _).
      destruct (Hr col_prefix) as (b & -> & _).
      eexists. by split_and!.
    + destruct (Hl col_prefix) as (a & -> & _).
      destruct (Hr col_prefix) as (b & -> & _).
      eexists. by split_and!.
    + destruct (Hl None) as (a & -> & Ha). cbn [bind].
      destruct a as [|c a].
      * destruct (Hr col_prefix) as (b & -> & Hb). exists b.
        split_and!; [done | done |].
        intros Hfree. exfalso. apply Hfree. cbn [logic_types].
        apply list_elem_of_here.
      * exists (c :: a). split_and!; [done | done |].
        intros Hfree. exfalso. apply Hfree. cbn [logic_types].
        apply list_elem_of_here.
    + exfalso. apply (Htypes (Logic.Unknown s)) with (s := s); [|done].
      cbn [logic_types]. apply list_elem_of_here.
Qed.

Lemma X11_translation_is_one_clause_witness :
  exists clauses,
    _get_query_filter SampleTree.own (Some "p7_") = Ok clauses
    /\ (length clauses <= 1)%nat
    /\ (Logic.SINGLE ∉ logic_types SampleTree.own -> length clauses = 1%nat).
Proof.
  apply (X11_translation_is_one_clause SampleTree.own (Some "p7_")).
  - intros f Hin.
    repeat (apply elem_of_cons in Hin as [->|Hin]; [exact I|]).
    by apply elem_of_nil in Hin.
  - intros ty Hin s.
    repeat (apply elem_of_cons in Hin as [->|Hin]; [discriminate|]).
    by apply elem_of_nil in Hin.
Defined.

(** ** Coercion keeps the shape of a row *)

Lemma keys_set_present {V} (k : string) (v : V) (d : list (string * V)) :
  is_Some (Dict.get k d) -> Dict.keys (Dict.set k v d) = Dict.keys d.
Proof.
  intros [w Hw]. rewrite DictFacts.keys_set. unfold Dict.mem. by rewrite Hw.
Qed.

Lemma truthy_row_get_present nm row :
  truthy (row_get nm row) = true -> is_Some (Dict.get nm row).
Proof.
  unfold row_get. destruct (Dict.get nm row); [by eauto | done].
Qed.

Lemma convert_feature_keys self feature row row' :
  convert_feature self feature row = Ok row' ->
  Dict.keys row' = Dict.keys row.
Proof.
  unfold convert_feature.
  destruct (truthy (row_get (Feature.name feature) row)) eqn:Ht;
    [|by intros [= <-]].
  pose proof (truthy_row_get_present _ _ Ht) as Hpresent.
  cbn [negb]. intros H.
  repeat match type of H with
  | (if ?c then _ else _) = _ => destruct c
  | bind ?r _ = _ => destruct r; cbn [bind] in H; [|discriminate H]
  | Ok _ = Ok _ => injection H as <-
  end; try done; by apply keys_set_present.
Qed.

(** X12. Type coercion keeps the columns of a row: when
    [_convert_to_pandas_type] returns, the row has the same keys in the same
    order, and every column that no feature of the schema names has the value
    it had. *)
Theorem X12_coercion_keeps_columns self schema row row' :
  _convert_to_pandas_type self schema row = Ok row' ->
  Dict.keys row' = Dict.keys row
  /\ forall nm, nm ∉ Feature.name <$> schema ->
       Dict.get nm row' = Dict.get nm row.
Proof.
  revert row. induction schema as [|feature schema IH]; intros row H.
  - cbn [_convert_to_pandas_type] in H. by injection H as <-.
  - cbn [_convert_to_pandas_type] in H.
    destruct (convert_feature self feature row) as [row1|] eqn:Hstep; [|done].
    cbn [bind] in H. destruct (IH _ H) as [Hkeys Hget]. split.
    + rewrite Hkeys. by eapply convert_feature_keys.
    + intros nm Hnm. rewrite fmap_cons in Hnm.
      apply not_elem_of_cons in Hnm as [Hne Hnm].
      rewrite (Hget nm Hnm).
      by destruct (convert_feature_get _ _ _ _ nm Hstep).
Qed.

Lemma X12_coercion_keeps_columns_witness :
  let row := [("day", VInt 1700000000000); ("age", VInt 30); ("blob", VStr "AQID")] in
  let row' := [("day", VDate 2023 11 14); ("age", VInt 30);
               ("blob", VBytes [1; 2; 3]%Z)] in
  Dict.keys row' = Dict.keys row
  /\ forall nm, nm ∉ ["day"; "blob"] -> Dict.get nm row' = Dict.get nm row.
Proof.
  intros row row'.
  apply (X12_coercion_keeps_columns (new Sample.q1 None).2
           [SampleSchema.day; SampleSchema.blob] row row').
  vm_compute. reflexivity.
Defined.

Lemma convert_feature_passes self feature row :
  Str.lower (Feature.type feature) <> "date" ->
  Str.lower (Feature.type feature) <> "timestamp" ->
  Str.lower (Feature.type feature) <> "binary" ->
  Feature.complex feature = false
  \/ Dict.mem (Feature.key feature) (_embedding_features self) = true ->
  convert_feature self feature row = Ok row.
Proof.
  intros Hd Ht Hb Hpass. unfold convert_feature.
  destruct (negb (truthy _)); [done|].
  apply String.eqb_neq in Hd, Ht, Hb. rewrite Hd, Ht, Hb.
  by destruct Hpass as [-> | ->]; [|rewrite andb_false_r].
Qed.

(** ** The embedding features of a client *)

Section FoldSet.
Context {A K V : Type} `{EqDecision K}.
Variable step : list (K * V) -> A -> list (K * V).
Variable added : A -> K -> V -> Prop.

Hypothesis step_sound : forall acc x key v,
  Dict.get key (step acc x) = Some v ->
  Dict.get key acc = Some v \/ added x key v.
Hypothesis step_mono : forall acc x key,
  is_Some (Dict.get key acc) -> is_Some (Dict.get key (step acc x)).
Hypothesis step_complete : forall acc x key v,
  added x key v -> is_Some (Dict.get key (step acc x)).

Lemma foldl_set_sound l acc key v :
  Dict.get key (foldl step acc l) = Some v ->
  Dict.get key acc = Some v \/ exists x, x ∈ l /\ added x key v.
Proof.
  revert acc. induction l as [|x l IH]; intros acc H; [by left|].
  cbn [foldl] in H. destruct (IH _ H) as [Hacc|(y & Hy & Hadd)].
  - destruct (step_sound _ _ _ _ Hacc) as [?|?]; [by left|].
    right. exists x. split; [apply list_elem_of_here | done].
  - right. exists y. split; [by apply list_elem_of_further | done].
Qed.

Lemma foldl_set_mono l acc key :
  is_Some (Dict.get key acc) -> is_Some (Dict.get key (foldl step acc l)).
Proof.
  revert acc. induction l as [|x l IH]; intros acc H; [done|].
  cbn [foldl]. by apply IH, step_mono.
Qed.

Lemma foldl_set_complete l acc x key v :
  x ∈ l -> added x key v -> is_Some (Dict.get key (foldl step acc l)).
Proof.
  revert acc. induction l as [|y l IH]; intros acc Hin Hadd.
  - by apply elem_of_nil in Hin.
  - cbn [foldl]. apply elem_of_cons in Hin as [->|Hin].
    + eapply foldl_set_mono, step_complete, Hadd.
    + by eapply IH.
Qed.
End FoldSet.

Lemma bind_embedding_features_spec fg ei :
  FeatureGroup.embedding_index fg = Some ei ->
  (forall acc key v,
     Dict.get key (bind_embedding_features fg ei acc) = Some v ->
     Dict.get key acc = Some v \/ bound_embedding fg key v)
  /\ (forall acc key,
        is_Some (Dict.get key acc) ->
        is_Some (Dict.get key (bind_embedding_features fg ei acc)))
  /\ (forall acc key v,
        bound_embedding fg key v ->
        is_Some (Dict.get key (bind_embedding_features fg ei acc))).
Proof.
  intros Hei.
  set (inner := fun feat (acc : list ((Z * string) * EmbeddingFeature.t)) fgf =>
         if decide (Feature.name fgf = EmbeddingFeature.name feat
                    /\ Feature.feature_group_id fgf = FeatureGroup.id fg)
         then Dict.set (Feature.key fgf) feat acc else acc).
  set (inner_added := fun feat (f : Feature.t) (key : Z * string)
                          (v : EmbeddingFeature.t) =>
         Feature.name f = EmbeddingFeature.name feat
         /\ Feature.feature_group_id f = FeatureGroup.id fg
         /\ key = Feature.key f /\ v = feat).
  assert (Hs : forall feat acc x key v,
            Dict.get key (inner feat acc x) = Some v ->
            Dict.get key acc = Some v \/ inner_added feat x key v).
  { intros feat acc x key v. unfold inner, inner_added.
    case_decide as Hc; [|by left]. rewrite DictFacts.get_set.
    case_decide as Hk; [|by left]. intros [= <-]. right.
    by destruct Hc. }
  assert (Hm : forall feat acc x key,
            is_Some (Dict.get key acc) ->
            is_Some (Dict.get key (inner feat acc x))).
  { intros feat acc x key Hacc. unfold inner. case_decide; [|done].
    rewrite DictFacts.get_set. by case_decide. }
  assert (Hc : forall feat acc x key v,
            inner_added feat x key v ->
            is_Some (Dict.get key (inner feat acc x))).
  { intros feat acc x key v (Hn & Hg & -> & _). unfold inner.
    rewrite decide_True by done. rewrite DictFacts.get_set_eq. by eauto. }
  set (outer := fun acc feat => foldl (inner feat) acc (FeatureGroup.features fg)).
  set (outer_added := fun feat (key : Z * string) (v : EmbeddingFeature.t) =>
         exists f, f ∈ FeatureGroup.features fg /\ inner_added feat f key v).
  assert (Hs' : forall acc feat key v,
            Dict.get key (outer acc feat) = Some v ->
            Dict.get key acc = Some v \/ outer_added feat key v).
  { intros acc feat key v. unfold outer.
    apply (foldl_set_sound (inner feat) (inner_added feat) (Hs feat)). }
  assert (Hm' : forall acc feat key,
            is_Some (Dict.get key acc) -> is_Some (Dict.get key (outer acc feat))).
  { intros acc feat key. unfold outer.
    apply (foldl_set_mono (inner feat) (Hm feat)). }
  assert (Hc' : forall acc feat key v,
            outer_added feat key v -> is_Some (Dict.get key (outer acc feat))).
  { intros acc feat key v (f & Hf & Hadd). unfold outer.
    eapply (foldl_set_complete (inner feat) (inner_added feat) (Hm feat) (Hc feat));
      eauto. }
  change (bind_embedding_features fg ei) with
    (fun acc => foldl outer acc (get_embeddings fg ei)).
  split_and!.
  - intros acc key v H.
    destruct (foldl_set_sound outer outer_added Hs' _ _ _ _ H)
      as [?|(feat & Hfeat & f & Hf & Hn & Hg & -> & ->)]; [by left|].
    right. by exists ei, f.
  - intros acc key. apply (foldl_set_mono outer Hm').
  - intros acc key v (ei' & f & Hei' & Hv & Hf & Hn & Hg & ->).
    rewrite Hei in Hei'. injection Hei' as <-.
    eapply (foldl_set_complete outer outer_added Hm' Hc' _ _ v); [exact Hv|].
    by exists f.
Qed.

Lemma init_embedding_features_spec fgs key :
  (forall v,
     Dict.get key (init_embedding_features fgs []) = Some v ->
     exists fg, fg ∈ fgs /\ bound_embedding fg key v)
  /\ (forall fg v, fg ∈ fgs -> bound_embedding fg key v ->
        is_Some (Dict.get key (init_embedding_features fgs []))).
Proof.
  set (step := fun (acc : list ((Z * string) * EmbeddingFeature.t)) fg =>
         match FeatureGroup.embedding_index fg with
         | Some ei => bind_embedding_features fg ei acc
         | None => acc
         end).
  set (added := fun fg (key : Z * string) (v : EmbeddingFeature.t) =>
         bound_embedding fg key v).
  assert (Hs : forall acc x k v,
            Dict.get k (step acc x) = Some v ->
            Dict.get k acc = Some v \/ added x k v).
  { intros acc x k v. unfold step, added.
    destruct (FeatureGroup.embedding_index x) as [ei|] eqn:Hei; [|by left].
    by apply (bind_embedding_features_spec x ei Hei). }
  assert (Hm : forall acc x k,
            is_Some (Dict.get k acc) -> is_Some (Dict.get k (step acc x))).
  { intros acc x k. unfold step.
    destruct (FeatureGroup.embedding_index x) as [ei|] eqn:Hei; [|done].
    by apply (bind_embedding_features_spec x ei Hei). }
  assert (Hc : forall acc x k v,
            added x k v -> is_Some (Dict.get k (step acc x))).
  { intros acc x k v Hadd. unfold step, added in *.
    destruct Hadd as (ei & f & Hei & Hrest). rewrite Hei.
    eapply (bind_embedding_features_spec x ei Hei). by exists ei, f. }
  change (init_embedding_features fgs []) with (foldl step [] fgs). split.
  - intros v H.
    by destruct (foldl_set_sound step added Hs _ _ _ _ H) as [?|?].
  - intros fg v Hfg Hb.
    by eapply (foldl_set_complete step added Hm Hc).
Qed.

Lemma new_embedding_features q sks self :
  new q sks = (Normal, self) ->
  _embedding_features self = init_embedding_features (featuregroups q) [].
Proof.
  intros Hnew.
  destruct (new_Normal _ _ _ Hnew) as (self2 & Hfirst & _ & _ & Hsecond).
  apply init_fg_maps_frame in Hfirst as (_ & _ & He & _).
  apply init_joins_frame in Hsecond as (_ & _ & _ & _ & He' & _).
  by rewrite He', He.
Qed.

(** X13. In a client that [new] returns, the coercion step leaves the row as
    it is for a schema feature whose type, in lower case, is none of [date],
    [timestamp] and [binary], when the feature is not complex or has the key
    (feature group id and name) under which an embedding feature is bound for
    a feature group of the query: the value under such a schema feature is not
    base64-decoded.  A complex schema feature with another key, such as one
    that carries the aliased name of a joined embedding, is outside this
    statement. *)
Theorem X13_embedding_values_pass_through q sks self feature row :
  new q sks = (Normal, self) ->
  Str.lower (Feature.type feature) <> "date" ->
  Str.lower (Feature.type feature) <> "timestamp" ->
  Str.lower (Feature.type feature) <> "binary" ->
  Feature.complex feature = false
  \/ (exists fg ef, fg ∈ featuregroups q
                    /\ bound_embedding fg (Feature.key feature) ef) ->
  convert_feature self feature row = Ok row.
Proof.
  intros Hnew Hd Ht Hb Hpass.
  apply convert_feature_passes; try done.
  destruct Hpass as [?|(fg & ef & Hfg & Hbound)]; [by left | right].
  rewrite (new_embedding_features _ _ _ Hnew). unfold Dict.mem.
  destruct (proj2 (init_embedding_features_spec (featuregroups q)
                     (Feature.key feature)) fg ef Hfg Hbound) as [v ->].
  done.
Qed.

Lemma X13_embedding_values_pass_through_witness :
  convert_feature (new Sample.q1 None).2 Sample.f_emb
    [("emb", VList [VInt 1; VInt 2])]
  = Ok [("emb", VList [VInt 1; VInt 2])].
Proof.
  apply (X13_embedding_values_pass_through Sample.q1 None
           (new Sample.q1 None).2 Sample.f_emb).
  - vm_compute. reflexivity.
  - vm_compute. discriminate.
  - vm_compute. discriminate.
  - vm_compute. discriminate.
  - right. exists Sample.fg, SampleIndex.ef. split; [apply list_elem_of_here|].
    exists Sample.ei, Sample.f_emb. split_and!; try reflexivity.
    + apply list_elem_of_here.
    + apply list_elem_of_further, list_elem_of_further, list_elem_of_here.
Defined.

Lemma resolve_is_held self feature ef :
  resolve_embedding_feature self feature = Ok ef ->
  exists key, Dict.get key (_embedding_features self) = Some ef.
Proof.
  unfold resolve_embedding_feature. destruct feature as [f|].
  - destruct (Dict.get (Feature.key f) (_embedding_features self)) as [v|] eqn:Hv;
      [|done].
    intros [= <-]. by eexists.
  - destruct (_embedding_features self) as [|[k v] [|? ?]]; try done.
    intros [= <-]. exists k. simpl. by rewrite decide_True.
Qed.

Lemma featuregroups_joins q fg :
  fg ∈ featuregroups q <->
  exists i join, fg_joins q !! i = Some join
                 /\ _left_feature_group (query join) = fg.
Proof.
  change (featuregroups q) with
    ((fun j => _left_feature_group (query j)) <$> fg_joins q).
  rewrite list_elem_of_fmap. split.
  - intros (join & -> & Hin). apply list_elem_of_lookup_1 in Hin as [i Hi].
    by exists i, join.
  - intros (i & join & Hi & <-). exists join.
    split; [done | by eapply list_elem_of_lookup_2].
Qed.

(** X14. In a client that [new] returns, an embedding feature that
    [find_neighbors] resolves belongs to an embedding-bearing feature group of
    the query and to the index of that group, and names a feature of the
    group.  The tables that the search needs for it are there: the request
    body is built (no [AttributeError]), the physical-to-final map is found
    (no [KeyError]), and the column of the embedding has a final column. *)
Theorem X14_resolved_embedding_is_searchable q sks self feature ef :
  new q sks = (Normal, self) ->
  resolve_embedding_feature self feature = Ok ef ->
  exists i join (a : list (string * Feature.t)) td,
    embedding_join_at q i join (EmbeddingFeature.feature_group ef)
      (EmbeddingFeature.embedding_index ef)
    /\ EmbeddingFeature.name ef
       ∈ EmbeddingIndex.embeddings (EmbeddingFeature.embedding_index ef)
    /\ (forall embedding k,
          knn_query self ef embedding k None
          = Ok (knn_body (col_name_of ef) embedding k k [] (Dict.keys a)))
    /\ td_col_map self (FeatureGroup.id (EmbeddingFeature.feature_group ef))
       = Ok td
    /\ is_Some (Dict.get (col_name_of ef) td).
Proof.
  intros Hnew Hres.
  destruct (resolve_is_held _ _ _ Hres) as [key Hkey].
  rewrite (new_embedding_features _ _ _ Hnew) in Hkey.
  destruct (proj1 (init_embedding_features_spec (featuregroups q) key) ef Hkey)
    as (fg & Hfg & ei & f & Hei & Hef & Hf & Hname & Hgid & ->).
  unfold get_embeddings in Hef.
  apply list_elem_of_fmap in Hef as (n & -> & Hn).
  cbn [EmbeddingFeature.feature_group EmbeddingFeature.embedding_index
       EmbeddingFeature.name] in *.
  apply featuregroups_joins in Hfg as (i & join & Hi & Hjfg).
  assert (Hjoin : embedding_join_at q i join fg ei) by done.
  destruct (new_fg_maps _ _ _ _ _ _ _ Hnew Hjoin)
    as (a & b & _ & _ & _ & Ha & _).
  pose proof (new_td_map _ _ _ _ _ _ _ Hnew Hjoin) as Htd.
  exists i, join, a, (vdb_col_td_col_map_of ei (prefix_or_empty join)
                        (FeatureGroup.features fg)).
  split_and!; [done | done | | |].
  - intros embedding k. unfold knn_query.
    cbn [get_query_filter_arg bind EmbeddingFeature.feature_group
         EmbeddingFeature.embedding_index].
    by rewrite Ha.
  - unfold td_col_map. by rewrite Htd.
  - unfold col_name_of.
    cbn [EmbeddingFeature.embedding_index EmbeddingFeature.name].
    rewrite <- Hname. erewrite td_map_get_feature; by eauto.
Qed.

Lemma X14_resolved_embedding_is_searchable_witness :
  exists i join (a : list (string * Feature.t)) td,
    embedding_join_at Sample.q i join Sample.fg Sample.ei
    /\ "emb" ∈ ["emb"]
    /\ (forall embedding k,
          knn_query (new Sample.q None).2 SampleIndex.ef embedding k None
          = Ok (knn_body "p7_emb" embedding k k [] (Dict.keys a)))
    /\ td_col_map (new Sample.q None).2 7 = Ok td
    /\ is_Some (Dict.get "p7_emb" td).
Proof.
  apply (X14_resolved_embedding_is_searchable Sample.q None
           (new Sample.q None).2 (Some Sample.f_emb) SampleIndex.ef).
  - vm_compute. reflexivity.
  - vm_compute. reflexivity.
Defined.

(** X15. In a client that [new] returns, [find_neighbors] refuses a search
    that names no embedding feature when the query binds none ("embedding col
    is not defined.") or binds more than one ("More than 1 embedding columns
    but col is not defined"), and a search that names a feature for which
    none is bound ("feature: ... is not an embedding feature.").  Each of
    these is a [ValueError], raised without a call to the index and without a
    change to the client. *)
Theorem X15_unresolved_embedding_is_refused q sks self opensearch log embedding
    schema index_name k filter min_score opts :
  new q sks = (Normal, self) ->
  let search feature :=
    find_neighbors opensearch self log embedding schema feature index_name k
      filter min_score opts in
  let refused msg :=
    {| outcome := Raise (ValueError msg); client := self; calls := log |} in
  ((forall fg key ef, fg ∈ featuregroups q -> ~ bound_embedding fg key ef) ->
   search None = refused "embedding col is not defined.")
  /\ (forall fg1 fg2 k1 k2 e1 e2,
        fg1 ∈ featuregroups q -> fg2 ∈ featuregroups q ->
        bound_embedding fg1 k1 e1 -> bound_embedding fg2 k2 e2 -> k1 <> k2 ->
        search None
        = refused "More than 1 embedding columns but col is not defined")
  /\ (forall f,
        (forall fg ef, fg ∈ featuregroups q ->
           ~ bound_embedding fg (Feature.key f) ef) ->
        search (Some f)
        = refused ("feature: " +:+ Feature.name f
                   +:+ " is not an embedding feature.")).
Proof.
  intros Hnew search refused. subst search refused. cbv beta.
  pose proof (new_embedding_features _ _ _ Hnew) as Hemb.
  split_and!.
  - intros Hnone. unfold find_neighbors, resolve_embedding_feature.
    destruct (_embedding_features self) as [|[key v] rest] eqn:Hl; [done|].
    exfalso.
    destruct (proj1 (init_embedding_features_spec (featuregroups q) key) v)
      as (fg & Hfg & Hb).
    { rewrite <- Hemb. simpl. by rewrite decide_True. }
    by eapply Hnone.
  - intros fg1 fg2 k1 k2 e1 e2 Hfg1 Hfg2 Hb1 Hb2 Hne.
    destruct (proj2 (init_embedding_features_spec (featuregroups q) k1)
                fg1 e1 Hfg1 Hb1) as [v1 Hv1].
    destruct (proj2 (init_embedding_features_spec (featuregroups q) k2)
                fg2 e2 Hfg2 Hb2) as [v2 Hv2].
    rewrite <- Hemb in Hv1, Hv2.
    unfold find_neighbors, resolve_embedding_feature.
    destruct (_embedding_features self) as [|[key v] [|? ?]]; try done.
    exfalso. simpl in Hv1, Hv2.
    destruct (decide (k1 = key)), (decide (k2 = key)); congruence.
  - intros f Hnone. unfold find_neighbors, resolve_embedding_feature.
    destruct (Dict.get (Feature.key f) (_embedding_features self))
      as [v|] eqn:Hv; [|done].
    exfalso. rewrite Hemb in Hv.
    destruct (proj1 (init_embedding_features_spec (featuregroups q)
                       (Feature.key f)) v Hv) as (fg & Hfg & Hb).
    by eapply Hnone.
Qed.

Lemma X15_unresolved_embedding_is_refused_witness :
  find_neighbors SampleIndex.server (new Sample.q None).2 [] SampleIndex.vector
    [] None None 10 None VNone VNone
  = {| outcome := Raise (ValueError
                           "More than 1 embedding columns but col is not defined");
       client := (new Sample.q None).2; calls := [] |}.
Proof.
  refine (proj1 (proj2 (X15_unresolved_embedding_is_refused Sample.q None
                          (new Sample.q None).2 SampleIndex.server []
                          SampleIndex.vector [] None 10%Z None VNone VNone _))
            Sample.fg Sample.fg2 (7%Z, "emb") (8%Z, "vec")
            SampleIndex.ef
            {| EmbeddingFeature.name := "vec";
               EmbeddingFeature.feature_group := Sample.fg2;
               EmbeddingFeature.embedding_index := Sample.ei2 |} _ _ _ _ _).
  - vm_compute. reflexivity.
  - apply list_elem_of_here.
  - apply list_elem_of_further, list_elem_of_here.
  - exists Sample.ei, Sample.f_emb. split_and!; try reflexivity.
    + apply list_elem_of_here.
    + apply list_elem_of_further, list_elem_of_further, list_elem_of_here.
  - exists Sample.ei2, Sample.g_vec. split_and!; try reflexivity.
    + apply list_elem_of_here.
    + apply list_elem_of_further, list_elem_of_here.
  - discriminate.
Defined.

(** ** A search that is not repeated *)

(** X16. The first request of [find_neighbors] asks for [k] rows ([size])
    with a [must] list made of the knn clause on the embedding column with the
    vector and [k], the clause that the column exists, and the clauses of the
    filter; it projects on the physical columns of the feature group and goes
    to the given index name, or else to the index of the embedding, with the
    caller's options.  When this search fails, the call raises the error of
    the index after that one request, with nothing cached.  When it returns
    hits and the embedding is not in a project index (empty column prefix), or
    the number of hits is the requested [k], there is no probe and no second
    search: one request was made, the client is as it was, and the call
    returns a list exactly when every hit has its pair (the distance
    [1 / score - 1] and the row renamed and coerced), and then returns the
    pairs, one per hit, in the order of the hits. *)
Theorem X16_single_search opensearch self log embedding schema feature
    index_name k filter min_score opts ef clauses
    (m : list (string * Feature.t)) :
  resolve_embedding_feature self feature = Ok ef ->
  check_filter_arg filter (EmbeddingFeature.feature_group ef) = Ok tt ->
  get_query_filter_arg filter
    (Some (EmbeddingIndex.col_prefix (EmbeddingFeature.embedding_index ef)))
  = Ok clauses ->
  _fg_vdb_col_fg_col_map self
    !! FeatureGroup.id (EmbeddingFeature.feature_group ef) = Some m ->
  let ei := EmbeddingFeature.embedding_index ef in
  let fg_id := FeatureGroup.id (EmbeddingFeature.feature_group ef) in
  let col := EmbeddingIndex.col_prefix ei +:+ EmbeddingFeature.name ef in
  let request :=
    {| body :=
         VDict [
           ("size", VInt k);
           ("query", VDict [("bool", VDict [("must", VList (
              VDict [("knn", VDict [(col, VDict [("vector", embedding);
                                                 ("k", VInt k)])])]
              :: VDict [("exists", VDict [("field", VStr col)])]
              :: clauses))])]);
           ("_source", VList (VStr <$> Dict.keys m))];
       index := match index_name with
                | Some (String c nm) => String c nm
                | _ => EmbeddingIndex.index_name ei
                end;
       options := opts |} in
  let out :=
    find_neighbors opensearch self log embedding schema feature index_name k
      filter min_score opts in
  (forall e,
     opensearch log request = Raise e ->
     out = {| outcome := Raise e; client := self; calls := log ++ [request] |})
  /\ (forall hits,
        opensearch log request = Ok hits ->
        EmbeddingIndex.col_prefix ei = "" \/ Z.of_nat (length hits) = k ->
        calls out = log ++ [request]
        /\ client out = self
        /\ forall res,
             outcome out = Ok res
             <-> Forall2 (neighbor_of self schema fg_id) hits res).
Proof.
  intros Hef Hcheck Hclauses Hsource ei fg_id col request out.
  assert (Hreq : {| body := knn_body (col_name_of ef) embedding k k clauses
                              (Dict.keys m);
                    index := index_name_or index_name
                               (EmbeddingIndex.index_name ei);
                    options := opts |} = request).
  { subst request col. unfold knn_body, col_name_of. f_equal.
    unfold index_name_or. by destruct index_name as [[|c nm]|]. }
  assert (Hstart : forall r, opensearch log request = r ->
            out = match r with
                  | Raise e =>
                      {| outcome := Raise e; client := self;
                         calls := log ++ [request] |}
                  | Ok results =>
                      if negb (String.eqb (EmbeddingIndex.col_prefix ei) "")
                         && negb (Z.of_nat (length results) =? k)%Z
                      then
                        let again :=
                          over_fetch opensearch self (log ++ [request])
                            (col_name_of ef) (body request)
                            (index_name_or index_name
                               (EmbeddingIndex.index_name ei)) opts k in
                        {| outcome := (let* results := outcome again in
                                       neighbors (client again) schema fg_id
                                         results);
                           client := client again; calls := calls again |}
                      else
                        {| outcome := neighbors self schema fg_id results;
                           client := self; calls := log ++ [request] |}
                  end).
  { intros r Hr. subst out. unfold find_neighbors.
    rewrite Hef, Hcheck. unfold knn_query. cbv zeta. rewrite Hclauses.
    cbn [bind]. rewrite Hsource. unfold search.
    fold ei. rewrite Hreq. by rewrite Hr. }
  split.
  - intros e He. by rewrite (Hstart _ He).
  - intros hits Hhits Hcase. rewrite (Hstart _ Hhits).
    assert (Hno : negb (String.eqb (EmbeddingIndex.col_prefix ei) "")
                  && negb (Z.of_nat (length hits) =? k)%Z = false).
    { destruct Hcase as [Hp|Hk].
      - by rewrite Hp.
      - apply Z.eqb_eq in Hk. rewrite Hk. by rewrite andb_false_r. }
    rewrite Hno. cbn [outcome client calls]. split_and!; [done | done |].
    intros res. apply neighbors_Ok.
Qed.

Lemma X16_single_search_witness :
  let self := (new Sample.q1 None).2 in
  let request :=
    {| body :=
         VDict [
           ("size", VInt 4);
           ("query", VDict [("bool", VDict [("must", VList [
              VDict [("knn", VDict [("p7_emb",
                        VDict [("vector", SampleIndex.vector);
                               ("k", VInt 4)])])];
              VDict [("exists", VDict [("field", VStr "p7_emb")])]])])]);
           ("_source", VList [VStr "p7_age"; VStr "p7_emb"; VStr "p7_id"])];
       index := "project_index";
       options := VNone |} in
  let out :=
    find_neighbors SampleIndex.server self [] SampleIndex.vector [] None None 4
      None VNone VNone in
  calls out = [request]
  /\ client out = self
  /\ forall res,
       outcome out = Ok res
       <-> Forall2 (neighbor_of self [] 7) SampleIndex.four_hits res.
Proof.
  intros self request out.
  refine (proj2 (X16_single_search SampleIndex.server self []
                   SampleIndex.vector [] None None 4%Z None VNone VNone
                   SampleIndex.ef [] SampleIndex.source _ _ _ _)
            SampleIndex.four_hits _ _).
  - vm_compute. reflexivity.
  - vm_compute. reflexivity.
  - vm_compute. reflexivity.
  - vm_compute. reflexivity.
  - vm_compute. reflexivity.
  - right. reflexivity.
Defined.

(** ** Point reads *)

Lemma renamed_by_prefix cp (b : list (string * string)) keys renamed :
  (forall n c, Dict.get n b = Some c -> c = cp +:+ n) ->
  renamed_by b keys renamed ->
  renamed = (fun kv => (cp +:+ kv.1, kv.2)) <$> keys.
Proof.
  intros H1 Hren. induction Hren as [|[k v] [k' v'] keys renamed [Hk Hv] _ IH];
    [done|].
  simpl in Hk, Hv. rewrite fmap_cons, IH. simpl.
  by rewrite (H1 _ _ Hk), Hv.
Qed.

Lemma read_index_name self fg_id ei index_name :
  _fg_embedding_map self !! fg_id = Some ei ->
  match index_name with
  | Some (String _ _ as nm) => Ok nm
  | _ => _get_vector_db_index_name self fg_id
  end = Ok (index_name_or index_name (EmbeddingIndex.index_name ei)).
Proof.
  intros Hei. unfold _get_vector_db_index_name, index_name_or. rewrite Hei.
  by destruct index_name as [[|c s]|].
Qed.

(** X17. A point read on an embedding-bearing feature group of a client that
    [new] returns is refused before the index is called when it comes with
    neither key values nor a primary-key column ("No pk provided."), and when
    one of its keys is neither a feature that the sub-query selects nor a
    primary-key column of the group (the error names such a key). *)
Theorem X17_read_refusals q sks self i join fg ei opensearch log schema
    index_name n :
  new q sks = (Normal, self) ->
  embedding_join_at q i join fg ei ->
  let refused e := {| outcome := Raise e; client := self; calls := log |} in
  (forall pk,
     pk = None \/ pk = Some "" ->
     read opensearch self log (FeatureGroup.id fg) schema [] pk index_name n
     = refused (FeatureStoreException "No pk provided."))
  /\ (forall keys pk,
        (exists key, key ∈ Dict.keys keys
                     /\ (key ∉ Feature.name <$> _left_features (query join))
                     /\ (key ∉ FeatureGroup.primary_key fg)) ->
        exists key,
          key ∈ Dict.keys keys
          /\ (key ∉ Feature.name <$> _left_features (query join))
          /\ (key ∉ FeatureGroup.primary_key fg)
          /\ read opensearch self log (FeatureGroup.id fg) schema keys pk
               index_name n
             = refused (feature_not_found key)).
Proof.
  intros Hnew Hjoin refused. subst refused. cbv beta.
  destruct (new_fg_maps _ _ _ _ _ _ _ Hnew Hjoin)
    as (a & b & _ & _ & Hdom & Ha & Hb & _ & Hemb).
  split.
  - intros pk Hpk. unfold read. rewrite Ha, (read_index_name _ _ _ _ Hemb).
    unfold read_query. by destruct Hpk as [-> | ->].
  - intros keys pk (key & Hin & Hs & Hp).
    destruct (rewrite_items_unmapped keys b []) as (key' & Hin' & Hnone & Hraise).
    { exists key. split; [done|].
      destruct (Dict.get key b) eqn:Hg; [|done].
      exfalso. destruct (proj1 (Hdom key)); by eauto. }
    exists key'.
    assert (Hnot : ~ is_Some (Dict.get key' b)) by (rewrite Hnone; by intros [? ?]).
    rewrite Hdom in Hnot. split_and!; [done | tauto | tauto |].
    unfold read. rewrite Ha, (read_index_name _ _ _ _ Hemb).
    unfold read_query, _rewrite_result_key.
    destruct keys as [|kv keys]; [by apply elem_of_nil in Hin|].
    by rewrite Hb, Hraise.
Qed.

Lemma X17_read_refusals_witness :
  let self := (new Sample.q None).2 in
  let refused e :=
    {| outcome := Raise e; client := self; calls := @nil Call |} in
  (forall pk,
     pk = None \/ pk = Some "" ->
     read SampleIndex.server self [] 8 [] [] pk None 10
     = refused (FeatureStoreException "No pk provided."))
  /\ (forall keys pk,
        (exists key, key ∈ Dict.keys keys /\ (key ∉ ["vec"]) /\ (key ∉ ["sku"])) ->
        exists key,
          key ∈ Dict.keys keys /\ (key ∉ ["vec"]) /\ (key ∉ ["sku"])
          /\ read SampleIndex.server self [] 8 [] keys pk None 10
             = refused (feature_not_found key)).
Proof.
  intros self.
  apply (X17_read_refusals Sample.q None self 1 Sample.join2 Sample.fg2
           Sample.ei2 SampleIndex.server [] [] None 10%Z).
  - vm_compute. reflexivity.
  - repeat split.
Defined.

(** The request of a point read and the answer built from its response. *)
Lemma read_answer q sks self i join fg ei opensearch log schema
    index_name n :
  new q sks = (Normal, self) ->
  embedding_join_at q i join fg ei ->
  exists a,
    _fg_vdb_col_fg_col_map self !! FeatureGroup.id fg = Some a
    /\ let answer body :=
         let c := {| body := body;
                     index := index_name_or index_name
                                (EmbeddingIndex.index_name ei);
                     options := VNone |} in
         {| outcome := (let* hits := opensearch log c in
                        rows self schema (FeatureGroup.id fg) hits);
            client := self; calls := log ++ [c] |} in
       (forall kv keys pk,
          NoDup (Dict.keys (kv :: keys)) ->
          (forall key, key ∈ Dict.keys (kv :: keys) ->
             key ∈ Feature.name <$> _left_features (query join)
             \/ key ∈ FeatureGroup.primary_key fg) ->
          read opensearch self log (FeatureGroup.id fg) schema (kv :: keys) pk
            index_name n
          = answer (match_body
                      ((fun kv => (EmbeddingIndex.col_prefix ei +:+ kv.1, kv.2))
                         <$> kv :: keys)
                      (Dict.keys a)))
       /\ (forall c pk,
             read opensearch self log (FeatureGroup.id fg) schema []
               (Some (String c pk)) index_name n
             = answer (exists_body (String c pk) n (Dict.keys a))).
Proof.
  intros Hnew Hjoin.
  destruct (new_fg_maps _ _ _ _ _ _ _ Hnew Hjoin)
    as (a & b & _ & (H1 & _) & Hdom & Ha & Hb & _ & Hemb).
  simpl in H1. exists a. split; [done|]. cbv zeta. split.
  - intros kv keys pk Hnd Hknown.
    destruct (rewrite_items_mapped (kv :: keys) b [] Hnd)
      as (renamed & Hrun & Hren).
    + intros k1 k2 c Hk1 Hk2.
      pose proof (H1 _ _ Hk1) as E1. pose proof (H1 _ _ Hk2) as E2.
      rewrite E1 in E2. by apply append_inj_r in E2.
    + intros key Hkey. apply Hdom. by apply Hknown.
    + done.
    + pose proof (renamed_by_prefix _ _ _ _ H1 Hren) as Hrenamed.
      unfold read. rewrite Ha, (read_index_name _ _ _ _ Hemb).
      unfold read_query, _rewrite_result_key. rewrite Hb, Hrun.
      cbn [bind app]. rewrite Ha. unfold search. by rewrite Hrenamed.
  - intros c pk. unfold read. rewrite Ha, (read_index_name _ _ _ _ Hemb).
    unfold read_query. cbn [bind]. by rewrite Ha.
Qed.

(** X18. A point read on an embedding-bearing feature group of a client that
    [new] returns makes exactly one request, on the given index name or else
    on the index of the group, and projects on the physical columns of the
    group.  Given key values under features that the sub-query selects or
    primary-key columns, the request matches each value on the physical column
    of its key, in the order of the keys; given a primary-key column instead,
    it asks for at most [n] rows that have the column.  The client is
    unchanged.  An error of the index is raised; when the index answers hits
    whose rows are dictionaries, the read returns a list exactly when every
    row can be renamed by the physical-to-final map of the group and coerced,
    and it returns these rows, one per hit, in the order of the hits. *)
Theorem X18_read_request q sks self i join fg ei opensearch log schema
    index_name n :
  new q sks = (Normal, self) ->
  embedding_join_at q i join fg ei ->
  exists a td,
    _fg_vdb_col_fg_col_map self !! FeatureGroup.id fg = Some a
    /\ _fg_vdb_col_td_col_map self !! FeatureGroup.id fg = Some td
    /\ let answers body out :=
         let c := {| body := body;
                     index := match index_name with
                              | Some (String c nm) => String c nm
                              | _ => EmbeddingIndex.index_name ei
                              end;
                     options := VNone |} in
         calls out = log ++ [c]
         /\ client out = self
         /\ (forall e, opensearch log c = Raise e -> outcome out = Raise e)
         /\ (forall hits,
               opensearch log c = Ok hits ->
               Forall (fun hit => NoDup (Dict.keys (_source hit))) hits ->
               forall res,
                 outcome out = Ok res
                 <-> Forall2 (fun hit row =>
                                renamed_and_coerced self schema td
                                  (_source hit) row)
                       hits res) in
       (forall kv keys pk,
          NoDup (Dict.keys (kv :: keys)) ->
          (forall key, key ∈ Dict.keys (kv :: keys) ->
             key ∈ Feature.name <$> _left_features (query join)
             \/ key ∈ FeatureGroup.primary_key fg) ->
          answers (match_body
                     ((fun kv => (EmbeddingIndex.col_prefix ei +:+ kv.1, kv.2))
                        <$> kv :: keys)
                     (Dict.keys a))
                  (read opensearch self log (FeatureGroup.id fg) schema
                     (kv :: keys) pk index_name n))
       /\ (forall c pk,
             answers (exists_body (String c pk) n (Dict.keys a))
                     (read opensearch self log (FeatureGroup.id fg) schema []
                        (Some (String c pk)) index_name n)).
Proof.
  intros Hnew Hjoin.
  destruct (read_answer _ _ _ _ _ _ _ opensearch log schema index_name n
              Hnew Hjoin) as (a & Ha & Hkeys & Hpk).
  pose proof (new_td_map _ _ _ _ _ _ _ Hnew Hjoin) as Htd.
  eexists a, _. split; [exact Ha|]. split; [exact Htd|].
  assert (Hidx : index_name_or index_name (EmbeddingIndex.index_name ei)
                 = match index_name with
                   | Some (String c nm) => String c nm
                   | _ => EmbeddingIndex.index_name ei
                   end).
  { unfold index_name_or. by destruct index_name as [[|c nm]|]. }
  cbv zeta in Hkeys, Hpk. rewrite Hidx in Hkeys, Hpk. cbv zeta.
  assert (Hanswer : forall c,
            (forall e, opensearch log c = Raise e ->
               (let* hits := opensearch log c in
                rows self schema (FeatureGroup.id fg) hits) = Raise e)
            /\ (forall hits,
                  opensearch log c = Ok hits ->
                  Forall (fun hit => NoDup (Dict.keys (_source hit))) hits ->
                  forall res,
                    (let* hits := opensearch log c in
                     rows self schema (FeatureGroup.id fg) hits) = Ok res
                    <-> Forall2 (fun hit row =>
                                   renamed_and_coerced self schema
                                     (vdb_col_td_col_map_of ei
                                        (prefix_or_empty join)
                                        (FeatureGroup.features fg))
                                     (_source hit) row)
                          hits res)).
  { intros c. split.
    - intros e He. by rewrite He.
    - intros hits Hhits Hnd res. rewrite Hhits. cbn [bind].
      by eapply rows_renamed. }
  split.
  - intros kv keys pk Hnd Hknown. rewrite (Hkeys kv keys pk Hnd Hknown).
    cbn [outcome client calls]. split_and!; [done | done | apply Hanswer..].
  - intros c pk. rewrite (Hpk c pk).
    cbn [outcome client calls]. split_and!; [done | done | apply Hanswer..].
Qed.

Lemma X18_read_request_witness :
  exists a td,
    _fg_vdb_col_fg_col_map (new Sample.q None).2 !! 8%Z = Some a
    /\ _fg_vdb_col_td_col_map (new Sample.q None).2 !! 8%Z = Some td
    /\ let answers body out :=
         let c := {| body := body; index := "project_index";
                     options := VNone |} in
         calls out = [] ++ [c]
         /\ client out = (new Sample.q None).2
         /\ (forall e, SampleIndex.server [] c = Raise e -> outcome out = Raise e)
         /\ (forall hits,
               SampleIndex.server [] c = Ok hits ->
               Forall (fun hit => NoDup (Dict.keys (_source hit))) hits ->
               forall res,
                 outcome out = Ok res
                 <-> Forall2 (fun hit row =>
                                renamed_and_coerced (new Sample.q None).2 [] td
                                  (_source hit) row)
                       hits res) in
       (forall kv keys pk,
          NoDup (Dict.keys (kv :: keys)) ->
          (forall key, key ∈ Dict.keys (kv :: keys) ->
             key ∈ ["vec"] \/ key ∈ ["sku"]) ->
          answers (match_body
                     ((fun kv => ("p8_" +:+ kv.1, kv.2)) <$> kv :: keys)
                     (Dict.keys a))
                  (read SampleIndex.server (new Sample.q None).2 [] 8 []
                     (kv :: keys) pk None 10))
       /\ (forall c pk,
             answers (exists_body (String c pk) 10 (Dict.keys a))
                     (read SampleIndex.server (new Sample.q None).2 [] 8 [] []
                        (Some (String c pk)) None 10)).
Proof.
  apply (X18_read_request Sample.q None (new Sample.q None).2 1 Sample.join2
           Sample.fg2 Sample.ei2 SampleIndex.server [] [] None 10%Z).
  - vm_compute. reflexivity.
  - repeat split.
Defined.

(** ** Serving keys that resolve *)

Lemma resolved_entry_values entry sks acc nm v :
  Dict.get nm
    (foldl (fun acc sk =>
              Dict.set (ServingKey.feature_name sk) (serving_key_value entry sk) acc)
           acc sks) = Some v ->
  Dict.get nm acc = Some v
  \/ exists sk, sk ∈ sks /\ ServingKey.feature_name sk = nm
                /\ v = serving_key_value entry sk.
Proof.
  revert acc. induction sks as [|sk sks IH]; intros acc H; [by left|].
  cbn [foldl] in H. destruct (IH _ H) as [Hacc|(sk' & Hin & Hn & Hv)].
  - rewrite DictFacts.get_set in Hacc. case_decide as Hk; [|by left].
    injection Hacc as <-. right. exists sk.
    split_and!; [apply list_elem_of_here | done | done].
  - right. exists sk'. split_and!; [by apply list_elem_of_further | done | done].
Qed.

Lemma resolved_entry_mono entry sks acc nm :
  is_Some (Dict.get nm acc) ->
  is_Some (Dict.get nm
             (foldl (fun acc sk =>
                       Dict.set (ServingKey.feature_name sk)
                                (serving_key_value entry sk) acc)
                    acc sks)).
Proof.
  revert acc. induction sks as [|sk sks IH]; intros acc Hacc; [done|].
  cbn [foldl]. apply IH. rewrite DictFacts.get_set. by case_decide.
Qed.

Lemma resolved_entry_present entry sks acc sk :
  sk ∈ sks ->
  is_Some (Dict.get (ServingKey.feature_name sk)
             (foldl (fun acc sk =>
                       Dict.set (ServingKey.feature_name sk)
                                (serving_key_value entry sk) acc)
                    acc sks)).
Proof.
  revert acc. induction sks as [|sk0 sks IH]; intros acc Hin.
  - by apply elem_of_nil in Hin.
  - cbn [foldl]. apply elem_of_cons in Hin as [->|Hin]; [|by apply IH].
    apply resolved_entry_mono. rewrite DictFacts.get_set_eq. by eauto.
Qed.

(** X19. When every serving key of the join index resolves to something
    other than [None], [filter_entry_by_join_index] answers [complete = True]
    with the entry built from all of them: the feature name of every serving
    key is in it, and every value in it is the value of a serving key with
    that feature name, so none is [None]. *)
Theorem X19_complete_entry self entry j sks :
  (serving_key_by_serving_index self).1 !! j = Some sks ->
  (forall sk, sk ∈ sks -> serving_key_value entry sk <> VNone) ->
  (filter_entry_by_join_index self entry j).1
  = Ok (true, resolved_entry entry sks)
  /\ (forall sk, sk ∈ sks ->
        is_Some (Dict.get (ServingKey.feature_name sk) (resolved_entry entry sks)))
  /\ (forall nm v,
        Dict.get nm (resolved_entry entry sks) = Some v ->
        v <> VNone
        /\ exists sk, sk ∈ sks /\ ServingKey.feature_name sk = nm
                      /\ v = serving_key_value entry sk).
Proof.
  intros Hsks Hall. split_and!.
  - unfold filter_entry_by_join_index.
    destruct (serving_key_by_serving_index self) as [by_index self'].
    simpl in Hsks. rewrite Hsks. simpl. f_equal.
    rewrite <- (app_nil_r sks) at 1.
    by rewrite (resolve_serving_keys_app _ _ _ _ Hall).
  - intros sk Hin. by apply resolved_entry_present.
  - intros nm v Hv.
    destruct (resolved_entry_values _ _ _ _ _ Hv) as [?|(sk & Hin & Hn & ->)];
      [done|].
    split; [by apply Hall | by exists sk].
Qed.

Lemma X19_complete_entry_witness :
  let sks := [SampleKeys.user; SampleKeys.item; SampleKeys.region] in
  let self := (new Sample.q (Some sks)).2 in
  let entry := [("user_id", VStr "u1"); ("region", VStr "eu")] in
  (filter_entry_by_join_index self entry 0).1
  = Ok (true, [("uid", VStr "u1"); ("region", VStr "eu")])
  /\ (forall sk, sk ∈ [SampleKeys.user; SampleKeys.region] ->
        is_Some (Dict.get (ServingKey.feature_name sk)
                   [("uid", VStr "u1"); ("region", VStr "eu")]))
  /\ (forall nm v,
        Dict.get nm [("uid", VStr "u1"); ("region", VStr "eu")] = Some v ->
        v <> VNone
        /\ exists sk, sk ∈ [SampleKeys.user; SampleKeys.region]
                      /\ ServingKey.feature_name sk = nm
                      /\ v = serving_key_value entry sk).
Proof.
  intros sks self entry.
  apply (X19_complete_entry self entry 0 [SampleKeys.user; SampleKeys.region]).
  - vm_compute. reflexivity.
  - intros sk [->|Hin]%elem_of_cons; [vm_compute; discriminate|].
    apply list_elem_of_singleton in Hin as ->. vm_compute. discriminate.
Defined.

(** X20. [filter_entry_by_join_index] raises [KeyError] for a join index for
    which no serving key was supplied; a client that [new] returns for a query
    without serving keys raises it for every join index. *)
Theorem X20_join_index_without_serving_keys q sks self entry j :
  new q sks = (Normal, self) ->
  (forall sk, sk ∈ default [] sks -> ServingKey.join_index sk <> j) ->
  (filter_entry_by_join_index self entry j).1 = Raise (KeyError (pretty j)).
Proof.
  intros Hnew Hnone.
  destruct (new_serving_keys _ _ _ Hnew) as [Hk Hc].
  unfold filter_entry_by_join_index, serving_key_by_serving_index.
  rewrite Hc, Hk. rewrite decide_False by (rewrite map_size_empty; lia).
  destruct sks as [sks|]; simpl.
  - rewrite group_lookup, lookup_empty.
    assert (Hf : filter (fun sk => ServingKey.join_index sk = j) sks = []).
    { simpl in Hnone. clear -Hnone. induction sks as [|sk sks IH]; [done|].
      rewrite filter_cons_False.
      - apply IH. intros sk' Hin. apply Hnone. by apply list_elem_of_further.
      - apply Hnone. apply list_elem_of_here. }
    by rewrite Hf.
  - by rewrite lookup_empty.
Qed.

Lemma X20_join_index_without_serving_keys_witness :
  (filter_entry_by_join_index (new Sample.q None).2 [("user_id", VStr "u1")] 0).1
  = Raise (KeyError (pretty 0%Z)).
Proof.
  apply (X20_join_index_without_serving_keys Sample.q None).
  - vm_compute. reflexivity.
  - intros sk Hin. by apply elem_of_nil in Hin.
Defined.

(** ** Counting *)

(** X21. For an embedding-bearing feature group of a client that [new]
    returns, [count] asks the index of the group for the number of rows that
    have the first primary-key column, under its physical name: the query it
    sends is [{"query": {"bool": {"must": {"exists": {"field": column}}}}}],
    with the caller's options.  A group without primary key makes it raise
    [IndexError], and a feature group that is not an embedding-bearing one of
    the query [KeyError]; in both cases the index is not asked. *)
Theorem X21_count q sks self count_api opts :
  new q sks = (Normal, self) ->
  (forall i join fg ei,
     embedding_join_at q i join fg ei ->
     count count_api self fg opts =
     match FeatureGroup.primary_key fg with
     | [] => Raise IndexError
     | pk :: _ =>
         count_api (EmbeddingIndex.index_name ei)
           (VDict [("query", VDict [("bool", VDict [("must",
              VDict [("exists",
                      VDict [("field",
                              VStr (EmbeddingIndex.col_prefix ei +:+ pk))])])])])])
           opts
     end)
  /\ (forall fg,
        (forall join, join ∈ fg_joins q ->
           is_Some (FeatureGroup.embedding_index (_left_feature_group (query join))) ->
           FeatureGroup.id (_left_feature_group (query join))
           <> FeatureGroup.id fg) ->
        count count_api self fg opts
        = Raise (KeyError (pretty (FeatureGroup.id fg)))).
Proof.
  intros Hnew. split.
  - intros i join fg ei Hjoin.
    destruct (new_fg_maps _ _ _ _ _ _ _ Hnew Hjoin)
      as (a & b & _ & _ & _ & _ & _ & Hpks & Hemb).
    unfold count, _get_vector_db_index_name. rewrite Hpks, Hemb.
    by destruct (FeatureGroup.primary_key fg).
  - intros fg Hother.
    destruct (new_Normal _ _ _ Hnew) as (self2 & Hfirst & _ & _ & Hsecond).
    change (q :: (query <$> joins q)) with (query <$> fg_joins q) in Hfirst.
    apply init_fg_maps_unchanged with (id := FeatureGroup.id fg) in Hfirst
      as (_ & _ & Hpks & _).
    2:{ intros q' (join & -> & Hin)%list_elem_of_fmap. by apply Hother. }
    simpl in Hpks. rewrite ?lookup_empty in Hpks.
    apply init_joins_frame in Hsecond as (_ & _ & _ & Hpks' & _).
    unfold count. by rewrite Hpks', Hpks.
Qed.

Lemma X21_count_witness :
  (forall i join fg ei,
     embedding_join_at Sample.q i join fg ei ->
     count (fun _ _ _ => Ok 42%Z) (new Sample.q None).2 fg VNone =
     match FeatureGroup.primary_key fg with
     | [] => Raise IndexError
     | pk :: _ =>
         (fun _ _ _ => Ok 42%Z) (EmbeddingIndex.index_name ei)
           (VDict [("query", VDict [("bool", VDict [("must",
              VDict [("exists",
                      VDict [("field",
                              VStr (EmbeddingIndex.col_prefix ei +:+ pk))])])])])])
           VNone
     end)
  /\ (forall fg,
        (forall join, join ∈ fg_joins Sample.q ->
           is_Some (FeatureGroup.embedding_index (_left_feature_group (query join))) ->
           FeatureGroup.id (_left_feature_group (query join))
           <> FeatureGroup.id fg) ->
        count (fun _ _ _ => Ok 42%Z) (new Sample.q None).2 fg VNone
        = Raise (KeyError (pretty (FeatureGroup.id fg)))).
Proof.
  apply (X21_count Sample.q None (new Sample.q None).2 (fun _ _ _ => Ok 42%Z) VNone).
  vm_compute. reflexivity.
Defined.

(** ** From physical to final columns *)

Lemma rewrite_items_prefix ei alias fs (cols acc : list (string * Val)) :
  NoDup (Dict.keys cols) ->
  (forall n, n ∈ Dict.keys cols -> exists f, f ∈ fs /\ Feature.name f = n) ->
  (forall n, n ∈ Dict.keys cols -> Dict.get (alias +:+ n) acc = None) ->
  rewrite_items
    ((fun kv : string * Val => (EmbeddingIndex.col_prefix ei +:+ kv.1, kv.2))
       <$> cols)
    (vdb_col_td_col_map_of ei alias fs) acc
  = Ok (acc ++ ((fun kv : string * Val => (alias +:+ kv.1, kv.2)) <$> cols)).
Proof.
  revert acc. induction cols as [|[n v] cols IH]; intros acc Hnd Hfeat Hfresh.
  - by rewrite app_nil_r.
  - apply NoDup_keys_cons in Hnd as [Hn Hnd].
    rewrite !fmap_cons. cbn [rewrite_items fst snd].
    destruct (Hfeat n) as (f & Hf & Hname);
      [apply elem_of_keys_cons; by left|].
    rewrite <- Hname at 1.
    rewrite (td_map_get_feature ei alias _ f Hf), Hname.
    rewrite set_fresh by (apply Hfresh, elem_of_keys_cons; by left).
    rewrite IH.
    + by rewrite <- app_assoc.
    + done.
    + intros n' Hn'. apply Hfeat, elem_of_keys_cons. by right.
    + intros n' Hn'. rewrite get_app_fresh.
      rewrite Hfresh by (apply elem_of_keys_cons; by right).
      simpl. case_decide as Heq; [|done].
      apply append_inj_r in Heq. by subst n'.
Qed.

(** X23. In a client that [new] returns, renaming a result row of an
    embedding-bearing feature group replaces the column prefix of the index by
    the alias of the join: a row that holds values under the physical columns
    of distinct features of the group comes back with the same values, in the
    same order, under the final columns (no alias for the primary feature
    group). *)
Theorem X23_prefix_becomes_alias q sks self i join fg ei
    (cols : list (string * Val)) :
  new q sks = (Normal, self) ->
  embedding_join_at q i join fg ei ->
  NoDup (Dict.keys cols) ->
  (forall n, n ∈ Dict.keys cols ->
     exists f, f ∈ FeatureGroup.features fg /\ Feature.name f = n) ->
  exists td,
    _fg_vdb_col_td_col_map self !! FeatureGroup.id fg = Some td
    /\ _rewrite_result_key
         ((fun kv : string * Val =>
             (EmbeddingIndex.col_prefix ei +:+ kv.1, kv.2)) <$> cols) td
       = Ok ((fun kv : string * Val =>
                (final_prefix i join +:+ kv.1, kv.2)) <$> cols).
Proof.
  intros Hnew Hjoin Hnd Hfeat.
  pose proof (new_td_map _ _ _ _ _ _ _ Hnew Hjoin) as Htd.
  assert (Halias : prefix_or_empty join = final_prefix i join).
  { destruct Hjoin as (Hi & _). destruct i as [|i]; [|done].
    simpl in Hi. by injection Hi as <-. }
  eexists. split; [exact Htd|]. rewrite Halias.
  unfold _rewrite_result_key.
  by rewrite (rewrite_items_prefix ei (final_prefix i join) _ cols []).
Qed.

Lemma X23_prefix_becomes_alias_witness :
  exists td,
    _fg_vdb_col_td_col_map (new Sample.q None).2 !! 8%Z = Some td
    /\ _rewrite_result_key
         ((fun kv : string * Val => ("p8_" +:+ kv.1, kv.2))
            <$> [("vec", VList [VInt 1]); ("sku", VStr "s1")]) td
       = Ok ((fun kv : string * Val => ("item_" +:+ kv.1, kv.2))
               <$> [("vec", VList [VInt 1]); ("sku", VStr "s1")]).
Proof.
  apply (X23_prefix_becomes_alias Sample.q None (new Sample.q None).2
           1 Sample.join2 Sample.fg2 Sample.ei2
           [("vec", VList [VInt 1]); ("sku", VStr "s1")]).
  - vm_compute. reflexivity.
  - repeat split.
  - apply (bool_decide_unpack _). vm_compute. reflexivity.
  - intros n Hn. simpl in Hn.
    apply elem_of_cons in Hn as [->|Hn].
    + exists Sample.g_vec. split; [|reflexivity].
      apply list_elem_of_further, list_elem_of_here.
    + apply elem_of_cons in Hn as [->|Hn].
      * exists Sample.g_id. split; [|reflexivity]. apply list_elem_of_here.
      * by apply elem_of_nil in Hn.
Defined.

(** ** What a search leaves of the client *)

Section Frame.
Variable opensearch : list Call -> Call -> result (list Hit).

Lemma discover_limit_frame self log col_name q index_name opts :
  let probe := discover_limit opensearch self log col_name q index_name opts in
  at_most_one_ceiling_more self (client probe)
  /\ exists more,
       calls probe = log ++ more
       /\ (length more <= 1)%nat
       /\ Forall (fun c => index c = index_name /\ options c = opts) more.
Proof.
  cbv zeta. unfold discover_limit.
  destruct (limit_unknown self index_name) eqn:Hunknown; cbn [client calls].
  2:{ split; [by left|]. exists []. rewrite app_nil_r. split_and!; [done|simpl; lia|done]. }
  unfold probe_limit, search.
  destruct (set_knn_k col_name _ q) as [q'|e]; cbn [client calls].
  2:{ split; [by left|]. exists []. rewrite app_nil_r. split_and!; [done|simpl; lia|done]. }
  assert (Hcalls : exists more,
            log ++ [{| body := q'; index := index_name; options := opts |}]
            = log ++ more
            /\ (length more <= 1)%nat
            /\ Forall (fun c => index c = index_name /\ options c = opts) more).
  { eexists. split; [reflexivity|]. split; [simpl; lia|].
    by apply Forall_singleton. }
  destruct (opensearch log _) as [hits|[]]; cbn [client calls];
    try (split; [by left|exact Hcalls]).
  destruct (String.eqb _ _ && negb (_ =? 0)%Z) eqn:Hreason; cbn [client calls].
  2:{ split; [by left|exact Hcalls]. }
  split; [|exact Hcalls].
  right. eexists _, _. split; [|split; [exact Hunknown|reflexivity]].
  apply andb_true_iff in Hreason as [_ Hlimit].
  apply negb_true_iff, Z.eqb_neq in Hlimit. exact Hlimit.
Qed.

Lemma over_fetch_frame self log col_name q index_name opts k :
  let again := over_fetch opensearch self log col_name q index_name opts k in
  at_most_one_ceiling_more self (client again)
  /\ exists more,
       calls again = log ++ more
       /\ (length more <= 2)%nat
       /\ Forall (fun c => index c = index_name /\ options c = opts) more.
Proof.
  cbv zeta. unfold over_fetch.
  destruct (discover_limit_frame self log col_name q index_name opts)
    as (Hclient & more & Hcalls & Hlen & Hall).
  assert (Hsame : exists more0,
            calls (discover_limit opensearch self log col_name q index_name opts)
            = log ++ more0
            /\ (length more0 <= 2)%nat
            /\ Forall (fun c => index c = index_name /\ options c = opts) more0).
  { exists more. split_and!; [done|lia|done]. }
  destruct (outcome (discover_limit opensearch self log col_name q index_name opts))
    as [q1|e]; cbn [client calls]; [|by split].
  destruct (set_knn_k col_name _ q1) as [q2|e]; cbn [client calls]; [|by split].
  unfold search. cbn [client calls]. split; [done|].
  exists (more ++ [{| body := q2; index := index_name; options := opts |}]).
  rewrite Hcalls, <- app_assoc. split; [done|].
  rewrite length_app. split; [simpl; lia|].
  apply Forall_app. split; [done|]. by apply Forall_singleton.
Qed.

(** X24. Whatever its arguments and whatever the index answers,
    [find_neighbors] leaves the client as it was, but for at most one ceiling
    that it caches for an index name that had none (so no namespace map and
    no ceiling already cached changes), and it adds at most three requests to
    the calls made before, all to one index and with the caller's options. *)
Theorem X24_search_leaves_the_client self log embedding schema feature
    index_name k filter min_score opts :
  let out := find_neighbors opensearch self log embedding schema feature
               index_name k filter min_score opts in
  at_most_one_ceiling_more self (client out)
  /\ at_most_more_calls 3 opts log (calls out).
Proof.
  cbv zeta. unfold find_neighbors, at_most_more_calls.
  assert (Hnone : exists (index_name0 : string) more,
            log = log ++ more /\ (length more <= 3)%nat
            /\ Forall (fun c => index c = index_name0 /\ options c = opts) more).
  { exists "", []. rewrite app_nil_r. split_and!; [done|simpl; lia|done]. }
  destruct (resolve_embedding_feature self feature) as [ef|e];
    cbn [client calls]; [|split; [by left|exact Hnone]].
  destruct (check_filter_arg filter _) as [?|e];
    cbn [client calls]; [|split; [by left|exact Hnone]].
  destruct (knn_query self ef embedding k filter) as [q|e];
    cbn [client calls]; [|split; [by left|exact Hnone]].
  unfold search.
  set (idx := index_name_or index_name _).
  set (c := {| body := q; index := idx; options := opts |}).
  assert (Hone : exists (index_name0 : string) more,
            log ++ [c] = log ++ more /\ (length more <= 3)%nat
            /\ Forall (fun c => index c = index_name0 /\ options c = opts) more).
  { exists idx, [c]. split; [done|]. split; [simpl; lia|].
    by apply Forall_singleton. }
  destruct (opensearch log c) as [results|e];
    cbn [client calls]; [|split; [by left|exact Hone]].
  destruct (negb _ && negb _); cbn [client calls];
    [|split; [by left|exact Hone]].
  destruct (over_fetch_frame self (log ++ [c]) (col_name_of ef) q idx opts k)
    as (Hclient & more & Hcalls & Hlen & Hall).
  split; [exact Hclient|].
  exists idx, (c :: more). rewrite Hcalls, <- app_assoc.
  split; [done|]. split; [simpl; lia|].
  apply Forall_cons. by split.
Qed.
End Frame.

(** ** Attached transformation functions *)

Lemma attached_dict_fold {F : Type}
    (tfs : list (TransformationFunctionAttached.t F)) acc :
  let d := foldl (fun d tf =>
                    Dict.set (TransformationFunctionAttached.name tf)
                      (TransformationFunctionAttached.transformation_function tf)
                      d) acc tfs in
  (NoDup (Dict.keys acc) -> NoDup (Dict.keys d))
  /\ forall n,
       Dict.get n d
       = match last (filter (fun tf => TransformationFunctionAttached.name tf = n)
                            tfs) with
         | Some tf =>
             Some (TransformationFunctionAttached.transformation_function tf)
         | None => Dict.get n acc
         end.
Proof.
  cbv zeta. revert acc. induction tfs as [|tf tfs IH] using rev_ind; intros acc.
  - done.
  - rewrite foldl_snoc. split.
    + intros Hnd. apply DictFacts.NoDup_keys_set. by apply IH.
    + intros n. rewrite filter_app.
      destruct (decide (TransformationFunctionAttached.name tf = n)) as [<-|Hne].
      * rewrite (filter_cons_True _ tf) by done. rewrite filter_nil.
        rewrite last_snoc. apply DictFacts.get_set_eq.
      * rewrite (filter_cons_False _ tf) by done. rewrite filter_nil, app_nil_r.
        rewrite DictFacts.get_set_ne by done. apply IH.
Qed.

(** X25. When the REST client answers a list of attachments,
    [get_attached_transformation_fn] returns a dictionary with one entry per
    distinct feature name, and the function under a name is the one of the
    last attachment with that name: an earlier attachment to the same name is
    dropped. *)
Theorem X25_last_attachment_wins {F : Type}
    (api : string -> Z -> result (Attached F)) name version tfs :
  api name version = Ok (AttachedList tfs) ->
  exists d,
    get_attached_transformation_fn api name version = Ok d
    /\ NoDup (Dict.keys d)
    /\ forall n,
         Dict.get n d
         = TransformationFunctionAttached.transformation_function
             <$> last (filter (fun tf => TransformationFunctionAttached.name tf = n)
                              tfs).
Proof.
  intros Hapi. unfold get_attached_transformation_fn. rewrite Hapi. cbn [bind].
  eexists. split; [reflexivity|].
  destruct (attached_dict_fold tfs []) as [Hnd Hget].
  split; [apply Hnd, NoDup_nil_2|].
  intros n. cbn [transformation_functions_dict]. rewrite Hget.
  by destruct (last _).
Qed.

Lemma X25_last_attachment_wins_witness :
  exists d,
    get_attached_transformation_fn SampleAttached.api "view" 1 = Ok d
    /\ NoDup (Dict.keys d)
    /\ forall n,
         Dict.get n d
         = TransformationFunctionAttached.transformation_function
             <$> last (filter (fun tf => TransformationFunctionAttached.name tf = n)
                              SampleAttached.attachments).
Proof.
  apply (X25_last_attachment_wins SampleAttached.api "view" 1
           SampleAttached.attachments).
  reflexivity.
Defined.
